(** * rprt: a reverse HTTP tunnel (relay / agent) -- verification of the core

    Shallow embedding of the Go sources:
    - package [protocol]: the frame codec and the stream id allocator
      ([internal/protocol/message.go]);
    - package [relay]: token authorisation, the agent pool with its
      round-robin selection, the relay side of a tunnel with its stream
      registry, and the request handler ([internal/relay/handler.go]);
    - package [agent]: the agent side of a tunnel
      ([internal/agent/tunnel.go]);
    - of the Go library: [crypto/sha256], [crypto/hmac], [encoding/hex],
      [strconv] and [strings.SplitN], as far as the token code calls them.

    Conventions.  A Go [uintN] is a [Z] whose wrap-around is written out
    where the code can wrap; a [[]byte] is a [list byte]; a Go [string]
    (a byte sequence) is a [string]; a Go [map] is a [gmap]; an [error]
    result is a constructor of an error type of the package. *)

From Stdlib Require Import ZArith Lia List Bool Ascii String.
From Stdlib.Strings Require Import Byte.
From stdpp Require Import base option list gmap strings.
Import ListNotations.

Local Open Scope Z_scope.

(** * Part I: the embedding *)

(** ** Results *)

Inductive result (E A : Type) : Type :=
| Ok (a : A)
| Err (e : E).
Arguments Ok {E A} a.
Arguments Err {E A} e.

(** ** Bytes and fixed-width integers *)

Module Bytes.

Definition Z_of_byte (b : byte) : Z := Z.of_N (Byte.to_N b).

(** The conversion [uint8(z)]: the low eight bits. *)
Definition byte_of_Z (z : Z) : byte :=
  match Byte.of_N (Z.to_N (z mod 256)) with
  | Some b => b
  | None => x00
  end.

(** [binary.BigEndian.PutUint32]: the four bytes of [v], most
    significant first. *)
Definition PutUint32 (v : Z) : list byte :=
  [ byte_of_Z (Z.shiftr v 24); byte_of_Z (Z.shiftr v 16);
    byte_of_Z (Z.shiftr v 8);  byte_of_Z v ].

(** [binary.BigEndian.Uint32] on a four byte slice. *)
Definition Uint32 (b : list byte) : Z :=
  match b with
  | [b0; b1; b2; b3] =>
      Z.lor (Z.lor (Z.lor (Z.shiftl (Z_of_byte b0) 24)
                          (Z.shiftl (Z_of_byte b1) 16))
                   (Z.shiftl (Z_of_byte b2) 8))
            (Z_of_byte b3)
  | _ => 0
  end.

End Bytes.

(** ** internal/protocol: the wire frame and its codec *)

Module Protocol.
Import Bytes.

(** Message types of the tunnel wire protocol. *)
Definition TypeHTTPRequest   : Z := 1.
Definition TypeHTTPResponse  : Z := 2.
Definition TypeBodyChunk     : Z := 3.
Definition TypeStreamClose   : Z := 4.
Definition TypePing          : Z := 5.
Definition TypePong          : Z := 6.
Definition TypeAuthChallenge : Z := 7.
Definition TypeAuthResponse  : Z := 8.

(** 1 byte type + 4 byte stream id + 4 byte payload length. *)
Definition HeaderSize : Z := 9.

(** Maximum payload size per frame (64 KiB). *)
Definition MaxPayloadSize : Z := 64 * 1024.

(** [Type_] is a [uint8], [StreamID] a [uint32]. *)
Record Frame : Type := mkFrame {
  Type_    : Z;
  StreamID : Z;
  Payload  : list byte
}.

Definition len {A} (l : list A) : Z := Z.of_nat (length l).

(** The Go slice expression [l[lo:hi]]. *)
Definition slice {A} (lo hi : nat) (l : list A) : list A :=
  take (hi - lo) (drop lo l).

Inductive codec_error : Type :=
| BufferTooSmall (have : Z)
| PayloadTooLarge (size : Z)
| DataTooShort (have need : Z).

(** [NextStreamID]: the process wide [atomic.Uint64] counter is the
    state; the result is [uint32(counter.Add(1))]. *)
Definition NextStreamID (_stream_counter : Z) : Z * Z :=
  let c := (_stream_counter + 1) mod 2 ^ 64 in
  (c mod 2 ^ 32, c).

(** [_encode_header]: the nine bytes written into the buffer. *)
Definition _encode_header (f : Frame) : list byte :=
  byte_of_Z (Type_ f)
  :: PutUint32 (StreamID f)
  ++ PutUint32 (len (Payload f) mod 2 ^ 32).

Definition _decode_header (buf : list byte) : result codec_error (Z * Z * Z) :=
  if len buf <? HeaderSize then Err (BufferTooSmall (len buf))
  else
    let msgType := Z_of_byte (nth 0 buf x00) in
    let streamID := Uint32 (slice 1 5 buf) in
    let payloadLen := Uint32 (slice 5 9 buf) in
    if payloadLen >? MaxPayloadSize then Err (PayloadTooLarge payloadLen)
    else Ok (msgType, streamID, payloadLen).

Definition MarshalFrame (f : Frame) : result codec_error (list byte) :=
  if len (Payload f) >? MaxPayloadSize then Err (PayloadTooLarge (len (Payload f)))
  else Ok (_encode_header f ++ Payload f).

Definition UnmarshalFrame (data : list byte) : result codec_error Frame :=
  match _decode_header data with
  | Err e => Err e
  | Ok (msgType, streamID, payloadLen) =>
      let totalLen := HeaderSize + payloadLen in
      if len data <? totalLen then Err (DataTooShort (len data) totalLen)
      else
        Ok {| Type_ := msgType;
              StreamID := streamID;
              Payload := slice (Z.to_nat HeaderSize) (Z.to_nat totalLen) data |}
  end.

(** The [payload_len] field a buffer declares in bytes 5 to 8. *)
Definition declared_payload_len (buf : list byte) : Z := Uint32 (slice 5 9 buf).

Definition is_err {E A} (r : result E A) : Prop :=
  match r with Err _ => True | Ok _ => False end.

End Protocol.

(** ** crypto/sha256 and crypto/hmac, as used by the token code *)

Module Sha256.
Import Bytes.

(** Arithmetic on 32-bit words. *)
Definition add32 (a b : Z) : Z := (a + b) mod 2 ^ 32.

Definition rotr (n x : Z) : Z :=
  Z.lor (Z.shiftr x n) (Z.shiftl x (32 - n) mod 2 ^ 32).

Definition not32 (x : Z) : Z := Z.lxor x (2 ^ 32 - 1).

Definition Ch (x y z : Z) : Z := Z.lxor (Z.land x y) (Z.land (not32 x) z).

Definition Maj (x y z : Z) : Z :=
  Z.lxor (Z.lxor (Z.land x y) (Z.land x z)) (Z.land y z).

Definition Sigma0 (x : Z) : Z := Z.lxor (Z.lxor (rotr 2 x) (rotr 13 x)) (rotr 22 x).
Definition Sigma1 (x : Z) : Z := Z.lxor (Z.lxor (rotr 6 x) (rotr 11 x)) (rotr 25 x).
Definition sigma0 (x : Z) : Z := Z.lxor (Z.lxor (rotr 7 x) (rotr 18 x)) (Z.shiftr x 3).
Definition sigma1 (x : Z) : Z := Z.lxor (Z.lxor (rotr 17 x) (rotr 19 x)) (Z.shiftr x 10).

(** The largest [r] below [2^k] with [r ^ deg <= n], found bit by bit. *)
Fixpoint root_bits (k : nat) (deg n r : Z) : Z :=
  match k with
  | O => r
  | S k' =>
      let c := r + 2 ^ Z.of_nat k' in
      root_bits k' deg n (if c ^ deg <=? n then c else r)
  end.

(** The first 32 bits of the fractional part of the root of degree [deg]
    of [p]. *)
Definition root_fraction (deg p : Z) : Z :=
  root_bits 40 deg (p * 2 ^ (32 * deg)) 0 mod 2 ^ 32.

(** The first sixty-four primes. *)
Definition primes : list Z :=
  [2; 3; 5; 7; 11; 13; 17; 19; 23; 29; 31; 37; 41; 43; 47; 53;
   59; 61; 67; 71; 73; 79; 83; 89; 97; 101; 103; 107; 109; 113; 127; 131;
   137; 139; 149; 151; 157; 163; 167; 173; 179; 181; 191; 193; 197; 199; 211; 223;
   227; 229; 233; 239; 241; 251; 257; 263; 269; 271; 277; 281; 283; 293; 307; 311].

(** The round constants [_K] of sha256block.go: the fractional parts of
    the cube roots of the primes. *)
Definition _K : list Z := Eval vm_compute in map (root_fraction 3) primes.

(** The initial hash value: the fractional parts of the square roots of
    the first eight primes. *)
Definition init : list Z := Eval vm_compute in map (root_fraction 2) (take 8 primes).

Definition BlockSize : nat := 64.
Definition Size : nat := 32.

(** The message followed by the bit 1, zero bits up to 56 modulo 64 bytes,
    and the bit length as a 64-bit big-endian number. *)
Definition pad (msg : list byte) : list byte :=
  let n := length msg in
  let zeros := ((BlockSize + 55 - n mod BlockSize) mod BlockSize)%nat in
  let bits := Z.of_nat n * 8 in
  msg ++ [x80] ++ repeat x00 zeros
      ++ PutUint32 (Z.shiftr bits 32 mod 2 ^ 32) ++ PutUint32 (bits mod 2 ^ 32).

(** A list cut into pieces of [n] elements; [fuel] bounds the number of
    pieces. *)
Fixpoint pieces {A} (fuel n : nat) (l : list A) : list (list A) :=
  match fuel with
  | O => []
  | S fuel' =>
      match l with
      | [] => []
      | _ => take n l :: pieces fuel' n (drop n l)
      end
  end.

(** The sixteen big-endian words of a block. *)
Definition block_words (block : list byte) : list Z :=
  map Uint32 (pieces 16 4 block).

(** The message schedule grown by [n] words. *)
Fixpoint schedule (n : nat) (w : list Z) : list Z :=
  match n with
  | O => w
  | S n' =>
      let t := length w in
      let x := add32 (add32 (add32 (sigma1 (nth (t - 2) w 0)) (nth (t - 7) w 0))
                            (sigma0 (nth (t - 15) w 0)))
                     (nth (t - 16) w 0) in
      schedule n' (w ++ [x])
  end.

(** One round on the working variables [a..h]. *)
Definition round (v : list Z) (kw : Z * Z) : list Z :=
  match v with
  | [a; b; c; d; e; f; g; h] =>
      let t1 := add32 (add32 (add32 (add32 h (Sigma1 e)) (Ch e f g)) kw.1) kw.2 in
      let t2 := add32 (Sigma0 a) (Maj a b c) in
      [add32 t1 t2; a; b; c; add32 d t1; e; f; g]
  | _ => v
  end.

(** The compression of one block into the hash value. *)
Definition block (h : list Z) (b : list byte) : list Z :=
  let w := schedule 48 (block_words b) in
  let v := fold_left round (combine _K w) h in
  map (fun p : Z * Z => add32 p.1 p.2) (combine h v).

(** [sha256.Sum256]. *)
Definition Sum256 (msg : list byte) : list byte :=
  let padded := pad msg in
  let h := fold_left block (pieces (length padded) BlockSize padded) init in
  concat (map PutUint32 h).

End Sha256.

Module Hmac.
Import Bytes.

Definition xor_byte (k : Z) (b : byte) : byte := byte_of_Z (Z.lxor (Z_of_byte b) k).

(** The key as [hmac.New] prepares it: hashed when longer than a block,
    then padded with zeros to the block size. *)
Definition block_key (key : list byte) : list byte :=
  let k := if (Sha256.BlockSize <? length key)%nat then Sha256.Sum256 key else key in
  k ++ repeat x00 (Sha256.BlockSize - length k).

(** HMAC-SHA256 of [msg] under [key]. *)
Definition Sum (key msg : list byte) : list byte :=
  let k := block_key key in
  let ipad := map (xor_byte 0x36) k in
  let opad := map (xor_byte 0x5c) k in
  Sha256.Sum256 (opad ++ Sha256.Sum256 (ipad ++ msg)).

End Hmac.

(** ** strconv, strings, encoding/hex: what the token code calls *)

Module GoStrings.
Import Bytes.

Definition code (c : ascii) : Z := Z.of_N (N_of_ascii c).

Definition char_of (z : Z) : ascii := ascii_of_N (Z.to_N z).

Definition colon : ascii := ":"%char.

(** The two lower-case hexadecimal digits of a byte. *)
Definition hex_digit (n : Z) : ascii :=
  if n <? 10 then char_of (48 + n) else char_of (87 + n).

(** [hex.EncodeToString]. *)
Fixpoint EncodeToString (src : list byte) : string :=
  match src with
  | [] => EmptyString
  | b :: rest =>
      String (hex_digit (Z.shiftr (Z_of_byte b) 4))
             (String (hex_digit (Z.land (Z_of_byte b) 15)) (EncodeToString rest))
  end.

(** The text before and after the first colon, if there is one. *)
Fixpoint cut_colon (s : string) : option (string * string) :=
  match s with
  | EmptyString => None
  | String c rest =>
      if Ascii.eqb c colon then Some (EmptyString, rest)
      else match cut_colon rest with
           | Some (before, after) => Some (String c before, after)
           | None => None
           end
  end.

(** [strings.SplitN(s, ":", 2)]. *)
Definition SplitN_colon_2 (s : string) : list string :=
  match cut_colon s with
  | Some (before, after) => [before; after]
  | None => [s]
  end.

Fixpoint count_colons (s : string) : nat :=
  match s with
  | EmptyString => 0
  | String c rest => ((if Ascii.eqb c colon then 1 else 0) + count_colons rest)%nat
  end.

(** Decimal digits of [u], most significant first, in front of [acc]. *)
Fixpoint format_digits (fuel : nat) (u : Z) (acc : string) : string :=
  match fuel with
  | O => acc
  | S fuel' =>
      let acc' := String (char_of (48 + u mod 10)) acc in
      if u <? 10 then acc' else format_digits fuel' (u / 10) acc'
  end.

(** [strconv.FormatUint(u, 10)]: a [uint64] has at most 20 digits. *)
Definition FormatUint (u : Z) : string := format_digits 20 u EmptyString.

(** [strconv.FormatInt(i, 10)]. *)
Definition FormatInt (i : Z) : string :=
  if i <? 0 then String "-"%char (FormatUint (- i)) else FormatUint i.

Inductive num_error : Type := ErrSyntax | ErrRange.

Definition maxUint64 : Z := 2 ^ 64 - 1.

Definition is_digit (c : ascii) : bool := (48 <=? code c) && (code c <=? 57).

(** The digit loop of [strconv.ParseUint(s, 10, 64)]. *)
Fixpoint parse_digits (s : string) (n : Z) : result num_error Z :=
  match s with
  | EmptyString => Ok n
  | String c rest =>
      if is_digit c then
        let d := code c - 48 in
        if n >=? maxUint64 / 10 + 1 then Err ErrRange
        else
          let n1 := n * 10 + d in
          if n1 >? maxUint64 then Err ErrRange else parse_digits rest n1
      else Err ErrSyntax
  end.

Definition ParseUint (s : string) : result num_error Z :=
  match s with
  | EmptyString => Err ErrSyntax
  | _ => parse_digits s 0
  end.

(** [strconv.ParseInt(s, 10, 64)]. *)
Definition ParseInt (s : string) : result num_error Z :=
  match s with
  | EmptyString => Err ErrSyntax
  | String c rest =>
      let neg := Ascii.eqb c "-"%char in
      let s' := if Ascii.eqb c "+"%char || neg then rest else s in
      match ParseUint s' with
      | Err ErrSyntax => Err ErrSyntax
      | r =>
          let un := match r with Ok u => u | Err _ => maxUint64 end in
          let cutoff := 2 ^ 63 in
          if negb neg && (un >=? cutoff) then Err ErrRange
          else if neg && (un >? cutoff) then Err ErrRange
          else Ok (if neg then - un else un)
      end
  end.

End GoStrings.

(** ** internal/relay: token authorisation *)

Module RelayAuth.
Import GoStrings.

(** The value of an [int64] computation: wrap-around into
    [-2^63 .. 2^63 - 1]. *)
Definition int64 (z : Z) : Z := (z + 2 ^ 63) mod 2 ^ 64 - 2 ^ 63.

(** The conversion [float64(d)] of an [int64]: the nearest number with a
    53-bit significand, ties to even.  The result is an integer. *)
Definition float64_of_int (d : Z) : Z :=
  let a := Z.abs d in
  if a <=? 2 ^ 53 then d
  else
    let e := Z.log2 a - 52 in
    let q := a / 2 ^ e in
    let r := a mod 2 ^ e in
    let half := 2 ^ (e - 1) in
    let q' := if r <? half then q
              else if half <? r then q + 1
              else if Z.even q then q else q + 1 in
    Z.sgn d * (q' * 2 ^ e).

(** The conversion [time.Duration(f)] of an integral [float64] that is not
    negative.  [2^63], the one value out of range, converts as on amd64. *)
Definition int_of_float64 (f : Z) : Z :=
  if f <? 2 ^ 63 then f else - 2 ^ 63.

(** [time.Second] and the token validity window, in nanoseconds. *)
Definition Second : Z := 1000000000.
Definition _token_validity : Z := 5 * 60 * Second.

Inductive token_error : Type :=
| MalformedToken          (* "malformed token: expected hmac:timestamp" *)
| InvalidTimestamp (e : num_error)  (* "invalid timestamp in token" *)
| TokenExpired (age : Z)  (* "token expired" *)
| InvalidSignature.       (* "invalid hmac signature" *)

(** [_compute_hmac]: the hex-encoded HMAC-SHA256 of the message. *)
Definition _compute_hmac (secret message : string) : string :=
  EncodeToString (Hmac.Sum (list_byte_of_string secret) (list_byte_of_string message)).

(** [hmac.Equal]: equality of the two byte strings (the comparison takes
    the same time whatever the contents). *)
Definition hmac_Equal (mac1 mac2 : string) : bool := String.eqb mac1 mac2.

(** [GenerateToken]; [now] is [time.Now().Unix()]. *)
Definition GenerateToken (now : Z) (secret : string) : string :=
  let ts := FormatInt now in
  let mac := _compute_hmac secret ts in
  (mac ++ ":" ++ ts)%string.

(** [ValidateToken]; [now] is [time.Now().Unix()]. *)
Definition ValidateToken (now : Z) (secret token : string) : result token_error unit :=
  match SplitN_colon_2 token with
  | [mac; tsStr] =>
      match ParseInt tsStr with
      | Err e => Err (InvalidTimestamp e)
      | Ok ts =>
          let diff :=
            int64 (int_of_float64 (Z.abs (float64_of_int (int64 (now - ts)))) * Second) in
          if diff >? _token_validity then Err (TokenExpired diff)
          else
            let expected := _compute_hmac secret tsStr in
            if negb (hmac_Equal mac expected) then Err InvalidSignature
            else Ok ()
      end
  | _ => Err MalformedToken
  end.

End RelayAuth.

(** ** internal/relay: the agent pool *)

Module RelayPool.

Inductive pool_error : Type :=
| NoAgentsConnected
| IndexOutOfRange.   (* the run-time panic of [p.tunnels[idx]] *)

Section Pool.
(** [T] is the type of the links held by the pool (in the relay:
    pointers to tunnels, compared by identity). *)
Context {T : Type} `{EqDecision T}.

(** [tunnels] is the slice of links, [counter] the [atomic.Uint64]. *)
Record Pool : Type := mkPool {
  tunnels : list T;
  counter : Z
}.

Definition NewPool : Pool := {| tunnels := []; counter := 0 |}.

Definition Add (p : Pool) (t : T) : Pool :=
  {| tunnels := tunnels p ++ [t]; counter := counter p |}.

(** The scan of [Remove]: the first element identical to [t] is cut out. *)
Fixpoint remove_first (t : T) (l : list T) : list T :=
  match l with
  | [] => []
  | existing :: rest =>
      if decide (existing = t) then rest else existing :: remove_first t rest
  end.

Definition Remove (p : Pool) (t : T) : Pool :=
  {| tunnels := remove_first t (tunnels p); counter := counter p |}.

(** [Get]: [idx := p.counter.Add(1) % uint64(len(p.tunnels))]. *)
Definition Get (p : Pool) : result pool_error T * Pool :=
  if (length (tunnels p) =? 0)%nat then (Err NoAgentsConnected, p)
  else
    let c := (counter p + 1) mod 2 ^ 64 in
    let idx := c mod Z.of_nat (length (tunnels p)) in
    let p' := {| tunnels := tunnels p; counter := c |} in
    match tunnels p !! Z.to_nat idx with
    | Some t => (Ok t, p')
    | None => (Err IndexOutOfRange, p')
    end.

Definition Size (p : Pool) : Z := Z.of_nat (length (tunnels p)).

(** [n] consecutive calls of [Get], with their results in call order. *)
Fixpoint GetN (n : nat) (p : Pool) : list (result pool_error T) * Pool :=
  match n with
  | O => ([], p)
  | S n' =>
      let '(r, p1) := Get p in
      let '(rs, p2) := GetN n' p1 in
      (r :: rs, p2)
  end.

Definition returns_link (t : T) (r : result pool_error T) : bool :=
  match r with
  | Ok t' => bool_decide (t' = t)
  | Err _ => false
  end.

(** How many of the results are the link [t]. *)
Fixpoint times_returned (t : T) (rs : list (result pool_error T)) : nat :=
  match rs with
  | [] => 0
  | r :: rs' => ((if returns_link t r then 1 else 0) + times_returned t rs')%nat
  end.

End Pool.

Arguments Pool T : clear implicits.

End RelayPool.

(** ** internal/relay: the relay side of a tunnel *)

Module RelayTunnel.
Import Protocol.

(** A [chan *protocol.Frame] of the stream registry: the frames enqueued
    and not yet received, and whether the channel has been closed. *)
Record Chan : Type := mkChan {
  queue  : list Frame;
  closed : bool
}.

(** Capacity of a response channel, [make(chan *protocol.Frame, 64)]. *)
Definition chan_capacity : Z := 64.

(** The websocket connection under a codec.  [written] are the binary
    messages sent so far.  [faults] is the environment: the outcome of the
    coming calls of [WriteMessage], [true] for a failed write; when it is
    exhausted writes succeed.  A closed connection fails every write. *)
Record Conn : Type := mkConn {
  written     : list (list byte);
  faults      : list bool;
  conn_closed : bool
}.

Inductive send_error : Type :=
| MarshallingFrame (e : codec_error)
| WriteFailed.

(** [Codec.WriteFrame]. *)
Definition WriteFrame (c : Conn) (f : Frame) : result send_error unit * Conn :=
  match MarshalFrame f with
  | Err e => (Err (MarshallingFrame e), c)
  | Ok data =>
      if conn_closed c then (Err WriteFailed, c)
      else
        match faults c with
        | true :: fs =>
            (Err WriteFailed,
             {| written := written c; faults := fs; conn_closed := false |})
        | false :: fs =>
            (Ok (),
             {| written := written c ++ [data]; faults := fs; conn_closed := false |})
        | [] =>
            (Ok (),
             {| written := written c ++ [data]; faults := []; conn_closed := false |})
        end
  end.

(** [Tunnel]: [streams] maps a stream id to the (pointer of the) response
    channel; [done] is set once [close(t.done)] has run. *)
Record Tunnel : Type := mkTunnel {
  id      : string;
  codec   : Conn;
  streams : gmap Z nat;
  done    : bool
}.

Definition set_codec (t : Tunnel) (c : Conn) : Tunnel :=
  {| id := id t; codec := c; streams := streams t; done := done t |}.

Definition set_streams (t : Tunnel) (s : gmap Z nat) : Tunnel :=
  {| id := id t; codec := codec t; streams := s; done := done t |}.

(** The channel heap, with the allocation counter of [make]. *)
Record Chans : Type := mkChans {
  heap      : gmap nat Chan;
  next_chan : nat
}.

Definition make_chan (cs : Chans) : nat * Chans :=
  (next_chan cs,
   {| heap := <[next_chan cs := mkChan [] false]> (heap cs);
      next_chan := S (next_chan cs) |}).

(** [close(ch)]. *)
Definition close_chan (ch : nat) (cs : Chans) : Chans :=
  {| heap := alter (fun c => mkChan (queue c) true) ch (heap cs);
     next_chan := next_chan cs |}.

(** [ch <- frame] on a channel with room. *)
Definition enqueue (ch : nat) (f : Frame) (cs : Chans) : Chans :=
  {| heap := alter (fun c => mkChan (queue c ++ [f]) (closed c)) ch (heap cs);
     next_chan := next_chan cs |}.

Definition is_full (ch : nat) (cs : Chans) : bool :=
  match heap cs !! ch with
  | Some c => chan_capacity <=? len (queue c)
  | None => false
  end.

(** [_remove_stream]: the channel of the stream, if registered, is closed
    and its entry deleted. *)
Definition _remove_stream (t : Tunnel) (cs : Chans) (streamID : Z) : Tunnel * Chans :=
  match streams t !! streamID with
  | Some ch => (set_streams t (delete streamID (streams t)), close_chan ch cs)
  | None => (t, cs)
  end.

(** [SendRequest]: the channel is registered under the stream id of the
    frame before the frame is written, and unregistered when the write
    fails. *)
Definition SendRequest (t : Tunnel) (cs : Chans) (f : Frame)
  : result send_error nat * Tunnel * Chans :=
  let '(ch, cs1) := make_chan cs in
  let t1 := set_streams t (<[StreamID f := ch]> (streams t)) in
  match WriteFrame (codec t1) f with
  | (Err e, c) =>
      let '(t2, cs2) := _remove_stream (set_codec t1 c) cs1 (StreamID f) in
      (Err e, t2, cs2)
  | (Ok _, c) => (Ok ch, set_codec t1 c, cs1)
  end.

(** [SendFrame]: a write without registration. *)
Definition SendFrame (t : Tunnel) (f : Frame) : result send_error unit * Tunnel :=
  let '(r, c) := WriteFrame (codec t) f in (r, set_codec t c).

(** [Close]: guarded by [closeOnce]; closes [done], the codec and every
    registered channel, and empties the registry. *)
Definition Close (t : Tunnel) (cs : Chans) : Tunnel * Chans :=
  if done t then (t, cs)
  else
    ({| id := id t;
        codec := {| written := written (codec t); faults := faults (codec t);
                    conn_closed := true |};
        streams := ∅;
        done := true |},
     map_fold (fun _ ch acc => close_chan ch acc) cs (streams t)).

(** What one turn of a loop leaves to do. *)
Inductive loop_step : Type :=
| Continue      (* next iteration *)
| Return        (* the loop returns: the deferred [Close] has run *)
| Blocked.      (* the turn cannot complete: the channel is full *)

(** Log lines of the relay tunnel. *)
Definition log_unexpected : string := "unexpected frame type from agent".
Definition log_read_error : string := "tunnel read error".
Definition log_ping_failed : string := "tunnel ping failed".

(** One turn of [_read_loop] after [ReadFrame] has returned [frame]: the
    dispatch on the frame type.  The result lists the log lines written. *)
Definition _read_loop_dispatch (t : Tunnel) (cs : Chans) (frame : Frame)
  : loop_step * Tunnel * Chans * list string :=
  if Type_ frame =? TypePong then (Continue, t, cs, [])
  else if (Type_ frame =? TypeHTTPResponse) || (Type_ frame =? TypeBodyChunk)
          || (Type_ frame =? TypeStreamClose) then
    match streams t !! StreamID frame with
    | Some ch =>
        if done t then
          let '(t', cs') := Close t cs in (Return, t', cs', [])
        else if is_full ch cs then (Blocked, t, cs, [])
        else
          let cs1 := enqueue ch frame cs in
          if Type_ frame =? TypeStreamClose then
            let '(t2, cs2) := _remove_stream t cs1 (StreamID frame) in
            (Continue, t2, cs2, [])
          else (Continue, t, cs1, [])
    | None => (Continue, t, cs, [])
    end
  else (Continue, t, cs, [log_unexpected]).

(** The turn of [_read_loop] in which [ReadFrame] fails. *)
Definition _read_loop_error (t : Tunnel) (cs : Chans)
  : loop_step * Tunnel * Chans * list string :=
  let '(t', cs') := Close t cs in
  (Return, t', cs', if done t then [] else [log_read_error]).

(** One tick of [_ping_loop]. *)
Definition _ping_loop_tick (t : Tunnel) (cs : Chans)
  : loop_step * Tunnel * Chans * list string :=
  match WriteFrame (codec t) (mkFrame TypePing 0 []) with
  | (Err _, c) =>
      let '(t', cs') := Close (set_codec t c) cs in
      (Return, t', cs', [log_ping_failed])
  | (Ok _, c) => (Continue, set_codec t c, cs, [])
  end.

End RelayTunnel.

(** ** internal/protocol: reading a frame from the websocket *)

Module Codec.
Import Protocol.

(** The websocket message types. *)
Definition TextMessage : Z := 1.
Definition BinaryMessage : Z := 2.

Inductive read_error : Type :=
| ReadingMessage                      (* "reading websocket message" *)
| UnexpectedMessageType (msgType : Z) (* "unexpected websocket message type" *)
| BadFrame (e : codec_error).

(** [Codec.ReadFrame]; [msg] is what [conn.ReadMessage] returns: the
    message type and the data, or nothing when the read fails. *)
Definition ReadFrame (msg : option (Z * list byte)) : result read_error Frame :=
  match msg with
  | None => Err ReadingMessage
  | Some (msgType, data) =>
      if negb (msgType =? BinaryMessage) then Err (UnexpectedMessageType msgType)
      else match UnmarshalFrame data with
           | Ok f => Ok f
           | Err e => Err (BadFrame e)
           end
  end.

(** The stream ids of [n] successive calls of [NextStreamID], the counter
    being [c] before the first. *)
Fixpoint stream_ids (n : nat) (c : Z) : list Z :=
  match n with
  | O => []
  | S n' => let '(streamID, c') := NextStreamID c in streamID :: stream_ids n' c'
  end.

End Codec.

(** ** internal/relay: the request handler *)

Module RelayHandler.
Import Protocol RelayPool RelayTunnel.

(** The serialised form of a request sent through the tunnel. *)
Record TunnelledRequest : Type := mkTunnelledRequest {
  Method  : string;
  URL     : string;
  Headers : gmap string string;
  Body    : list byte
}.

(** The serialised form of a response received through the tunnel. *)
Record TunnelledResponse : Type := mkTunnelledResponse {
  StatusCode   : Z;
  resp_Headers : gmap string string;
  resp_Body    : list byte
}.

(** What the handler needs of an [http.Request]: [r_Body] is [None] for a
    nil body and otherwise the result of [io.ReadAll]. *)
Record Request : Type := mkRequest {
  r_Method : string;
  r_URL    : string;
  r_Header : gmap string (list string);
  r_Body   : option (result unit (list byte))
}.

(** What the handler does to the [http.ResponseWriter]: either
    [http.Error(w, msg, code)], or headers set from a map, [WriteHeader]
    and [Write] of a body, or headers set and then a [WriteHeader] that
    panics: net/http refuses a status code that has not three digits, the
    handler is left at that call and nothing has been written. *)
Inductive http_response : Type :=
| HttpError (msg : string) (code : Z)
| HttpWritten (status : Z) (headers : gmap string string) (body : list byte)
| HttpPanic (status : Z).   (* "invalid WriteHeader code" *)

(** The check of [WriteHeader] in net/http: it panics when this holds. *)
Definition invalid_WriteHeader_code (code : Z) : bool := (code <? 100) || (code >? 999).

Definition StatusBadGateway : Z := 502.
Definition StatusGatewayTimeout : Z := 504.
Definition StatusInternalServerError : Z := 500.

(** What one execution of the [select] of [_collect_response] yields: a
    frame received from the channel, the channel found closed, or the
    timer. *)
Inductive select_outcome : Type :=
| RecvFrame (frame : Frame)
| RecvClosed
| TimerFired.

(** The state the handler works on: the pool, the tunnels it points to,
    the channels, the process wide stream counter and the log. *)
Record World : Type := mkWorld {
  pool            : Pool nat;
  tunnel_heap     : gmap nat Tunnel;
  chans           : Chans;
  _stream_counter : Z;
  log             : list string
}.

Definition _build_tunnelled_request (r : Request) : result unit TunnelledRequest :=
  match r_Body r with
  | Some (Err e) => Err e
  | body =>
      Ok {| Method := r_Method r;
            URL := r_URL r;
            Headers := omap head (r_Header r);
            Body := match body with Some (Ok b) => b | _ => [] end |}
  end.

(** The loop of [_chunk_payload] from offset [i] on, [frames] being the
    frames appended so far; every turn advances [i] by [MaxPayloadSize],
    so [fuel] turns are enough when [fuel] is the payload length. *)
Fixpoint _chunk_loop (fuel : nat) (streamID firstType : Z) (payload : list byte)
         (i : Z) (frames : list Frame) : list Frame :=
  match fuel with
  | O => frames
  | S fuel' =>
      if i <? len payload then
        let end_ := if i + MaxPayloadSize >? len payload then len payload
                    else i + MaxPayloadSize in
        let msgType := if i =? 0 then firstType else TypeBodyChunk in
        _chunk_loop fuel' streamID firstType payload (i + MaxPayloadSize)
          (frames ++ [{| Type_ := msgType; StreamID := streamID;
                         Payload := slice (Z.to_nat i) (Z.to_nat end_) payload |}])
      else frames
  end.

Definition _chunk_payload (streamID firstType : Z) (payload : list byte) : list Frame :=
  if len payload <=? MaxPayloadSize then
    [{| Type_ := firstType; StreamID := streamID; Payload := payload |}]
  else _chunk_loop (length payload) streamID firstType payload 0 [].

Section Handler.
(** [encoding/json] on the two tunnelled forms. *)
Variable json_Marshal : TunnelledRequest -> option (list byte).
Variable json_Unmarshal : list byte -> option TunnelledResponse.

(** [_write_response]; the status code goes to [WriteHeader] as it was
    deserialised. *)
Definition _write_response (data : list byte) : http_response :=
  if len data =? 0 then HttpError "empty response from backend" StatusBadGateway
  else
    match json_Unmarshal data with
    | None => HttpError "invalid response from backend" StatusBadGateway
    | Some resp =>
        if invalid_WriteHeader_code (StatusCode resp) then HttpPanic (StatusCode resp)
        else HttpWritten (StatusCode resp) (resp_Headers resp) (resp_Body resp)
    end.

(** [_collect_response]: one turn of the loop for each outcome of the
    [select] over the response channel and the timer; [None] when the
    outcomes end before the loop returns. *)
Fixpoint _collect_response (outcomes : list select_outcome) (responseData : list byte)
  : option http_response :=
  match outcomes with
  | [] => None
  | RecvClosed :: _ =>
      if len responseData =? 0
      then Some (HttpError "tunnel closed" StatusBadGateway)
      else Some (_write_response responseData)
  | RecvFrame frame :: rest =>
      if Type_ frame =? TypeHTTPResponse
      then _collect_response rest (responseData ++ Payload frame)
      else if Type_ frame =? TypeBodyChunk
      then _collect_response rest (responseData ++ Payload frame)
      else if Type_ frame =? TypeStreamClose
      then Some (_write_response responseData)
      else _collect_response rest responseData
  | TimerFired :: _ =>
      Some (HttpError "request timed out" StatusGatewayTimeout)
  end.

(** Which send of the loop of [ServeHTTP] failed. *)
Inductive send_failure : Type :=
| RequestFailed (e : send_error)      (* "failed to send request" *)
| BodyChunkFailed (e : send_error).   (* "failed to send body chunk" *)

Definition log_of_failure (e : send_failure) : string :=
  match e with
  | RequestFailed _ => "failed to send request"
  | BodyChunkFailed _ => "failed to send body chunk"
  end.

(** The loop of [ServeHTTP] that sends the request frames: frame 0 through
    [SendRequest], which yields the response channel, the others through
    [SendFrame]; it stops at the first failure. *)
Fixpoint _send_frames (i : nat) (frames : list Frame) (t : Tunnel) (cs : Chans)
         (responseCh : option nat) : result send_failure (option nat) * Tunnel * Chans :=
  match frames with
  | [] => (Ok responseCh, t, cs)
  | f :: rest =>
      match i with
      | O =>
          match SendRequest t cs f with
          | (Err e, t', cs') => (Err (RequestFailed e), t', cs')
          | (Ok ch, t', cs') => _send_frames (S i) rest t' cs' (Some ch)
          end
      | S _ =>
          match SendFrame t f with
          | (Err e, t') => (Err (BodyChunkFailed e), t', cs)
          | (Ok _, t') => _send_frames (S i) rest t' cs responseCh
          end
      end
  end.

Definition with_pool (w : World) (p : Pool nat) : World :=
  {| pool := p; tunnel_heap := tunnel_heap w; chans := chans w;
     _stream_counter := _stream_counter w; log := log w |}.

Definition with_stream_counter (w : World) (c : Z) : World :=
  {| pool := pool w; tunnel_heap := tunnel_heap w; chans := chans w;
     _stream_counter := c; log := log w |}.

Definition with_tunnel (w : World) (ptr : nat) (t : Tunnel) (cs : Chans) : World :=
  {| pool := pool w; tunnel_heap := <[ptr := t]> (tunnel_heap w); chans := cs;
     _stream_counter := _stream_counter w; log := log w |}.

Definition with_log (w : World) (line : string) : World :=
  {| pool := pool w; tunnel_heap := tunnel_heap w; chans := chans w;
     _stream_counter := _stream_counter w; log := log w ++ [line] |}.

(** [ServeHTTP].  [outcomes] are the outcomes of the [select]s of the
    collection phase.  The result is what was written to the response
    writer ([None]: the handler is still waiting) and the state left. *)
Definition ServeHTTP (w : World) (r : Request) (outcomes : list select_outcome)
  : option http_response * World :=
  match Get (pool w) with
  | (Err _, p) =>
      (Some (HttpError "no backend agents connected" StatusBadGateway),
       with_log (with_pool w p) "no agent available")
  | (Ok ptr, p) =>
      let w := with_pool w p in
      match _build_tunnelled_request r with
      | Err _ =>
          (Some (HttpError "internal error" StatusInternalServerError),
           with_log w "failed to build tunnelled request")
      | Ok req =>
          match json_Marshal req with
          | None =>
              (Some (HttpError "internal error" StatusInternalServerError),
               with_log w "failed to marshal request")
          | Some payload =>
              let '(streamID, c) := NextStreamID (_stream_counter w) in
              let w := with_stream_counter w c in
              let frames := _chunk_payload streamID TypeHTTPRequest payload in
              match tunnel_heap w !! ptr with
              | None => (None, w)   (* a pool entry is never a dangling pointer *)
              | Some t =>
                  match _send_frames 0 frames t (chans w) None with
                  | (Err e, t', cs') =>
                      (Some (HttpError "tunnel error" StatusBadGateway),
                       with_log (with_tunnel w ptr t' cs') (log_of_failure e))
                  | (Ok _, t', cs') =>
                      let '(sent, t'') :=
                        SendFrame t' {| Type_ := TypeStreamClose;
                                        StreamID := streamID; Payload := [] |} in
                      let w := with_tunnel w ptr t'' cs' in
                      let w := match sent with
                               | Err _ => with_log w "failed to send stream close"
                               | Ok _ => w
                               end in
                      (_collect_response outcomes [], w)
                  end
              end
          end
      end
  end.

End Handler.

End RelayHandler.

(** ** internal/agent: the agent side of a tunnel *)

Module AgentTunnel.
Import Protocol.

(** The agent writes through the same codec as the relay. *)
Definition Conn : Type := RelayTunnel.Conn.
Definition WriteFrame : Conn -> Frame -> result RelayTunnel.send_error unit * Conn :=
  RelayTunnel.WriteFrame.

(** The loop of [_response_frames] from offset [i] on. *)
Fixpoint _response_loop (fuel : nat) (streamID : Z) (data : list byte)
         (i : Z) (frames : list Frame) : list Frame :=
  match fuel with
  | O => frames
  | S fuel' =>
      if i <? len data then
        let end_ := if i + MaxPayloadSize >? len data then len data
                    else i + MaxPayloadSize in
        let msgType := if i =? 0 then TypeHTTPResponse else TypeBodyChunk in
        _response_loop fuel' streamID data (i + MaxPayloadSize)
          (frames ++ [{| Type_ := msgType; StreamID := streamID;
                         Payload := slice (Z.to_nat i) (Z.to_nat end_) data |}])
      else frames
  end.

Definition _response_frames (streamID : Z) (data : list byte) : list Frame :=
  if len data <=? MaxPayloadSize then
    [{| Type_ := TypeHTTPResponse; StreamID := streamID; Payload := data |}]
  else _response_loop (length data) streamID data 0 [].

(** The state of the agent's [_read_loop]: the connection and the partial
    request data collected per stream. *)
Record LoopState : Type := mkLoopState {
  codec   : Conn;
  streams : gmap Z (list byte)
}.

(** What a turn of the agent's [_read_loop] does besides updating its
    state: nothing, the hand-over of a complete request to
    [_handle_request] on a new goroutine, a log line, or the return of the
    loop with an error. *)
Inductive turn : Type :=
| Next
| Spawn (streamID : Z) (requestData : list byte)
| Warn (line : string)
| ReturnError (e : string).

(** One turn of the agent's [_read_loop] after [ReadFrame] has returned
    [frame]. *)
Definition _read_loop_dispatch (s : LoopState) (frame : Frame) : turn * LoopState :=
  if Type_ frame =? TypePing then
    match WriteFrame (codec s) (mkFrame TypePong 0 []) with
    | (Err _, c) => (ReturnError "sending pong", mkLoopState c (streams s))
    | (Ok _, c) => (Next, mkLoopState c (streams s))
    end
  else if (Type_ frame =? TypeHTTPRequest) || (Type_ frame =? TypeBodyChunk) then
    (Next,
     mkLoopState (codec s)
       (<[StreamID frame := default [] (streams s !! StreamID frame) ++ Payload frame]>
          (streams s)))
  else if Type_ frame =? TypeStreamClose then
    match streams s !! StreamID frame with
    | Some data =>
        (Spawn (StreamID frame) data,
         mkLoopState (codec s) (delete (StreamID frame) (streams s)))
    | None => (Next, s)
    end
  else (Warn "unexpected frame type from relay", s).

End AgentTunnel.

(** ** internal/agent: the read loop as a whole, and request handling *)

Module AgentLoop.
Import Protocol RelayTunnel RelayHandler AgentTunnel.

(** The agent's [_read_loop] on the frames that [ReadFrame] returns one
    after the other: the turns taken, until the loop returns or the frames
    end. *)
Fixpoint _read_loop (s : LoopState) (frames : list Frame) : list turn * LoopState :=
  match frames with
  | [] => ([], s)
  | frame :: rest =>
      match _read_loop_dispatch s frame with
      | (ReturnError e, s') => ([ReturnError e], s')
      | (step, s') => let '(steps, s'') := _read_loop s' rest in (step :: steps, s'')
      end
  end.

(** The loop over the response frames in [_handle_request]: it stops at
    the first write that fails. *)
Fixpoint write_frames (c : Conn) (frames : list Frame) : result send_error unit * Conn :=
  match frames with
  | [] => (Ok (), c)
  | f :: rest =>
      match WriteFrame c f with
      | (Err e, c') => (Err e, c')
      | (Ok _, c') => write_frames c' rest
      end
  end.

Section Handling.
(** [json.Marshal] on a tunnelled response. *)
Variable json_Marshal : TunnelledResponse -> option (list byte).

(** [_error_response]: the error of [json.Marshal] is dropped, the data
    is then nil. *)
Definition _error_response (status : Z) (msg : string) : list byte :=
  match json_Marshal {| StatusCode := status;
                        resp_Headers := {[ "Content-Type"%string := "text/plain"%string ]};
                        resp_Body := list_byte_of_string msg |} with
  | Some data => data
  | None => []
  end.

(** [_handle_request]; [handled] is what [HandleRequest] returned for the
    request data, the error as its text.  The result is the connection and
    the lines logged. *)
Definition _handle_request (c : Conn) (streamID : Z)
           (handled : result string (list byte)) : Conn * list string :=
  let '(responseData, log0) :=
    match handled with
    | Ok data => (data, [])
    | Err e => (_error_response 502 ("backend error: " ++ e)%string,
                ["failed to handle request"%string])
    end in
  match write_frames c (_response_frames streamID responseData) with
  | (Err _, c') => (c', log0 ++ ["failed to send response frame"%string])
  | (Ok _, c') =>
      match WriteFrame c' {| Type_ := TypeStreamClose; StreamID := streamID;
                             Payload := [] |} with
      | (Err _, c'') => (c'', log0 ++ ["failed to send stream close"%string])
      | (Ok _, c'') => (c'', log0)
      end
  end.

End Handling.

End AgentLoop.

(** ** internal/agent: reconnection and proxy checks *)

Module AgentSupervisor.

(** What ends one turn of [_reconnect_loop]: the tunnel is gone and the
    wait for the delay elapses, or the context is cancelled, while the
    tunnel runs or during the wait. *)
Inductive attempt : Type :=
| Disconnected
| CancelledRunning
| CancelledWaiting.

(** [_reconnect_loop], from the delay [delay] on; durations are [int64]
    nanoseconds.  The result lists the delays announced ("tunnel
    disconnected, reconnecting") and tells whether the loop has returned. *)
Fixpoint _reconnect_loop (MaxReconnectDelay delay : Z) (attempts : list attempt)
  : list Z * bool :=
  match attempts with
  | [] => ([], false)
  | CancelledRunning :: _ => ([], true)
  | CancelledWaiting :: _ => ([delay], true)
  | Disconnected :: rest =>
      let doubled := RelayAuth.int64 (delay * 2) in
      let next := if doubled >? MaxReconnectDelay then MaxReconnectDelay else doubled in
      let '(delays, returned) := _reconnect_loop MaxReconnectDelay next rest in
      (delay :: delays, returned)
  end.

Inductive verify_error : Type :=
| GettingDirectIP (e : string)
| GettingProxiedIP (e : string)
| ProxyNotRouting (ip : string).

(** [Verifier.VerifyRouting]; [direct] and [proxied] are what
    [_get_direct_ip] and [_get_proxied_ip] return. *)
Definition VerifyRouting (direct proxied : result string string)
  : result verify_error unit :=
  match direct with
  | Err e => Err (GettingDirectIP e)
  | Ok directIP =>
      match proxied with
      | Err e => Err (GettingProxiedIP e)
      | Ok proxiedIP =>
          if String.eqb directIP proxiedIP then Err (ProxyNotRouting directIP)
          else Ok ()
      end
  end.




(** The part of the configuration that [Agent.Run] reads. *)
Record Config : Type := mkConfig {
  ProxyURL          : string;
  VerifyRouting_    : bool;
  ReconnectDelay    : Z;
  MaxReconnectDelay : Z
}.

(** [Agent.Run] for an agent that [New] made from [cfg]: the dialer is
    set exactly when the proxy URL is not empty.  The result is the error
    of the verification, or what the reconnect loop does. *)
Definition Run (cfg : Config) (direct proxied : result string string)
           (attempts : list attempt) : result verify_error (list Z * bool) :=
  let has_dialer := negb (String.eqb (ProxyURL cfg) "") in
  if has_dialer && VerifyRouting_ cfg then
    match VerifyRouting direct proxied with
    | Err e => Err e
    | Ok _ => Ok (_reconnect_loop (MaxReconnectDelay cfg) (ReconnectDelay cfg) attempts)
    end
  else Ok (_reconnect_loop (MaxReconnectDelay cfg) (ReconnectDelay cfg) attempts).

End AgentSupervisor.

(** ** internal/relay: the upgrade endpoint *)

Module RelayServer.
Import Protocol RelayPool RelayTunnel RelayHandler RelayAuth.

(** What [_handle_tunnel] reads of the upgrade request: the value of the
    [token] query parameter and of the [X-Auth-Token] header (empty when
    absent) and the remote address. *)
Record UpgradeRequest : Type := mkUpgradeRequest {
  query_token  : string;
  header_token : string;
  RemoteAddr   : string
}.

Inductive upgrade_outcome : Type :=
| Unauthorised (e : token_error)   (* 401 "unauthorised" *)
| UpgradeFailed                    (* the upgrader has answered *)
| AgentConnected (ptr : nat).

(** [NewTunnel]: the tunnel whose two loops are started. *)
Definition NewTunnel (tunnelID : string) (conn : Conn) : Tunnel :=
  {| id := tunnelID; codec := conn; streams := ∅; done := false |}.

(** The address of a new tunnel: one that no tunnel has. *)
Definition new_ptr (m : gmap nat Tunnel) : nat :=
  map_fold (fun k _ acc => Nat.max (S k) acc) 0%nat m.

(** [Server._handle_tunnel]; [now] is the time [ValidateToken] reads and
    [upgrade] the connection the upgrader returns, if it succeeds. *)
Definition _handle_tunnel (secret : string) (now : Z) (w : World)
           (r : UpgradeRequest) (upgrade : option Conn) : upgrade_outcome * World :=
  let token := if String.eqb (query_token r) "" then header_token r
               else query_token r in
  match ValidateToken now secret token with
  | Err e => (Unauthorised e, with_log w "agent auth failed")
  | Ok _ =>
      match upgrade with
      | None => (UpgradeFailed, with_log w "websocket upgrade failed")
      | Some conn =>
          let tunnelID := ("agent-" ++ RemoteAddr r)%string in
          let ptr := new_ptr (tunnel_heap w) in
          (AgentConnected ptr,
           {| pool := Add (pool w) ptr;
              tunnel_heap := <[ptr := NewTunnel tunnelID conn]> (tunnel_heap w);
              chans := chans w;
              _stream_counter := _stream_counter w;
              log := log w ++ ["agent connected"%string;
                               "agent added to pool"%string] |})
      end
  end.

(** [Tunnel.Close] on the tunnel at [ptr]. *)
Definition close_tunnel (w : World) (ptr : nat) : World :=
  match tunnel_heap w !! ptr with
  | Some t =>
      let '(t', cs') := Close t (chans w) in
      {| pool := pool w;
         tunnel_heap := <[ptr := t']> (tunnel_heap w);
         chans := cs';
         _stream_counter := _stream_counter w;
         log := log w ++ (if done t then [] else ["tunnel closed"%string]) |}
  | None => w
  end.

(** The goroutine that [Pool.Add] starts for the tunnel at [ptr]: it
    waits for [Done] ([None]: still blocked) and then calls [Remove]. *)
Definition pool_watcher (w : World) (ptr : nat) : option World :=
  match tunnel_heap w !! ptr with
  | Some t =>
      if done t then
        Some {| pool := Remove (pool w) ptr;
                tunnel_heap := tunnel_heap w;
                chans := chans w;
                _stream_counter := _stream_counter w;
                log := log w ++ (if bool_decide (ptr ∈ tunnels (pool w))
                                 then ["agent removed from pool"%string] else []) |}
      else None
  | None => None
  end.

(** The relay when [NewServer] has returned at start-up: the pool is
    empty and no tunnel exists. *)
Definition NewServer : World :=
  {| pool := NewPool; tunnel_heap := ∅; chans := {| heap := ∅; next_chan := 0 |};
     _stream_counter := 0; log := [] |}.

End RelayServer.
(** * Part II: properties *)

(** ** Facts about bytes and big-endian words *)

Module BytesFacts.
Import Bytes.

Lemma Z_of_byte_range (b : byte) : 0 <= Z_of_byte b < 256.
Proof.
  unfold Z_of_byte. pose proof (Byte.to_N_bounded b) as H.
  split; [apply N2Z.is_nonneg|].
  change 256 with (Z.of_N 256). apply N2Z.inj_lt. lia.
Qed.

Lemma byte_of_Z_of_byte (b : byte) : byte_of_Z (Z_of_byte b) = b.
Proof.
  unfold byte_of_Z. rewrite Z.mod_small by apply Z_of_byte_range.
  unfold Z_of_byte. rewrite N2Z.id, Byte.of_to_N. reflexivity.
Qed.

Lemma Z_of_byte_of_Z (z : Z) : Z_of_byte (byte_of_Z z) = z mod 256.
Proof.
  unfold byte_of_Z.
  assert (Hr : 0 <= z mod 256 < 256) by (apply Z.mod_pos_bound; lia).
  destruct (Byte.of_N (Z.to_N (z mod 256))) as [b|] eqn:E.
  - apply Byte.to_of_N in E. unfold Z_of_byte. rewrite E.
    rewrite Z2N.id; lia.
  - apply Byte.of_N_None_iff in E. lia.
Qed.

Lemma lor_mul_low (a b n : Z) :
  0 <= n -> 0 <= b < 2 ^ n -> Z.lor (a * 2 ^ n) b = a * 2 ^ n + b.
Proof.
  intros Hn Hb.
  assert (Hland : Z.land (a * 2 ^ n) b = 0).
  { apply Z.bits_inj'. intros k Hk. rewrite Z.land_spec, Z.bits_0.
    destruct (Z.lt_ge_cases k n) as [Hlt|Hge].
    - rewrite Z.mul_pow2_bits_low by lia. reflexivity.
    - destruct (Z.eq_dec b 0) as [->|Hb0].
      + rewrite Z.bits_0. apply andb_false_r.
      + rewrite (Z.bits_above_log2 b k); [apply andb_false_r|lia|].
        assert (Z.log2 b < n) by (apply Z.log2_lt_pow2; lia). lia. }
  rewrite <- Z.lxor_lor by exact Hland.
  symmetry. apply Z.add_nocarry_lxor. exact Hland.
Qed.

Lemma Uint32_bytes (b0 b1 b2 b3 : byte) :
  Uint32 [b0; b1; b2; b3] =
  Z_of_byte b0 * 2 ^ 24 + Z_of_byte b1 * 2 ^ 16 + Z_of_byte b2 * 2 ^ 8
  + Z_of_byte b3.
Proof.
  pose proof (Z_of_byte_range b0). pose proof (Z_of_byte_range b1).
  pose proof (Z_of_byte_range b2). pose proof (Z_of_byte_range b3).
  unfold Uint32. rewrite !Z.shiftl_mul_pow2 by lia.
  rewrite (lor_mul_low (Z_of_byte b0) _ 24) by lia.
  replace (Z_of_byte b0 * 2 ^ 24 + Z_of_byte b1 * 2 ^ 16)
    with ((Z_of_byte b0 * 2 ^ 8 + Z_of_byte b1) * 2 ^ 16) by lia.
  rewrite (lor_mul_low _ (Z_of_byte b2 * 2 ^ 8) 16) by lia.
  replace ((Z_of_byte b0 * 2 ^ 8 + Z_of_byte b1) * 2 ^ 16 + Z_of_byte b2 * 2 ^ 8)
    with ((Z_of_byte b0 * 2 ^ 16 + Z_of_byte b1 * 2 ^ 8 + Z_of_byte b2) * 2 ^ 8) by lia.
  rewrite (lor_mul_low _ (Z_of_byte b3) 8) by lia.
  lia.
Qed.

Lemma Uint32_range (b0 b1 b2 b3 : byte) : 0 <= Uint32 [b0; b1; b2; b3] < 2 ^ 32.
Proof.
  rewrite Uint32_bytes.
  pose proof (Z_of_byte_range b0). pose proof (Z_of_byte_range b1).
  pose proof (Z_of_byte_range b2). pose proof (Z_of_byte_range b3).
  lia.
Qed.

Lemma Uint32_PutUint32 (v : Z) : 0 <= v < 2 ^ 32 -> Uint32 (PutUint32 v) = v.
Proof.
  intros Hv. unfold PutUint32. rewrite Uint32_bytes.
  rewrite !Z_of_byte_of_Z, !Z.shiftr_div_pow2 by lia.
  change (2 ^ 24) with 16777216. change (2 ^ 16) with 65536.
  change (2 ^ 8) with 256. change (2 ^ 32) with 4294967296 in Hv.
  pose proof (Z.div_mod v 256 ltac:(lia)).
  pose proof (Z.div_mod (v / 256) 256 ltac:(lia)).
  pose proof (Z.div_mod (v / 256 / 256) 256 ltac:(lia)).
  pose proof (Z.mod_pos_bound v 256 ltac:(lia)).
  pose proof (Z.mod_pos_bound (v / 256) 256 ltac:(lia)).
  pose proof (Z.mod_pos_bound (v / 256 / 256) 256 ltac:(lia)).
  replace (v / 65536) with (v / 256 / 256)
    by (rewrite Z.div_div by lia; reflexivity).
  replace (v / 16777216) with (v / 256 / 256 / 256)
    by (rewrite !Z.div_div by lia; reflexivity).
  assert (0 <= v / 256 / 256 / 256 < 256).
  { rewrite !Z.div_div by lia. change (256 * 256 * 256) with 16777216.
    split; [apply Z.div_pos; lia|apply Z.div_lt_upper_bound; lia]. }
  rewrite (Z.mod_small (v / 256 / 256 / 256)) by lia.
  lia.
Qed.

End BytesFacts.

(** ** The frame codec *)

Module ProtocolFacts.
Import Bytes BytesFacts Protocol.

Lemma len_nonneg {A} (l : list A) : 0 <= len l.
Proof. unfold len. lia. Qed.

Lemma len_app {A} (l1 l2 : list A) : len (l1 ++ l2) = len l1 + len l2.
Proof. unfold len. rewrite length_app. lia. Qed.

Lemma encode_header_shape (f : Frame) :
  exists s0 s1 s2 s3 l0 l1 l2 l3,
    PutUint32 (StreamID f) = [s0; s1; s2; s3] /\
    PutUint32 (len (Payload f) mod 2 ^ 32) = [l0; l1; l2; l3] /\
    _encode_header f = [byte_of_Z (Type_ f); s0; s1; s2; s3; l0; l1; l2; l3].
Proof. unfold _encode_header, PutUint32. repeat eexists. Qed.

Lemma len_encode_header (f : Frame) : len (_encode_header f) = HeaderSize.
Proof. reflexivity. Qed.

(** A buffer of at least nine bytes, split into its header fields. *)
Lemma buffer_header (buf : list byte) :
  HeaderSize <= len buf ->
  exists t s0 s1 s2 s3 l0 l1 l2 l3 rest,
    buf = t :: s0 :: s1 :: s2 :: s3 :: l0 :: l1 :: l2 :: l3 :: rest.
Proof.
  unfold HeaderSize, len. intros H.
  do 9 (destruct buf as [|? buf]; [simpl in H; lia|]).
  repeat eexists.
Qed.

Lemma decode_header_cons t s0 s1 s2 s3 l0 l1 l2 l3 (rest : list byte) :
  _decode_header (t :: s0 :: s1 :: s2 :: s3 :: l0 :: l1 :: l2 :: l3 :: rest) =
  if Uint32 [l0; l1; l2; l3] >? MaxPayloadSize
  then Err (PayloadTooLarge (Uint32 [l0; l1; l2; l3]))
  else Ok (Z_of_byte t, Uint32 [s0; s1; s2; s3], Uint32 [l0; l1; l2; l3]).
Proof.
  unfold _decode_header.
  assert (Hlen : (len (t :: s0 :: s1 :: s2 :: s3 :: l0 :: l1 :: l2 :: l3 :: rest)
                  <? HeaderSize) = false).
  { apply Z.ltb_ge. unfold len, HeaderSize. simpl length. lia. }
  rewrite Hlen. reflexivity.
Qed.

Lemma unmarshal_cons_cases t s0 s1 s2 s3 l0 l1 l2 l3 (rest : list byte) :
  UnmarshalFrame (t :: s0 :: s1 :: s2 :: s3 :: l0 :: l1 :: l2 :: l3 :: rest) =
  let n := Uint32 [l0; l1; l2; l3] in
  if n >? MaxPayloadSize then Err (PayloadTooLarge n)
  else if len rest <? n
       then Err (DataTooShort (HeaderSize + len rest) (HeaderSize + n))
       else Ok {| Type_ := Z_of_byte t;
                  StreamID := Uint32 [s0; s1; s2; s3];
                  Payload := take (Z.to_nat n) rest |}.
Proof.
  unfold UnmarshalFrame. rewrite decode_header_cons. cbv zeta.
  pose proof (Uint32_range l0 l1 l2 l3) as Hr.
  set (n := Uint32 [l0; l1; l2; l3]) in *.
  destruct (n >? MaxPayloadSize); [reflexivity|].
  assert (Hlen : len (t :: s0 :: s1 :: s2 :: s3 :: l0 :: l1 :: l2 :: l3 :: rest)
                 = HeaderSize + len rest).
  { unfold len, HeaderSize. simpl length. lia. }
  rewrite Hlen.
  destruct (Z.ltb_spec (HeaderSize + len rest) (HeaderSize + n));
    destruct (Z.ltb_spec (len rest) n); try lia; [reflexivity|].
  f_equal. f_equal. unfold slice, HeaderSize.
  replace (Z.to_nat (9 + n) - Z.to_nat 9)%nat with (Z.to_nat n) by lia.
  reflexivity.
Qed.

Lemma unmarshal_cons t s0 s1 s2 s3 l0 l1 l2 l3 (rest : list byte) :
  Uint32 [l0; l1; l2; l3] <= MaxPayloadSize ->
  Uint32 [l0; l1; l2; l3] <= len rest ->
  UnmarshalFrame (t :: s0 :: s1 :: s2 :: s3 :: l0 :: l1 :: l2 :: l3 :: rest) =
  Ok {| Type_ := Z_of_byte t;
        StreamID := Uint32 [s0; s1; s2; s3];
        Payload := take (Z.to_nat (Uint32 [l0; l1; l2; l3])) rest |}.
Proof.
  intros Hmax Hlen. rewrite unmarshal_cons_cases. cbv zeta.
  destruct (Z.gtb_spec (Uint32 [l0; l1; l2; l3]) MaxPayloadSize); [lia|].
  destruct (Z.ltb_spec (len rest) (Uint32 [l0; l1; l2; l3])); [lia|reflexivity].
Qed.

Lemma unmarshal_marshal (f : Frame) :
  0 <= Type_ f < 256 -> 0 <= StreamID f < 2 ^ 32 ->
  len (Payload f) <= MaxPayloadSize ->
  UnmarshalFrame (_encode_header f ++ Payload f) = Ok f.
Proof.
  intros Ht Hs Hp.
  destruct (encode_header_shape f) as (s0&s1&s2&s3&l0&l1&l2&l3&Es&El&->).
  pose proof (len_nonneg (Payload f)) as Hn.
  assert (Hlenval : Uint32 [l0; l1; l2; l3] = len (Payload f)).
  { rewrite <- El. unfold MaxPayloadSize in Hp.
    rewrite Z.mod_small by lia. apply Uint32_PutUint32. lia. }
  simpl app. rewrite unmarshal_cons by lia.
  rewrite Hlenval, <- Es, Uint32_PutUint32 by lia.
  rewrite Z_of_byte_of_Z, Z.mod_small by lia.
  unfold len. rewrite Nat2Z.id, firstn_all. destruct f; reflexivity.
Qed.

(** C5 -- frame codec round trip: a frame whose type is one of 1..8, whose
    stream id is an unsigned 32-bit value and whose payload has at most
    65,536 bytes is marshalled without error, and unmarshalling the bytes
    gives back the same frame (type, stream id and payload bytes). *)
Theorem frame_round_trip (f : Frame) :
  1 <= Type_ f <= 8 ->
  0 <= StreamID f < 2 ^ 32 ->
  len (Payload f) <= 65536 ->
  exists buf, MarshalFrame f = Ok buf /\ UnmarshalFrame buf = Ok f.
Proof.
  intros Ht Hs Hp. exists (_encode_header f ++ Payload f). split.
  - unfold MarshalFrame.
    destruct (len (Payload f) >? MaxPayloadSize) eqn:E; [|reflexivity].
    apply Z.gtb_lt in E. unfold MaxPayloadSize in E. lia.
  - apply unmarshal_marshal; unfold MaxPayloadSize; lia.
Qed.

Lemma frame_round_trip_witness :
  exists buf,
    MarshalFrame (mkFrame TypeHTTPRequest 42 [x68; x69]) = Ok buf /\
    UnmarshalFrame buf = Ok (mkFrame TypeHTTPRequest 42 [x68; x69]).
Proof.
  apply (frame_round_trip (mkFrame TypeHTTPRequest 42 [x68; x69]));
    unfold TypeHTTPRequest, len; simpl; lia.
Defined.

(** C6 -- frame codec size limits: [MarshalFrame] fails exactly when the
    payload has more than 65,536 bytes; [UnmarshalFrame] fails on every
    buffer shorter than 9 bytes, on every buffer whose declared payload
    length exceeds 65,536, and on every buffer shorter than 9 bytes plus
    the declared payload length. *)
Theorem frame_size_limits :
  (forall f : Frame, is_err (MarshalFrame f) <-> len (Payload f) > 65536) /\
  (forall buf : list byte, len buf < 9 -> is_err (UnmarshalFrame buf)) /\
  (forall buf : list byte,
      declared_payload_len buf > 65536 -> is_err (UnmarshalFrame buf)) /\
  (forall buf : list byte,
      len buf < 9 + declared_payload_len buf -> is_err (UnmarshalFrame buf)).
Proof.
  assert (Hshort : forall buf : list byte, len buf < 9 -> is_err (UnmarshalFrame buf)).
  { intros buf H. unfold UnmarshalFrame, _decode_header.
    destruct (len buf <? HeaderSize) eqn:E; [exact I|].
    apply Z.ltb_ge in E. unfold HeaderSize in E. lia. }
  split; [|split; [exact Hshort|split]].
  - intros f. unfold MarshalFrame.
    destruct (len (Payload f) >? MaxPayloadSize) eqn:E; simpl.
    + apply Z.gtb_lt in E. unfold MaxPayloadSize in E. split; [lia|trivial].
    + split; [tauto|]. intros H.
      assert (len (Payload f) <= MaxPayloadSize); [|unfold MaxPayloadSize in *; lia].
      destruct (Z.gtb_spec (len (Payload f)) MaxPayloadSize); [discriminate|lia].
  - intros buf H.
    destruct (Z.lt_ge_cases (len buf) 9) as [Hlt|Hge]; [auto|].
    destruct (buffer_header buf Hge) as (t&s0&s1&s2&s3&l0&l1&l2&l3&rest&->).
    unfold UnmarshalFrame. rewrite decode_header_cons.
    change (declared_payload_len _) with (Uint32 [l0; l1; l2; l3]) in H.
    destruct (Uint32 [l0; l1; l2; l3] >? MaxPayloadSize) eqn:E; [exact I|].
    destruct (Z.gtb_spec (Uint32 [l0; l1; l2; l3]) MaxPayloadSize);
      [discriminate|unfold MaxPayloadSize in *; lia].
  - intros buf H.
    destruct (Z.lt_ge_cases (len buf) 9) as [Hlt|Hge]; [auto|].
    destruct (buffer_header buf Hge) as (t&s0&s1&s2&s3&l0&l1&l2&l3&rest&->).
    unfold UnmarshalFrame. rewrite decode_header_cons.
    change (declared_payload_len _) with (Uint32 [l0; l1; l2; l3]) in H.
    destruct (Uint32 [l0; l1; l2; l3] >? MaxPayloadSize) eqn:E; [exact I|].
    cbv zeta. unfold HeaderSize.
    destruct (Z.ltb_spec
                (len (t :: s0 :: s1 :: s2 :: s3 :: l0 :: l1 :: l2 :: l3 :: rest))
                (9 + Uint32 [l0; l1; l2; l3])); [exact I|lia].
Qed.

Lemma frame_size_limits_witness :
  is_err (MarshalFrame (mkFrame 1 1 (repeat x00 (Z.to_nat 65537)))) /\
  is_err (UnmarshalFrame [x01; x02]) /\
  is_err (UnmarshalFrame [x01; x00; x00; x00; x01; x00; x01; x00; x01]) /\
  is_err (UnmarshalFrame [x01; x00; x00; x00; x01; x00; x00; x00; x02; x41]).
Proof.
  destruct frame_size_limits as (Hm & Hs & Hbig & Htrunc).
  split; [|split; [|split]].
  - apply Hm. unfold len. cbn [Payload]. rewrite repeat_length. lia.
  - apply Hs. unfold len. simpl. lia.
  - apply Hbig. vm_compute. reflexivity.
  - apply Htrunc. vm_compute. reflexivity.
Defined.

(** C10 -- trailing bytes are tolerated: a buffer that is strictly longer
    than 9 bytes plus its declared payload length, the latter being at most
    65,536, unmarshals to the frame whose payload is exactly the declared
    number of bytes after the 9-byte header; and a buffer is never rejected
    for being too long: bytes appended to a buffer that unmarshals leave the
    result unchanged. *)
Theorem unmarshal_ignores_trailing_bytes :
  (forall buf : list byte,
      declared_payload_len buf <= 65536 ->
      len buf > 9 + declared_payload_len buf ->
      UnmarshalFrame buf =
      Ok {| Type_ := Z_of_byte (nth 0 buf x00);
            StreamID := Uint32 (slice 1 5 buf);
            Payload := take (Z.to_nat (declared_payload_len buf)) (drop 9 buf) |}) /\
  (forall (buf extra : list byte) (f : Frame),
      UnmarshalFrame buf = Ok f -> UnmarshalFrame (buf ++ extra) = Ok f).
Proof.
  split.
  - intros buf Hmax Hlen.
    assert (Hge : HeaderSize <= len buf).
    { destruct (Z.lt_ge_cases (len buf) 9) as [Hlt|Hge]; [|exact Hge].
      destruct (buffer_header (buf ++ repeat x00 9)) as (t&s0&s1&s2&s3&l0&l1&l2&l3&r&E).
      { rewrite len_app. unfold len at 2. rewrite repeat_length.
        pose proof (len_nonneg buf). unfold HeaderSize. lia. }
      assert (0 <= declared_payload_len buf); [|lia].
      unfold declared_payload_len.
      destruct (slice 5 9 buf) as [|a [|b [|c [|d [|e l]]]]]; simpl; try lia.
      apply Uint32_range. }
    destruct (buffer_header buf Hge) as (t&s0&s1&s2&s3&l0&l1&l2&l3&rest&->).
    change (declared_payload_len _) with (Uint32 [l0; l1; l2; l3]) in *.
    rewrite unmarshal_cons; [reflexivity|unfold MaxPayloadSize; lia|].
    unfold len in *. simpl length in Hlen. lia.
  - intros buf extra f H.
    destruct (Z.lt_ge_cases (len buf) HeaderSize) as [Hlt|Hge].
    { unfold UnmarshalFrame, _decode_header in H.
      apply Z.ltb_lt in Hlt. rewrite Hlt in H. discriminate. }
    destruct (buffer_header buf Hge) as (t&s0&s1&s2&s3&l0&l1&l2&l3&rest&->).
    change ((t :: s0 :: s1 :: s2 :: s3 :: l0 :: l1 :: l2 :: l3 :: rest) ++ extra)
      with (t :: s0 :: s1 :: s2 :: s3 :: l0 :: l1 :: l2 :: l3 :: (rest ++ extra)).
    rewrite unmarshal_cons_cases in *. cbv zeta in *.
    pose proof (Uint32_range l0 l1 l2 l3) as Hr.
    set (n := Uint32 [l0; l1; l2; l3]) in *.
    destruct (n >? MaxPayloadSize) eqn:E; [discriminate|].
    destruct (Z.ltb_spec (len rest) n) as [Hlt|Hle]; [discriminate|].
    injection H as <-.
    destruct (Z.ltb_spec (len (rest ++ extra)) n) as [Hlt'|Hle'].
    + rewrite len_app in Hlt'. pose proof (len_nonneg extra). lia.
    + rewrite take_app_le; [reflexivity|]. unfold len in Hle. lia.
Qed.

Lemma unmarshal_ignores_trailing_bytes_witness :
  UnmarshalFrame [x01; x00; x00; x00; x2a; x00; x00; x00; x01; x41; x42; x43] =
  Ok (mkFrame 1 42 [x41]) /\
  UnmarshalFrame ([x05; x00; x00; x00; x00; x00; x00; x00; x00] ++ [xff; xff]) =
  Ok (mkFrame 5 0 []).
Proof.
  destruct unmarshal_ignores_trailing_bytes as (H1 & H2). split.
  - apply (H1 [x01; x00; x00; x00; x2a; x00; x00; x00; x01; x41; x42; x43]).
    + vm_compute. discriminate.
    + vm_compute. reflexivity.
  - apply H2. vm_compute. reflexivity.
Defined.

End ProtocolFacts.

(** ** SHA-256 and HMAC: test vectors *)

Module ShaFacts.

(** The first and the last round constant, and the first and the last
    word of the initial hash value, as sha256block.go and sha256.go have
    them. *)
Example round_constants_ends :
  head Sha256._K = Some 0x428a2f98 /\ last Sha256._K = Some 0xc67178f2 /\
  length Sha256._K = 64%nat /\
  head Sha256.init = Some 0x6a09e667 /\ last Sha256.init = Some 0x5be0cd19.
Proof. vm_compute. repeat split. Qed.

(** SHA-256 of the empty message and of "abc" (FIPS 180-4 examples). *)
Example sha256_empty :
  Sha256.Sum256 [] =
  [xe3; xb0; xc4; x42; x98; xfc; x1c; x14; x9a; xfb; xf4; xc8; x99; x6f; xb9; x24;
   x27; xae; x41; xe4; x64; x9b; x93; x4c; xa4; x95; x99; x1b; x78; x52; xb8; x55].
Proof. vm_compute. reflexivity. Qed.

Example sha256_abc :
  Sha256.Sum256 [x61; x62; x63] =
  [xba; x78; x16; xbf; x8f; x01; xcf; xea; x41; x41; x40; xde; x5d; xae; x22; x23;
   xb0; x03; x61; xa3; x96; x17; x7a; x9c; xb4; x10; xff; x61; xf2; x00; x15; xad].
Proof. vm_compute. reflexivity. Qed.

(** SHA-256 of the 56-byte message of FIPS 180-4, which takes two blocks. *)
Example sha256_two_blocks :
  Sha256.Sum256 (list_byte_of_string
    "abcdbcdecdefdefgefghfghighijhijkijkljklmklmnlmnomnopnopq") =
  [x24; x8d; x6a; x61; xd2; x06; x38; xb8; xe5; xc0; x26; x93; x0c; x3e; x60; x39;
   xa3; x3c; xe4; x59; x64; xff; x21; x67; xf6; xec; xed; xd4; x19; xdb; x06; xc1].
Proof. vm_compute. reflexivity. Qed.

(** HMAC-SHA256, test case 1 of RFC 4231: key 20 bytes [0x0b], data
    "Hi There". *)
Example hmac_rfc4231_1 :
  Hmac.Sum (repeat x0b 20) (list_byte_of_string "Hi There") =
  [xb0; x34; x4c; x61; xd8; xdb; x38; x53; x5c; xa8; xaf; xce; xaf; x0b; xf1; x2b;
   x88; x1d; xc2; x00; xc9; x83; x3d; xa7; x26; xe9; x37; x6c; x2e; x32; xcf; xf7].
Proof. vm_compute. reflexivity. Qed.

(** HMAC-SHA256, test case 2 of RFC 4231: key "Jefe". *)
Example hmac_rfc4231_2 :
  Hmac.Sum (list_byte_of_string "Jefe")
           (list_byte_of_string "what do ya want for nothing?") =
  [x5b; xdc; xc1; x46; xbf; x60; x75; x4e; x6a; x04; x24; x26; x08; x95; x75; xc7;
   x5a; x00; x3f; x08; x9d; x27; x39; x83; x9d; xec; x58; xb9; x64; xec; x38; x43].
Proof. vm_compute. reflexivity. Qed.

(** HMAC-SHA256, test case 6 of RFC 4231: a key of 131 bytes, longer
    than the block, is hashed first. *)
Example hmac_rfc4231_6 :
  Hmac.Sum (repeat xaa 131)
           (list_byte_of_string
              "Test Using Larger Than Block-Size Key - Hash Key First") =
  [x60; xe4; x31; x59; x1e; xe0; xb6; x7f; x0d; x8a; x26; xaa; xcb; xf5; xb7; x7f;
   x8e; x0b; xc6; x21; x37; x28; xc5; x14; x05; x46; x04; x0f; x0e; xe3; x7f; x54].
Proof. vm_compute. reflexivity. Qed.

(** A key shorter than the block and the same key followed by zero bytes
    are the same HMAC key. *)
Lemma hmac_key_zero_padding (key msg : list byte) (n : nat) :
  (length key + n <= Sha256.BlockSize)%nat ->
  Hmac.Sum (key ++ repeat x00 n) msg = Hmac.Sum key msg.
Proof.
  intros Hlen. unfold Hmac.Sum. f_equal.
  assert (E : Hmac.block_key (key ++ repeat x00 n) = Hmac.block_key key).
  { unfold Hmac.block_key. rewrite length_app, repeat_length.
    destruct (Nat.ltb_spec Sha256.BlockSize (length key + n)) as [|_]; [lia|].
    destruct (Nat.ltb_spec Sha256.BlockSize (length key)) as [|_]; [lia|].
    rewrite length_app, repeat_length, <- app_assoc, <- repeat_app.
    f_equal. f_equal. lia. }
  rewrite E. reflexivity.
Qed.

End ShaFacts.

(** ** Decimal and hexadecimal text *)

Module GoStringsFacts.
Import Bytes GoStrings.

Lemma hex_digits_no_colon (b : byte) :
  Ascii.eqb (hex_digit (Z.shiftr (Z_of_byte b) 4)) colon = false /\
  Ascii.eqb (hex_digit (Z.land (Z_of_byte b) 15)) colon = false.
Proof. destruct b; split; vm_compute; reflexivity. Qed.

(** A hex encoding contains no colon. *)
Lemma EncodeToString_no_colon (src : list byte) :
  count_colons (EncodeToString src) = 0%nat.
Proof.
  induction src as [|b src IH]; [reflexivity|].
  destruct (hex_digits_no_colon b) as [H1 H2].
  cbn [EncodeToString count_colons]. rewrite H1, H2, IH. reflexivity.
Qed.

Lemma append_cons (c : ascii) (s1 s2 : string) :
  (String c s1 ++ s2)%string = String c (s1 ++ s2)%string.
Proof. reflexivity. Qed.

Lemma append_assoc (s1 s2 s3 : string) :
  ((s1 ++ s2) ++ s3)%string = (s1 ++ (s2 ++ s3))%string.
Proof.
  induction s1 as [|c s1 IH]; [reflexivity|].
  rewrite !append_cons, IH. reflexivity.
Qed.


(** The first colon is the one a colon-free prefix is followed by. *)
Lemma cut_colon_append (mac ts : string) :
  count_colons mac = 0%nat ->
  cut_colon (mac ++ String colon ts)%string = Some (mac, ts).
Proof.
  induction mac as [|c mac IH]; intros H.
  - reflexivity.
  - cbn [count_colons] in H. rewrite append_cons. cbn [cut_colon].
    destruct (Ascii.eqb c colon); [discriminate|].
    rewrite IH by exact H. reflexivity.
Qed.


Lemma is_digit_not_colon (c : ascii) : is_digit c = true -> Ascii.eqb c colon = false.
Proof.
  unfold is_digit, code. intros H. apply andb_prop in H as [H1 H2].
  apply Z.leb_le in H1, H2. destruct (Ascii.eqb_spec c colon) as [->|]; [|reflexivity].
  vm_compute in H2. contradiction H2. reflexivity.
Qed.

(** The digit loop accepts digits only. *)
Lemma parse_digits_no_colon (s : string) : forall n u : Z,
  parse_digits s n = Ok u -> count_colons s = 0%nat.
Proof.
  induction s as [|c s IH]; intros n u; [reflexivity|].
  cbn [parse_digits count_colons]. destruct (is_digit c) eqn:Ed; [|discriminate].
  rewrite (is_digit_not_colon c Ed).
  destruct (n >=? maxUint64 / 10 + 1); [discriminate|].
  destruct (n * 10 + (code c - 48) >? maxUint64); [discriminate|].
  apply IH.
Qed.

(** [ParseInt] rejects every text with a colon in it. *)
Lemma ParseInt_no_colon (s : string) (v : Z) :
  ParseInt s = Ok v -> count_colons s = 0%nat.
Proof.
  destruct s as [|c s]; [discriminate|]. unfold ParseInt.
  set (neg := Ascii.eqb c "-"). set (pos := Ascii.eqb c "+").
  set (s' := if pos || neg then s else String c s).
  destruct (ParseUint s') as [u|[|]] eqn:EP.
  - intros _. unfold ParseUint in EP.
    assert (Hs' : count_colons s' = 0%nat).
    { destruct s'; [reflexivity|]. eapply parse_digits_no_colon. exact EP. }
    destruct (pos || neg) eqn:Esign; [|exact Hs'].
    subst s'. cbn [count_colons]. rewrite Hs'.
    destruct (Ascii.eqb_spec c colon) as [->|]; [|reflexivity].
    vm_compute in Esign. discriminate.
  - discriminate.
  - destruct neg; vm_compute; discriminate.
Qed.

Lemma char_of_digit (d : Z) :
  0 <= d < 10 ->
  is_digit (char_of (48 + d)) = true /\ code (char_of (48 + d)) - 48 = d.
Proof.
  intros H.
  assert (d = 0 \/ d = 1 \/ d = 2 \/ d = 3 \/ d = 4 \/ d = 5 \/ d = 6 \/ d = 7
          \/ d = 8 \/ d = 9) as Hd by lia.
  repeat (destruct Hd as [->|Hd]; [split; reflexivity|]). subst d. split; reflexivity.
Qed.

Lemma parse_digits_app (s1 s2 : string) : forall n : Z,
  parse_digits (s1 ++ s2)%string n =
  match parse_digits s1 n with
  | Ok m => parse_digits s2 m
  | Err e => Err e
  end.
Proof.
  induction s1 as [|c s1 IH]; intros n; [reflexivity|].
  rewrite append_cons. cbn [parse_digits]. destruct (is_digit c); [|reflexivity].
  destruct (n >=? maxUint64 / 10 + 1); [reflexivity|].
  destruct (n * 10 + (code c - 48) >? maxUint64); [reflexivity|].
  apply IH.
Qed.

Lemma format_digits_S (fuel : nat) (u : Z) (acc : string) :
  format_digits (S fuel) u acc =
  if u <? 10 then String (char_of (48 + u mod 10)) acc
  else format_digits fuel (u / 10) (String (char_of (48 + u mod 10)) acc).
Proof. reflexivity. Qed.

Lemma format_digits_acc (fuel : nat) : forall (u : Z) (acc : string),
  format_digits fuel u acc = (format_digits fuel u EmptyString ++ acc)%string.
Proof.
  induction fuel as [|fuel IH]; intros u acc; [reflexivity|].
  rewrite !format_digits_S. destruct (u <? 10); [reflexivity|].
  rewrite IH, (IH _ (String _ EmptyString)).
  rewrite append_assoc. reflexivity.
Qed.

(** The digits written for [u] read back as [u]. *)
Lemma parse_format_digits (fuel : nat) : forall u : Z,
  0 <= u < 10 ^ Z.of_nat fuel -> u <= maxUint64 ->
  parse_digits (format_digits fuel u EmptyString) 0 = Ok u.
Proof.
  induction fuel as [|fuel IH]; intros u Hu Hmax.
  - change (10 ^ Z.of_nat 0) with 1 in Hu. assert (u = 0) as -> by lia. reflexivity.
  - rewrite format_digits_S.
    assert (Hd : 0 <= u mod 10 < 10) by (apply Z.mod_pos_bound; lia).
    destruct (char_of_digit (u mod 10) Hd) as [Hdig Hcode].
    destruct (Z.ltb_spec u 10) as [Hlt|Hge].
    + cbn [parse_digits]. rewrite Hdig, Hcode.
      rewrite Z.mod_small by lia. unfold maxUint64 in *.
      change (0 >=? (2 ^ 64 - 1) / 10 + 1) with false. cbv iota.
      destruct (Z.gtb_spec (0 * 10 + u) (2 ^ 64 - 1)); [lia|].
      f_equal; lia.
    + rewrite format_digits_acc, parse_digits_app.
      assert (Hq : 0 <= u / 10 < 10 ^ Z.of_nat fuel).
      { split; [apply Z.div_pos; lia|].
        apply Z.div_lt_upper_bound; [lia|].
        rewrite Nat2Z.inj_succ, Z.pow_succ_r in Hu by lia. lia. }
      assert (Hq10 : u / 10 * 10 + u mod 10 = u).
      { pose proof (Z.div_mod u 10 ltac:(lia)). lia. }
      rewrite IH; [|exact Hq|lia].
      cbn [parse_digits]. rewrite Hdig, Hcode, Hq10. unfold maxUint64 in *.
      change ((2 ^ 64 - 1) / 10 + 1) with 1844674407370955162.
      change (2 ^ 64 - 1) with 18446744073709551615 in *.
      destruct (Z.geb_spec (u / 10) 1844674407370955162); [lia|].
      destruct (Z.gtb_spec u 18446744073709551615); [lia|]. reflexivity.
Qed.

Lemma format_digits_head (fuel : nat) : forall (u : Z) (acc : string),
  0 <= u ->
  exists c rest, format_digits (S fuel) u acc = String c rest /\ is_digit c = true.
Proof.
  induction fuel as [|fuel IH]; intros u acc Hu; rewrite format_digits_S.
  - assert (Hd : 0 <= u mod 10 < 10) by (apply Z.mod_pos_bound; lia).
    destruct (char_of_digit (u mod 10) Hd) as [Hdig _].
    destruct (u <? 10); cbn [format_digits]; eauto.
  - assert (Hd : 0 <= u mod 10 < 10) by (apply Z.mod_pos_bound; lia).
    destruct (char_of_digit (u mod 10) Hd) as [Hdig _].
    destruct (u <? 10); [eauto|]. apply IH. apply Z.div_pos; lia.
Qed.

(** The first character [FormatUint] writes is a digit. *)
Lemma FormatUint_head (u : Z) :
  0 <= u -> exists c rest, FormatUint u = String c rest /\ is_digit c = true.
Proof. intros Hu. apply (format_digits_head 19 u EmptyString Hu). Qed.

Lemma ParseUint_FormatUint (u : Z) :
  0 <= u <= maxUint64 -> ParseUint (FormatUint u) = Ok u.
Proof.
  intros Hu. destruct (FormatUint_head u (proj1 Hu)) as (c & rest & E & _).
  unfold ParseUint. rewrite E, <- E. unfold FormatUint.
  apply parse_format_digits; [|lia].
  unfold maxUint64 in Hu. change (10 ^ Z.of_nat 20) with 100000000000000000000. lia.
Qed.

(** The decimal text of an [int64] parses back to it. *)
Lemma ParseInt_FormatInt (i : Z) :
  - 2 ^ 63 <= i < 2 ^ 63 -> ParseInt (FormatInt i) = Ok i.
Proof.
  intros Hi. unfold FormatInt. destruct (Z.ltb_spec i 0) as [Hneg|Hpos].
  - unfold ParseInt. change (Ascii.eqb "-" "-") with true.
    change (Ascii.eqb "-" "+") with false. cbn [orb andb negb].
    rewrite ParseUint_FormatUint by (unfold maxUint64; lia).
    destruct (Z.gtb_spec (- i) (2 ^ 63)); [lia|]. f_equal. lia.
  - destruct (FormatUint_head i Hpos) as (c & rest & E & Hdig).
    unfold ParseInt. rewrite E.
    assert (Hm : Ascii.eqb c "-" = false).
    { destruct (Ascii.eqb_spec c "-") as [->|]; [discriminate Hdig|reflexivity]. }
    assert (Hp : Ascii.eqb c "+" = false).
    { destruct (Ascii.eqb_spec c "+") as [->|]; [discriminate Hdig|reflexivity]. }
    rewrite Hm, Hp. cbn [orb andb negb]. rewrite <- E.
    rewrite ParseUint_FormatUint by (unfold maxUint64; lia).
    destruct (Z.geb_spec i (2 ^ 63)); [lia|]. reflexivity.
Qed.

End GoStringsFacts.

(** ** Token authorisation *)

Module RelayAuthFacts.
Import GoStrings GoStringsFacts RelayAuth.

Lemma int64_small (z : Z) : - 2 ^ 63 <= z < 2 ^ 63 -> int64 z = z.
Proof. intros H. unfold int64. rewrite Z.mod_small; lia. Qed.

(** The age computed for a timestamp less than 2^63 nanoseconds away is
    the exact one. *)
Lemma age_exact (now ts : Z) :
  Z.abs (now - ts) <= 9223372036 ->
  int64 (int_of_float64 (Z.abs (float64_of_int (int64 (now - ts)))) * Second)
  = Z.abs (now - ts) * Second.
Proof.
  intros H. rewrite (int64_small (now - ts)) by lia.
  unfold float64_of_int.
  destruct (Z.leb_spec (Z.abs (now - ts)) (2 ^ 53)) as [_|Hbig]; [|lia].
  unfold int_of_float64.
  destruct (Z.ltb_spec (Z.abs (now - ts)) (2 ^ 63)) as [_|Hbig]; [|lia].
  apply int64_small. unfold Second. lia.
Qed.


(** [ValidateToken] on [mac:tsStr], the mac without a colon. *)
Lemma ValidateToken_parts (now : Z) (secret mac tsStr : string) :
  count_colons mac = 0%nat ->
  ValidateToken now secret (mac ++ ":" ++ tsStr) =
  match ParseInt tsStr with
  | Err e => Err (InvalidTimestamp e)
  | Ok ts =>
      let diff :=
        int64 (int_of_float64 (Z.abs (float64_of_int (int64 (now - ts)))) * Second) in
      if diff >? _token_validity then Err (TokenExpired diff)
      else if negb (hmac_Equal mac (_compute_hmac secret tsStr))
           then Err InvalidSignature else Ok ()
  end.
Proof.
  intros Hmac. unfold ValidateToken, SplitN_colon_2.
  change (":" ++ tsStr)%string with (String colon tsStr).
  rewrite cut_colon_append by exact Hmac. reflexivity.
Qed.

Lemma compute_hmac_no_colon (secret message : string) :
  count_colons (_compute_hmac secret message) = 0%nat.
Proof. apply EncodeToString_no_colon. Qed.






End RelayAuthFacts.

(** ** The agent pool *)

Module RelayPoolFacts.
Import RelayPool.

Section PoolFacts.
Context {T : Type} `{EqDecision T}.

Definition is_ok {E A} (r : result E A) : Prop :=
  match r with Ok _ => True | Err _ => False end.

(** The link selected when the counter has just been advanced to [k]. *)
Definition pick (l : list T) (k : nat) : result pool_error T :=
  match l !! (k mod length l)%nat with
  | Some t => Ok t
  | None => Err IndexOutOfRange
  end.

Lemma times_returned_app (t : T) (rs1 rs2 : list (result pool_error T)) :
  times_returned t (rs1 ++ rs2) = (times_returned t rs1 + times_returned t rs2)%nat.
Proof. induction rs1 as [|r rs1 IH]; simpl; [reflexivity|]. rewrite IH. lia. Qed.

Lemma Get_no_wrap (p : Pool T) :
  tunnels p <> [] -> 0 <= counter p -> counter p + 1 < 2 ^ 64 ->
  Get p = (pick (tunnels p) (Z.to_nat (counter p + 1)),
           {| tunnels := tunnels p; counter := counter p + 1 |}).
Proof.
  intros Hne Hc Hw. unfold Get, pick.
  destruct (tunnels p) as [|t0 l] eqn:El; [congruence|].
  change (length (t0 :: l) =? 0)%nat with false. cbv iota zeta.
  rewrite (Z.mod_small (counter p + 1)) by lia.
  replace (Z.to_nat ((counter p + 1) mod Z.of_nat (length (t0 :: l))))
    with (Z.to_nat (counter p + 1) mod length (t0 :: l))%nat.
  - destruct ((t0 :: l) !! _); reflexivity.
  - rewrite <- (Z2Nat.id (counter p + 1)) at 2 by lia.
    rewrite <- Nat2Z.inj_mod, Nat2Z.id. reflexivity.
Qed.

Lemma GetN_no_wrap (n : nat) : forall p : Pool T,
  tunnels p <> [] -> 0 <= counter p -> counter p + Z.of_nat n < 2 ^ 64 ->
  GetN n p = (map (pick (tunnels p)) (seq (S (Z.to_nat (counter p))) n),
              {| tunnels := tunnels p; counter := counter p + Z.of_nat n |}).
Proof.
  induction n as [|n IH]; intros p Hne Hc Hw.
  - simpl. rewrite Z.add_0_r. destruct p; reflexivity.
  - cbn [GetN]. rewrite Get_no_wrap by first [assumption | lia].
    rewrite IH; cbn [tunnels counter]; [|assumption|lia|lia].
    cbn [seq map]. f_equal.
    + f_equal; [f_equal; lia|]. f_equal. f_equal. lia.
    + f_equal. lia.
Qed.

Lemma pick_periodic (l : list T) (k : nat) : pick l (k + length l) = pick l k.
Proof.
  unfold pick. destruct l as [|t0 l]; [reflexivity|].
  replace (k + length (t0 :: l))%nat with (k + 1 * length (t0 :: l))%nat by lia.
  rewrite Nat.Div0.mod_add. reflexivity.
Qed.

(** A window of [length l] consecutive counter values selects the same
    links whatever its start. *)
Lemma window_shift (t : T) (l : list T) (a : nat) :
  times_returned t (map (pick l) (seq (S a) (length l))) =
  times_returned t (map (pick l) (seq a (length l))).
Proof.
  assert (E : times_returned t (map (pick l) (seq a (S (length l)))) =
              times_returned t (map (pick l) (seq a (S (length l))))) by reflexivity.
  rewrite seq_S in E at 1. cbn [seq] in E.
  rewrite map_app, times_returned_app in E. cbn [map times_returned] in E.
  rewrite pick_periodic in E. lia.
Qed.

Lemma window_any (t : T) (l : list T) (a : nat) :
  times_returned t (map (pick l) (seq a (length l))) =
  times_returned t (map (pick l) (seq 0 (length l))).
Proof. induction a as [|a IH]; [reflexivity|]. rewrite window_shift. exact IH. Qed.

Lemma pick_first_window (l : list T) :
  map (pick l) (seq 0 (length l)) = map Ok l.
Proof.
  assert (G : forall (pre suf : list T),
             map (fun k => match (pre ++ suf) !! k with
                           | Some t => Ok t
                           | None => Err IndexOutOfRange
                           end) (seq (length pre) (length suf))
             = map (@Ok pool_error T) suf).
  { intros pre suf. revert pre.
    induction suf as [|x suf IH]; intros pre; [reflexivity|].
    cbn [length seq map]. f_equal.
    - rewrite lookup_app_r by lia. rewrite Nat.sub_diag. reflexivity.
    - specialize (IH (pre ++ [x])). rewrite <- app_assoc in IH. cbn [app] in IH.
      rewrite length_app in IH. cbn [length] in IH.
      rewrite Nat.add_1_r in IH. exact IH. }
  specialize (G [] l). cbn [app length] in G. rewrite <- G.
  apply map_ext_in. intros k Hk. apply in_seq in Hk.
  unfold pick. rewrite Nat.mod_small by lia. reflexivity.
Qed.

Lemma times_returned_Ok (t : T) (l : list T) :
  NoDup l -> t ∈ l -> times_returned t (map Ok l) = 1%nat.
Proof.
  assert (Hnot : forall l' : list T, t ∉ l' -> times_returned t (map Ok l') = 0%nat).
  { induction l' as [|x l' IH]; intros Hn; [reflexivity|].
    cbn [map times_returned returns_link].
    rewrite bool_decide_eq_false_2 by (intros ->; apply Hn; left).
    rewrite IH; [reflexivity|]. intros Hin. apply Hn. right. exact Hin. }
  induction l as [|x l IH]; intros Hnd Hin.
  - inversion Hin.
  - apply NoDup_cons in Hnd as [Hx Hnd].
    cbn [map times_returned returns_link].
    destruct (decide (x = t)) as [->|Hne].
    + rewrite bool_decide_eq_true_2 by reflexivity. rewrite Hnot by exact Hx. reflexivity.
    + rewrite bool_decide_eq_false_2 by exact Hne.
      apply elem_of_cons in Hin as [Heq|Hin]; [congruence|].
      rewrite IH by assumption. reflexivity.
Qed.

Lemma one_window (t : T) (l : list T) (a : nat) :
  NoDup l -> t ∈ l -> times_returned t (map (pick l) (seq a (length l))) = 1%nat.
Proof.
  intros Hnd Hin. rewrite window_any, pick_first_window.
  apply times_returned_Ok; assumption.
Qed.

Lemma many_windows (t : T) (l : list T) (K : nat) : forall a : nat,
  NoDup l -> t ∈ l ->
  times_returned t (map (pick l) (seq a (length l * K))) = K.
Proof.
  induction K as [|K IH]; intros a Hnd Hin.
  - rewrite Nat.mul_0_r. reflexivity.
  - replace (length l * S K)%nat with (length l + length l * K)%nat by lia.
    rewrite seq_app, map_app, times_returned_app.
    rewrite one_window, IH by assumption. reflexivity.
Qed.

Lemma pick_is_ok (l : list T) (k : nat) : l <> [] -> is_ok (pick l k).
Proof.
  intros Hne. unfold pick.
  destruct (l !! (k mod length l)%nat) eqn:E; [exact I|].
  apply lookup_ge_None in E.
  assert (length l <> 0)%nat by (destruct l; simpl; congruence).
  pose proof (Nat.mod_upper_bound k (length l) ltac:(assumption)). lia.
Qed.

(** The counter after [n] calls of [Get], wrap-around included. *)
Lemma GetN_counter (n : nat) : forall p : Pool T,
  tunnels p <> [] -> 0 <= counter p < 2 ^ 64 ->
  tunnels (GetN n p).2 = tunnels p /\
  counter (GetN n p).2 = (counter p + Z.of_nat n) mod 2 ^ 64.
Proof.
  induction n as [|n IH]; intros p Hne Hc.
  - simpl. rewrite Z.add_0_r, Z.mod_small by lia. auto.
  - cbn [GetN]. destruct (Get p) as [r p1] eqn:EG.
    assert (Hp1 : tunnels p1 = tunnels p /\ counter p1 = (counter p + 1) mod 2 ^ 64).
    { unfold Get in EG. destruct (tunnels p) as [|t0 l] eqn:El; [congruence|].
      change (length (t0 :: l) =? 0)%nat with false in EG. cbv iota zeta in EG.
      destruct ((t0 :: l) !! _) in EG; injection EG as _ <-; auto. }
    destruct Hp1 as [Ht Hc1].
    specialize (IH p1). destruct (GetN n p1) as [rs p2] eqn:EN. simpl in *.
    destruct IH as [IH1 IH2].
    + congruence.
    + rewrite Hc1. apply Z.mod_pos_bound. lia.
    + split; [congruence|]. rewrite IH2, Hc1.
      rewrite Zplus_mod_idemp_l. f_equal. lia.
Qed.

End PoolFacts.

(** C8 (as amended) -- round-robin fairness: in a pool of [N >= 1] distinct
    links, [N * K] consecutive calls of [Get] during which the 64-bit
    rotation counter does not wrap around all succeed and return each link
    exactly [K] times; [Get] on an empty pool fails with the no-agents
    error. *)
Theorem pool_round_robin :
  (forall (p : Pool nat) (K : nat),
      (1 <= length (tunnels p))%nat -> NoDup (tunnels p) ->
      0 <= counter p ->
      counter p + Z.of_nat (length (tunnels p) * K) < 2 ^ 64 ->
      Forall is_ok (GetN (length (tunnels p) * K) p).1 /\
      forall t, t ∈ tunnels p ->
                times_returned t (GetN (length (tunnels p) * K) p).1 = K) /\
  (forall p : Pool nat, tunnels p = [] -> (Get p).1 = Err NoAgentsConnected).
Proof.
  split.
  - intros p K HN Hnd Hc Hw.
    assert (Hne : tunnels p <> []) by (destruct (tunnels p); simpl in HN; [lia|congruence]).
    rewrite GetN_no_wrap by assumption. cbn [fst]. split.
    + apply Forall_forall. intros r Hr. apply list_elem_of_In in Hr.
      apply in_map_iff in Hr as (k & <- & _). apply pick_is_ok. exact Hne.
    + intros t Hin. apply many_windows; assumption.
  - intros p Hp. unfold Get. rewrite Hp. reflexivity.
Qed.

Lemma pool_round_robin_witness :
  (Forall is_ok (GetN (3 * 2) (@mkPool nat [10; 11; 12]%nat 0)).1 /\
   times_returned 11%nat (GetN (3 * 2) (@mkPool nat [10; 11; 12]%nat 0)).1 = 2%nat) /\
  (Get (@mkPool nat [] 7)).1 = Err NoAgentsConnected.
Proof.
  destruct pool_round_robin as [Hfair Hempty]. split.
  - destruct (Hfair (@mkPool nat [10; 11; 12]%nat 0) 2%nat) as [Hok Hk].
    + simpl. lia.
    + apply (bool_decide_unpack _). vm_compute. reflexivity.
    + simpl. lia.
    + simpl. lia.
    + split; [exact Hok|]. apply Hk. apply (bool_decide_unpack _). vm_compute. reflexivity.
  - apply Hempty. reflexivity.
Defined.

(** C8, the claim as stated fails where the counter wraps: with three
    links and the counter at [2^64 - 2], the next three calls return the
    first link twice and the third link not at all. *)
Lemma pool_round_robin_wrap :
  (GetN 3 (@mkPool nat [10; 11; 12]%nat (2 ^ 64 - 2))).1 = [Ok 10; Ok 10; Ok 11]%nat /\
  times_returned 12%nat (GetN 3 (@mkPool nat [10; 11; 12]%nat (2 ^ 64 - 2))).1 = 0%nat.
Proof. vm_compute. split; reflexivity. Qed.

(** That counter value is the one a pool of three links reaches from a
    fresh counter by [2^64 - 2] calls of [Get]. *)
Lemma pool_wrap_state_reached (n : nat) :
  Z.of_nat n = 2 ^ 64 - 2 ->
  (GetN n (@mkPool nat [10; 11; 12]%nat 0)).2 =
  @mkPool nat [10; 11; 12]%nat (2 ^ 64 - 2).
Proof.
  intros Hn.
  destruct (GetN_counter n (@mkPool nat [10; 11; 12]%nat 0)) as [Ht Hc].
  - discriminate.
  - cbn [counter]. lia.
  - destruct (GetN n _).2 as [l c]. cbn [tunnels counter] in *. subst l.
    f_equal. rewrite Hc, Hn. reflexivity.
Qed.

End RelayPoolFacts.

(** ** Fragmentation of a payload into frames *)

Module FragmentationFacts.
Import Protocol ProtocolFacts RelayHandler AgentTunnel.

(** What a fragmentation of [payload] into [frames] has to satisfy. *)
Record fragmentation (streamID firstType : Z) (payload : list byte)
       (frames : list Frame) : Prop := mkFragmentation {
  frag_nonempty : frames <> [];
  frag_sizes : Forall (fun f => len (Payload f) <= 65536) frames;
  frag_first : Type_ <$> head frames = Some firstType;
  frag_rest : Forall (fun f => Type_ f = TypeBodyChunk) (tail frames);
  frag_stream : Forall (fun f => StreamID f = streamID) frames;
  frag_concat : concat (map Payload frames) = payload
}.

Section Loop.
Variables (streamID firstType : Z) (payload : list byte).

(** The frames the loop appends from offset [i] on. *)
Record appended (i : Z) (new : list Frame) : Prop := mkAppended {
  app_concat : concat (map Payload new) = drop (Z.to_nat i) payload;
  app_each : Forall (fun f => len (Payload f) <= MaxPayloadSize
                              /\ StreamID f = streamID) new;
  app_types : match new with
              | [] => len payload <= i
              | f :: rest =>
                  Type_ f = (if i =? 0 then firstType else TypeBodyChunk)
                  /\ Forall (fun g => Type_ g = TypeBodyChunk) rest
              end;
  app_count : len new = if i <? len payload
                        then (len payload - i + MaxPayloadSize - 1) / MaxPayloadSize
                        else 0
}.

Lemma chunk_loop_appends (fuel : nat) : forall (i : Z) (frames : list Frame),
  0 <= i -> len payload - i <= Z.of_nat fuel ->
  exists new,
    _chunk_loop fuel streamID firstType payload i frames = frames ++ new
    /\ appended i new.
Proof.
  induction fuel as [|fuel IH]; intros i frames Hi Hfuel.
  - exists []. split; [symmetry; apply app_nil_r|].
    assert (Hge : len payload <= i) by lia.
    split.
    + simpl. symmetry. apply drop_ge. unfold len in Hge. lia.
    + constructor.
    + exact Hge.
    + destruct (Z.ltb_spec i (len payload)); [lia|reflexivity].
  - cbn [_chunk_loop]. destruct (Z.ltb_spec i (len payload)) as [Hlt|Hge].
    + set (end_ := if i + MaxPayloadSize >? len payload then len payload
                   else i + MaxPayloadSize).
      set (f0 := {| Type_ := if i =? 0 then firstType else TypeBodyChunk;
                    StreamID := streamID;
                    Payload := slice (Z.to_nat i) (Z.to_nat end_) payload |}).
      destruct (IH (i + MaxPayloadSize) (frames ++ [f0])) as (new & Eq & Hnew).
      { unfold MaxPayloadSize. lia. }
      { unfold MaxPayloadSize. lia. }
      exists (f0 :: new). split.
      { rewrite Eq, <- app_assoc. reflexivity. }
      destruct Hnew as [Hc He Ht Hn].
      assert (Hend : end_ = Z.min (len payload) (i + MaxPayloadSize)).
      { unfold end_. destruct (Z.gtb_spec (i + MaxPayloadSize) (len payload)); lia. }
      assert (HM : MaxPayloadSize = 65536) by reflexivity.
      assert (Hbody : Forall (fun g => Type_ g = TypeBodyChunk) new).
      { destruct new as [|g new]; [constructor|].
        destruct Ht as [Hg Hrest].
        destruct (Z.eqb_spec (i + MaxPayloadSize) 0); [lia|].
        constructor; assumption. }
      split.
      * cbn [map concat Payload f0]. rewrite Hc. unfold slice.
        destruct (Z.le_gt_cases (i + MaxPayloadSize) (len payload)) as [Hle|Hgt].
        -- replace (Z.to_nat end_ - Z.to_nat i)%nat with (Z.to_nat MaxPayloadSize) by lia.
           replace (Z.to_nat (i + MaxPayloadSize))
             with (Z.to_nat i + Z.to_nat MaxPayloadSize)%nat by lia.
           rewrite <- drop_drop. apply take_drop.
        -- rewrite (drop_ge payload (Z.to_nat (i + MaxPayloadSize)))
             by (unfold len in *; lia).
           rewrite app_nil_r. apply take_ge.
           rewrite length_drop. unfold len in *. lia.
      * constructor; [|exact He]. cbn [Payload StreamID f0]. split; [|reflexivity].
        unfold slice, len. rewrite length_take. lia.
      * split; [reflexivity|exact Hbody].
      * change (len (f0 :: new)) with (Z.of_nat (S (length new))).
        rewrite Nat2Z.inj_succ. fold (len new). rewrite Hn, HM.
        destruct (Z.ltb_spec i (len payload)) as [_|?]; [|lia].
        destruct (Z.ltb_spec (i + 65536) (len payload)) as [Hlt'|Hge'].
        -- replace (len payload - i + 65536 - 1)
             with (len payload - (i + 65536) + 65536 - 1 + 1 * 65536) by lia.
           rewrite Z.div_add by lia. lia.
        -- apply Z.div_unique with (r := len payload - i - 1).
           ++ left. lia.
           ++ lia.
    + exists []. split; [symmetry; apply app_nil_r|].
      split.
      * simpl. symmetry. apply drop_ge. unfold len in Hge. lia.
      * constructor.
      * exact Hge.
      * destruct (Z.ltb_spec i (len payload)); [lia|reflexivity].
Qed.

Lemma chunk_payload_fragmentation :
  fragmentation streamID firstType payload (_chunk_payload streamID firstType payload).
Proof.
  unfold _chunk_payload.
  destruct (Z.leb_spec (len payload) MaxPayloadSize) as [Hle|Hgt].
  - split; cbn [head tail map concat fmap option_fmap option_map].
    + discriminate.
    + repeat constructor. exact Hle.
    + reflexivity.
    + constructor.
    + repeat constructor.
    + apply app_nil_r.
  - destruct (chunk_loop_appends (length payload) 0 []) as (new & -> & [Hc He Ht Hn]).
    { lia. } { unfold len. lia. }
    cbn [app]. destruct new as [|f new].
    { unfold MaxPayloadSize in *. pose proof (len_nonneg payload). lia. }
    destruct Ht as [Hf Hrest]. split; cbn [head tail fmap option_fmap option_map].
    + discriminate.
    + eapply Forall_impl; [exact He|]. intros g [Hg _]. exact Hg.
    + rewrite Hf. reflexivity.
    + exact Hrest.
    + eapply Forall_impl; [exact He|]. intros g [_ Hg]. exact Hg.
    + rewrite Hc. reflexivity.
Qed.

Lemma chunk_payload_count :
  len (_chunk_payload streamID firstType payload) =
  if len payload <=? MaxPayloadSize then 1
  else (len payload + MaxPayloadSize - 1) / MaxPayloadSize.
Proof.
  unfold _chunk_payload.
  destruct (Z.leb_spec (len payload) MaxPayloadSize) as [Hle|Hgt]; [reflexivity|].
  destruct (chunk_loop_appends (length payload) 0 []) as (new & -> & [Hc He Ht Hn]).
  { lia. } { unfold len. lia. }
  cbn [app]. rewrite Hn.
  destruct (Z.ltb_spec 0 (len payload)); [|unfold MaxPayloadSize in *; lia].
  rewrite Z.sub_0_r. reflexivity.
Qed.

End Loop.

Lemma response_loop_chunk_loop (streamID : Z) (data : list byte) (fuel : nat) :
  forall (i : Z) (frames : list Frame),
    _response_loop fuel streamID data i frames =
    _chunk_loop fuel streamID TypeHTTPResponse data i frames.
Proof.
  induction fuel as [|fuel IH]; intros i frames; [reflexivity|].
  cbn [_response_loop _chunk_loop]. rewrite IH. reflexivity.
Qed.

(** The agent frames a response the way the relay chunks a request. *)
Lemma response_frames_chunk_payload (streamID : Z) (data : list byte) :
  _response_frames streamID data = _chunk_payload streamID TypeHTTPResponse data.
Proof.
  unfold _response_frames, _chunk_payload.
  rewrite response_loop_chunk_loop. reflexivity.
Qed.

(** C7 -- payload fragmentation: for every payload and stream id the
    relay's chunker gives a non-empty list of frames, each with a payload
    of at most 65,536 bytes, the first of the given first type, the others
    of type [BODY_CHUNK], all with the given stream id, whose payloads
    concatenated in order are the original payload; the agent's response
    framer does the same with [HTTP_RESPONSE] as first type; and a payload
    of 200,000 bytes yields at least 4 frames on either path. *)
Theorem payload_fragmentation (streamID firstType : Z) (payload : list byte) :
  fragmentation streamID firstType payload
                (_chunk_payload streamID firstType payload) /\
  fragmentation streamID TypeHTTPResponse payload
                (_response_frames streamID payload) /\
  (len payload = 200000 ->
   4 <= len (_chunk_payload streamID firstType payload) /\
   4 <= len (_response_frames streamID payload)).
Proof.
  split; [apply chunk_payload_fragmentation|split].
  - rewrite response_frames_chunk_payload. apply chunk_payload_fragmentation.
  - intros Hlen. rewrite response_frames_chunk_payload, !chunk_payload_count, Hlen.
    vm_compute. split; discriminate.
Qed.

Lemma payload_fragmentation_witness :
  4 <= len (_chunk_payload 7 TypeHTTPRequest (repeat x00 (Z.to_nat 200000))) /\
  4 <= len (_response_frames 7 (repeat x00 (Z.to_nat 200000))).
Proof.
  apply (payload_fragmentation 7 TypeHTTPRequest (repeat x00 (Z.to_nat 200000))).
  unfold len. rewrite repeat_length. lia.
Defined.

End FragmentationFacts.

(** ** The relay tunnel and the stream registry *)

Module RelayTunnelFacts.
Import Protocol ProtocolFacts RelayTunnel.

Lemma WriteFrame_ok (c : Conn) (f : Frame) (fs : list bool) :
  len (Payload f) <= MaxPayloadSize -> conn_closed c = false ->
  faults c = false :: fs ->
  exists data,
    MarshalFrame f = Ok data /\
    WriteFrame c f =
    (Ok (), {| written := written c ++ [data]; faults := fs; conn_closed := false |}).
Proof.
  intros Hlen Hopen Hf. unfold WriteFrame, MarshalFrame.
  destruct (Z.gtb_spec (len (Payload f)) MaxPayloadSize); [lia|].
  eexists. split; [reflexivity|]. rewrite Hopen, Hf. reflexivity.
Qed.

Lemma WriteFrame_fault (c : Conn) (f : Frame) (fs : list bool) :
  len (Payload f) <= MaxPayloadSize -> conn_closed c = false ->
  faults c = true :: fs ->
  WriteFrame c f =
  (Err WriteFailed, {| written := written c; faults := fs; conn_closed := false |}).
Proof.
  intros Hlen Hopen Hf. unfold WriteFrame, MarshalFrame.
  destruct (Z.gtb_spec (len (Payload f)) MaxPayloadSize); [lia|].
  rewrite Hopen, Hf. reflexivity.
Qed.

(** A failed write never extends the wire. *)
Lemma WriteFrame_err_written (c c' : Conn) (f : Frame) (e : send_error) :
  WriteFrame c f = (Err e, c') -> written c' = written c.
Proof.
  unfold WriteFrame. destruct (MarshalFrame f) as [data|err].
  - destruct (conn_closed c); [intros [= _ <-]; reflexivity|].
    destruct (faults c) as [|[|] fs]; intros H; inversion H; reflexivity.
  - intros [= _ <-]. reflexivity.
Qed.

(** [SendRequest] unregisters the sink when its write fails: the stream id
    is not in the registry afterwards and the channel made is closed. *)
Lemma SendRequest_failure (t t' : Tunnel) (cs cs' : Chans) (f : Frame) (e : send_error) :
  SendRequest t cs f = (Err e, t', cs') ->
  streams t' !! StreamID f = None /\
  heap cs' !! next_chan cs = Some (mkChan [] true).
Proof.
  unfold SendRequest, make_chan.
  destruct (WriteFrame _ f) as [[u|e'] c] eqn:EW; [discriminate|].
  unfold _remove_stream. cbn [streams set_codec set_streams].
  rewrite lookup_insert_eq. intros [= _ <- <-]. cbn [streams heap close_chan].
  split.
  - apply lookup_delete_eq.
  - rewrite lookup_alter_eq, lookup_insert_eq. reflexivity.
Qed.

(** [SendRequest] leaves the sink registered, and open, when its write
    succeeds. *)
Lemma SendRequest_success (t t' : Tunnel) (cs cs' : Chans) (f : Frame) (ch : nat) :
  SendRequest t cs f = (Ok ch, t', cs') ->
  ch = next_chan cs /\
  streams t' = <[StreamID f := ch]> (streams t) /\
  cs' = (make_chan cs).2.
Proof.
  unfold SendRequest, make_chan.
  destruct (WriteFrame _ f) as [[u|e'] c] eqn:EW.
  - intros [= <- <- <-]. auto.
  - unfold _remove_stream. cbn [streams set_codec set_streams].
    rewrite lookup_insert_eq. discriminate.
Qed.

Lemma SendFrame_streams (t t' : Tunnel) (f : Frame) (r : result send_error unit) :
  SendFrame t f = (r, t') -> streams t' = streams t.
Proof.
  unfold SendFrame. destruct (WriteFrame (codec t) f) as [r' c].
  intros [= _ <-]. reflexivity.
Qed.

(** C4, on the code -- the relay side read loop has no case for [PING]:
    a [PING] frame falls to the default case, is logged as an unexpected
    frame type and dropped; nothing is written to the connection (no
    [PONG]) and the tunnel is left as it was. *)
Theorem relay_drops_ping (t : Tunnel) (cs : Chans) (streamID : Z) (payload : list byte) :
  _read_loop_dispatch t cs (mkFrame TypePing streamID payload) =
  (Continue, t, cs, [log_unexpected]).
Proof. reflexivity. Qed.

(** The agent side read loop, in contrast, answers a [PING] with a
    [PONG] on stream 0. *)
Lemma agent_answers_ping (c : Conn) (s : gmap Z (list byte)) (streamID : Z)
      (payload : list byte) :
  conn_closed c = false -> faults c = [] ->
  AgentTunnel._read_loop_dispatch (AgentTunnel.mkLoopState c s)
                                  (mkFrame TypePing streamID payload) =
  (AgentTunnel.Next,
   AgentTunnel.mkLoopState
     {| written := written c ++ [[x06; x00; x00; x00; x00; x00; x00; x00; x00]];
        faults := []; conn_closed := false |} s).
Proof.
  intros Hopen Hf. unfold AgentTunnel._read_loop_dispatch.
  cbn [Type_ AgentTunnel.codec AgentTunnel.streams].
  change (TypePing =? TypePing) with true. cbv iota.
  unfold AgentTunnel.WriteFrame, WriteFrame.
  change (MarshalFrame (mkFrame TypePong 0 []))
    with (@Ok codec_error _ [x06; x00; x00; x00; x00; x00; x00; x00; x00]).
  cbv iota. rewrite Hopen, Hf. reflexivity.
Qed.

End RelayTunnelFacts.

(** ** The relay request handler *)

Module RelayHandlerFacts.
Import Protocol ProtocolFacts RelayPool RelayTunnel RelayTunnelFacts RelayHandler.
Import FragmentationFacts.

(** Frames whose payload [_collect_response] accumulates. *)
Definition is_data_frame (f : Frame) : bool :=
  (Type_ f =? TypeHTTPResponse) || (Type_ f =? TypeBodyChunk).

(** The bytes accumulated from the frames [fs], in receive order. *)
Definition accumulated (fs : list Frame) : list byte :=
  concat (map Payload (List.filter is_data_frame fs)).

(** The connection accepts the next [k] writes. *)
Definition ok_writes (k : nat) (c : Conn) : Prop :=
  conn_closed c = false /\ Forall (fun b => b = false) (take k (faults c)).

(** The connection accepts [k] writes and fails the one after. *)
Definition fault_at (k : nat) (c : Conn) : Prop :=
  ok_writes k c /\ faults c !! k = Some true.

Definition small (f : Frame) : Prop := len (Payload f) <= MaxPayloadSize.

Lemma ok_writes_step (k : nat) (c : Conn) (f : Frame) :
  small f -> ok_writes (S k) c ->
  exists c', WriteFrame c f = (Ok (), c') /\ conn_closed c' = false /\
             faults c' = drop 1 (faults c).
Proof.
  intros Hs [Hopen Hf]. unfold WriteFrame, MarshalFrame.
  destruct (Z.gtb_spec (len (Payload f)) MaxPayloadSize); [unfold small in Hs; lia|].
  rewrite Hopen. destruct (faults c) as [|[|] fs] eqn:E.
  - eexists. split; [reflexivity|]. auto.
  - cbn [take] in Hf. apply Forall_cons in Hf as [Hb _]. discriminate.
  - eexists. split; [reflexivity|]. auto.
Qed.

Lemma ok_writes_drop (k : nat) (c c' : Conn) :
  ok_writes (S k) c -> conn_closed c' = false -> faults c' = drop 1 (faults c) ->
  ok_writes k c'.
Proof.
  intros [_ Hf] Hopen Hd. split; [exact Hopen|]. rewrite Hd.
  destruct (faults c) as [|b fs]; [rewrite drop_nil, take_nil; constructor|].
  cbn [take drop] in *. apply Forall_cons in Hf as [_ Hf]. exact Hf.
Qed.

Lemma ok_writes_le (k k' : nat) (c : Conn) :
  (k' <= k)%nat -> ok_writes k c -> ok_writes k' c.
Proof.
  intros Hle [Hopen Hf]. split; [exact Hopen|].
  replace k' with (k' `min` k)%nat by lia. rewrite <- take_take.
  apply Forall_take. exact Hf.
Qed.

Lemma fault_now (c : Conn) (f : Frame) :
  small f -> fault_at 0 c ->
  exists c', WriteFrame c f = (Err WriteFailed, c') /\ conn_closed c' = false.
Proof.
  intros Hs [[Hopen _] Hf].
  destruct (faults c) as [|b fs] eqn:E; [discriminate|].
  injection Hf as ->.
  rewrite (WriteFrame_fault c f fs); [eexists; split; reflexivity|exact Hs|exact Hopen|exact E].
Qed.

Lemma fault_later (k : nat) (c c' : Conn) :
  fault_at (S k) c -> conn_closed c' = false -> faults c' = drop 1 (faults c) ->
  fault_at k c'.
Proof.
  intros [Hok Hf] Hopen Hd. split.
  - eapply ok_writes_drop; eassumption.
  - rewrite Hd, lookup_drop. exact Hf.
Qed.

Section Send.
Variables (cs : Chans) (responseCh : option nat).

(** The continuation frames all go out when the connection accepts as
    many writes. *)
Lemma send_rest_ok (frames : list Frame) : forall (i m : nat) (t : Tunnel),
  Forall small frames -> ok_writes (length frames + m) (codec t) ->
  exists t',
    _send_frames (S i) frames t cs responseCh = (Ok responseCh, t', cs) /\
    streams t' = streams t /\ conn_closed (codec t') = false /\
    faults (codec t') = drop (length frames) (faults (codec t)).
Proof.
  induction frames as [|f frames IH]; intros i m t Hs Hok.
  - exists t. destruct Hok as [Hopen _]. cbn. auto.
  - apply Forall_cons in Hs as [Hf Hs]. cbn [length Nat.add] in Hok.
    destruct (ok_writes_step _ _ f Hf Hok) as (c' & EW & Hopen' & Hd).
    cbn [_send_frames]. unfold SendFrame. rewrite EW.
    destruct (IH (S i) m (set_codec t c')) as (t' & E & Hst & Hopen'' & Hfl).
    + exact Hs.
    + cbn [codec set_codec]. eapply ok_writes_drop; eassumption.
    + exists t'. rewrite E. cbn [codec set_codec streams] in *.
      repeat split; try assumption.
      rewrite Hfl, Hd, drop_drop. reflexivity.
Qed.

(** The send loop stops with a body chunk failure when the write of a
    continuation frame fails. *)
Lemma send_rest_fault (frames : list Frame) : forall (i k : nat) (t : Tunnel),
  Forall small frames -> (k < length frames)%nat -> fault_at k (codec t) ->
  exists t',
    _send_frames (S i) frames t cs responseCh =
    (Err (BodyChunkFailed WriteFailed), t', cs) /\
    streams t' = streams t.
Proof.
  induction frames as [|f frames IH]; intros i k t Hs Hk Hfault.
  - cbn in Hk. lia.
  - apply Forall_cons in Hs as [Hf Hs]. cbn [_send_frames]. unfold SendFrame.
    destruct k as [|k].
    + destruct (fault_now _ f Hf Hfault) as (c' & EW & _). rewrite EW.
      eexists. split; reflexivity.
    + destruct (ok_writes_step _ _ f Hf (proj1 Hfault)) as (c' & EW & Hopen' & Hd).
      rewrite EW.
      destruct (IH (S i) k (set_codec t c')) as (t' & E & Hst).
      * exact Hs.
      * cbn [length] in Hk. lia.
      * cbn [codec set_codec]. eapply fault_later; eassumption.
      * exists t'. rewrite E. split; [reflexivity|exact Hst].
Qed.

End Send.


Lemma SendRequest_ok (t : Tunnel) (cs : Chans) (f : Frame) (k : nat) :
  small f -> ok_writes (S k) (codec t) ->
  exists t',
    SendRequest t cs f = (Ok (next_chan cs), t', (make_chan cs).2) /\
    streams t' = <[StreamID f := next_chan cs]> (streams t) /\
    conn_closed (codec t') = false /\
    faults (codec t') = drop 1 (faults (codec t)).
Proof.
  intros Hs Hok. destruct (ok_writes_step _ _ f Hs Hok) as (c' & EW & Hopen & Hd).
  unfold SendRequest, make_chan. cbn [codec set_streams]. rewrite EW.
  eexists. split; [reflexivity|]. cbn [codec streams set_codec set_streams]. auto.
Qed.

Lemma SendRequest_fault (t : Tunnel) (cs : Chans) (f : Frame) :
  small f -> fault_at 0 (codec t) ->
  exists t' cs',
    SendRequest t cs f = (Err WriteFailed, t', cs') /\
    streams t' !! StreamID f = None /\
    heap cs' !! next_chan cs = Some (mkChan [] true).
Proof.
  intros Hs Hfault. destruct (fault_now _ f Hs Hfault) as (c' & EW & _).
  destruct (SendRequest t cs f) as [[[ch|e] t'] cs'] eqn:E.
  - exfalso. unfold SendRequest, make_chan in E. cbn [codec set_streams] in E.
    rewrite EW in E. unfold _remove_stream in E.
    cbn [streams set_codec set_streams] in E. rewrite lookup_insert_eq in E.
    discriminate.
  - pose proof (SendRequest_failure _ _ _ _ _ _ E) as [H1 H2].
    assert (e = WriteFailed) as ->.
    { unfold SendRequest, make_chan in E. cbn [codec set_streams] in E.
      rewrite EW in E. unfold _remove_stream in E.
      cbn [streams set_codec set_streams] in E. rewrite lookup_insert_eq in E.
      congruence. }
    eauto.
Qed.

Section Serving.
Variable json_Marshal : TunnelledRequest -> option (list byte).
Variable json_Unmarshal : list byte -> option TunnelledResponse.

Variables (w : World) (r : Request) (ptr : nat) (p' : Pool nat).
Variables (req : TunnelledRequest) (payload : list byte) (t : Tunnel).

Hypothesis HGet : Get (pool w) = (Ok ptr, p').
Hypothesis HBuild : _build_tunnelled_request r = Ok req.
Hypothesis HMarshal : json_Marshal req = Some payload.
Hypothesis HTunnel : tunnel_heap w !! ptr = Some t.

(** The stream id drawn for the request, and its frames. *)
Definition request_stream : Z := (NextStreamID (_stream_counter w)).1.
Definition request_frames : list Frame :=
  _chunk_payload request_stream TypeHTTPRequest payload.

Definition close_frame : Frame :=
  {| Type_ := TypeStreamClose; StreamID := request_stream; Payload := [] |}.

Lemma small_close_frame : small close_frame.
Proof. unfold small, close_frame, len, MaxPayloadSize. simpl. lia. Qed.

Lemma request_frames_shape :
  exists f0 rest,
    request_frames = f0 :: rest /\ StreamID f0 = request_stream /\
    small f0 /\ Forall small rest.
Proof.
  destruct (chunk_payload_fragmentation request_stream TypeHTTPRequest payload)
    as [Hne Hsz _ _ Hst _].
  fold request_frames in *. destruct request_frames as [|f0 rest]; [congruence|].
  apply Forall_cons in Hsz as [Hs0 Hsz]. apply Forall_cons in Hst as [Hst0 _].
  exists f0, rest. repeat split; try assumption.
Qed.

(** [ServeHTTP] once a tunnel is selected and the payload built. *)
Lemma ServeHTTP_send (outcomes : list select_outcome) :
  ServeHTTP json_Marshal json_Unmarshal w r outcomes =
  let w1 := with_stream_counter (with_pool w p')
                                (NextStreamID (_stream_counter w)).2 in
  match _send_frames 0 request_frames t (chans w) None with
  | (Err e, t', cs') =>
      (Some (HttpError "tunnel error" StatusBadGateway),
       with_log (with_tunnel w1 ptr t' cs') (log_of_failure e))
  | (Ok _, t', cs') =>
      let '(sent, t'') := SendFrame t' close_frame in
      let w2 := with_tunnel w1 ptr t'' cs' in
      (_collect_response json_Unmarshal outcomes [],
       match sent with
       | Err _ => with_log w2 "failed to send stream close"
       | Ok _ => w2
       end)
  end.
Proof.
  unfold ServeHTTP. rewrite HGet, HBuild, HMarshal.
  unfold request_frames, close_frame, request_stream, NextStreamID.
  cbn [fst snd with_pool with_stream_counter tunnel_heap chans _stream_counter].
  rewrite HTunnel. reflexivity.
Qed.

Lemma first_send_fails (outcomes : list select_outcome) :
  fault_at 0 (codec t) ->
  exists w',
    ServeHTTP json_Marshal json_Unmarshal w r outcomes =
    (Some (HttpError "tunnel error" StatusBadGateway), w') /\
    exists t', tunnel_heap w' !! ptr = Some t' /\
               streams t' !! request_stream = None.
Proof.
  intros Hfault. rewrite ServeHTTP_send.
  destruct request_frames_shape as (f0 & rest & Efr & Hsid & Hs0 & Hs).
  rewrite Efr in *.
  destruct (SendRequest_fault t (chans w) f0 Hs0 Hfault) as (t' & cs' & E & Hnone & _).
  cbn [_send_frames]. rewrite E. cbv zeta.
  eexists. split; [reflexivity|]. exists t'. split.
  - cbn [with_log with_tunnel tunnel_heap]. apply lookup_insert_eq.
  - rewrite <- Hsid. exact Hnone.
Qed.

(** The same on a link that is closed already: the first write fails,
    whatever the connection would do to later writes. *)
Lemma first_send_fails_closed (outcomes : list select_outcome) :
  conn_closed (codec t) = true ->
  exists w',
    ServeHTTP json_Marshal json_Unmarshal w r outcomes =
    (Some (HttpError "tunnel error" StatusBadGateway), w') /\
    exists t', tunnel_heap w' !! ptr = Some t' /\
               streams t' !! request_stream = None.
Proof.
  intros Hc. rewrite ServeHTTP_send.
  destruct request_frames_shape as (f0 & rest & Efr & Hsid & Hs0 & Hs).
  rewrite Efr in *. cbn [_send_frames].
  destruct (SendRequest t (chans w) f0) as [[[ch|e] t'] cs'] eqn:E.
  - exfalso. unfold SendRequest, make_chan in E. cbn [codec set_streams] in E.
    unfold WriteFrame in E. rewrite Hc in E.
    destruct (MarshalFrame f0); unfold _remove_stream in E;
      cbn [streams set_codec set_streams] in E; rewrite lookup_insert_eq in E;
      discriminate.
  - destruct (SendRequest_failure _ _ _ _ _ _ E) as [Hnone _]. cbv zeta.
    eexists. split; [reflexivity|]. exists t'. split.
    + cbn [with_log with_tunnel tunnel_heap]. apply lookup_insert_eq.
    + rewrite <- Hsid. exact Hnone.
Qed.

Lemma continuation_send_fails (outcomes : list select_outcome) (k : nat) :
  (0 < k < length request_frames)%nat -> fault_at k (codec t) ->
  exists w',
    ServeHTTP json_Marshal json_Unmarshal w r outcomes =
    (Some (HttpError "tunnel error" StatusBadGateway), w') /\
    exists t', tunnel_heap w' !! ptr = Some t' /\
               streams t' !! request_stream = Some (next_chan (chans w)) /\
               heap (chans w') !! next_chan (chans w) = Some (mkChan [] false).
Proof.
  intros Hk Hfault. rewrite ServeHTTP_send.
  destruct request_frames_shape as (f0 & rest & Efr & Hsid & Hs0 & Hs).
  rewrite Efr in *.
  destruct k as [|k]; [lia|]. cbn [length] in Hk.
  destruct (SendRequest_ok t (chans w) f0 k Hs0 (proj1 Hfault))
    as (t1 & E & Hst & Hopen & Hd).
  cbn [_send_frames]. rewrite E.
  destruct (send_rest_fault (make_chan (chans w)).2 (Some (next_chan (chans w)))
                            rest 0 k t1 Hs ltac:(lia)) as (t2 & E2 & Hst2).
  { eapply fault_later; eassumption. }
  rewrite E2. cbv zeta. eexists. split; [reflexivity|]. exists t2. split; [|split].
  - cbn [with_log with_tunnel tunnel_heap]. apply lookup_insert_eq.
  - rewrite Hst2, Hst, Hsid. apply lookup_insert_eq.
  - cbn [with_log with_tunnel chans make_chan snd heap]. apply lookup_insert_eq.
Qed.

Lemma close_send_fails (outcomes : list select_outcome) :
  fault_at (length request_frames) (codec t) ->
  exists w',
    ServeHTTP json_Marshal json_Unmarshal w r outcomes =
    (_collect_response json_Unmarshal outcomes [], w') /\
    last (log w') = Some "failed to send stream close"%string /\
    exists t', tunnel_heap w' !! ptr = Some t' /\
               streams t' !! request_stream = Some (next_chan (chans w)) /\
               heap (chans w') !! next_chan (chans w) = Some (mkChan [] false).
Proof.
  intros Hfault. rewrite ServeHTTP_send.
  destruct request_frames_shape as (f0 & rest & Efr & Hsid & Hs0 & Hs).
  rewrite Efr in *.
  cbn [length] in Hfault.
  destruct (SendRequest_ok t (chans w) f0 (length rest) Hs0 (proj1 Hfault))
    as (t1 & E & Hst & Hopen & Hd).
  cbn [_send_frames]. rewrite E.
  assert (Hf1 : fault_at (length rest) (codec t1)) by (eapply fault_later; eassumption).
  destruct (send_rest_ok (make_chan (chans w)).2 (Some (next_chan (chans w)))
                         rest 0 0 t1 Hs) as (t2 & E2 & Hst2 & Hopen2 & Hd2).
  { rewrite Nat.add_0_r. exact (proj1 Hf1). }
  rewrite E2. cbv zeta.
  assert (Hf2 : fault_at 0 (codec t2)).
  { split; [split; [exact Hopen2|rewrite take_0; constructor]|].
    rewrite Hd2, lookup_drop, Nat.add_0_r. exact (proj2 Hf1). }
  destruct (fault_now _ close_frame small_close_frame Hf2) as (c' & EW & _).
  unfold SendFrame. rewrite EW.
  eexists. split; [reflexivity|]. split; [|exists (set_codec t2 c'); split; [|split]].
  - cbn [with_log log]. apply last_snoc.
  - cbn [with_log with_tunnel tunnel_heap]. apply lookup_insert_eq.
  - cbn [streams set_codec]. rewrite Hst2, Hst, Hsid. apply lookup_insert_eq.
  - cbn [with_log with_tunnel chans make_chan snd heap]. apply lookup_insert_eq.
Qed.

(** With every write accepted the handler reaches the collection phase,
    the sink registered under the stream id and open. *)
Lemma all_sent (outcomes : list select_outcome) :
  ok_writes (S (length request_frames)) (codec t) ->
  exists w',
    ServeHTTP json_Marshal json_Unmarshal w r outcomes =
    (_collect_response json_Unmarshal outcomes [], w') /\
    exists t', tunnel_heap w' !! ptr = Some t' /\
               streams t' !! request_stream = Some (next_chan (chans w)) /\
               heap (chans w') !! next_chan (chans w) = Some (mkChan [] false).
Proof.
  intros Hok. rewrite ServeHTTP_send.
  destruct request_frames_shape as (f0 & rest & Efr & Hsid & Hs0 & Hs).
  rewrite Efr in *.
  cbn [length] in Hok.
  destruct (SendRequest_ok t (chans w) f0 (S (length rest)) Hs0 Hok)
    as (t1 & E & Hst & Hopen & Hd).
  cbn [_send_frames]. rewrite E.
  assert (Hok1 : ok_writes (length rest + 1) (codec t1)).
  { rewrite Nat.add_1_r. eapply ok_writes_drop; eassumption. }
  destruct (send_rest_ok (make_chan (chans w)).2 (Some (next_chan (chans w)))
                         rest 0 1 t1 Hs Hok1) as (t2 & E2 & Hst2 & Hopen2 & Hd2).
  rewrite E2. cbv zeta.
  assert (Hok2 : ok_writes 1 (codec t2)).
  { split; [exact Hopen2|]. rewrite Hd2. destruct Hok1 as [_ Hall].
    rewrite <- (take_drop (length rest) (faults (codec t1))) in Hall.
    rewrite take_app_ge in Hall by (rewrite length_take; lia).
    apply Forall_app in Hall as [_ Hall].
    eapply Forall_take in Hall. rewrite take_take in Hall.
    eapply Forall_impl; [|intros b Hb; exact Hb].
    replace (take 1 (drop (length rest) (faults (codec t1))))
      with (take (1 `min` (length rest + 1 - length (take (length rest) (faults (codec t1)))))
                 (drop (length rest) (faults (codec t1)))); [exact Hall|].
    f_equal. rewrite length_take. lia. }
  destruct (ok_writes_step 0 (codec t2) close_frame small_close_frame Hok2)
    as (c' & EW & _).
  unfold SendFrame. rewrite EW.
  eexists. split; [reflexivity|]. exists (set_codec t2 c'). split; [|split].
  - cbn [with_log with_tunnel tunnel_heap]. apply lookup_insert_eq.
  - cbn [streams set_codec]. rewrite Hst2, Hst, Hsid. apply lookup_insert_eq.
  - cbn [with_log with_tunnel chans make_chan snd heap]. apply lookup_insert_eq.
Qed.

End Serving.

Section Collecting.
Variable json_Unmarshal : list byte -> option TunnelledResponse.

(** Frames other than [STREAM_CLOSE] keep the collector in its loop; the
    payloads of the [HTTP_RESPONSE] and [BODY_CHUNK] frames among them are
    appended in receive order. *)
Lemma collect_frames (fs : list Frame) : forall (rest : list select_outcome)
                                                (data : list byte),
  Forall (fun f => Type_ f <> TypeStreamClose) fs ->
  _collect_response json_Unmarshal (map RecvFrame fs ++ rest) data =
  _collect_response json_Unmarshal rest (data ++ accumulated fs).
Proof.
  induction fs as [|f fs IH]; intros rest data Hfs.
  - unfold accumulated. cbn. rewrite app_nil_r. reflexivity.
  - apply Forall_cons in Hfs as [Hf Hfs].
    cbn [map app _collect_response]. unfold accumulated, is_data_frame.
    cbn [List.filter].
    destruct (Z.eqb_spec (Type_ f) TypeHTTPResponse) as [E1|N1].
    + cbn [orb map concat]. rewrite IH by exact Hfs.
      unfold accumulated. rewrite app_assoc. reflexivity.
    + destruct (Z.eqb_spec (Type_ f) TypeBodyChunk) as [E2|N2].
      * cbn [orb map concat]. rewrite IH by exact Hfs.
        unfold accumulated. rewrite app_assoc. reflexivity.
      * destruct (Z.eqb_spec (Type_ f) TypeStreamClose) as [E3|N3]; [contradiction|].
        cbn [orb]. apply IH. exact Hfs.
Qed.

Lemma write_response_empty :
  _write_response json_Unmarshal [] =
  HttpError "empty response from backend" StatusBadGateway.
Proof. reflexivity. Qed.

Lemma write_response_decoded (data : list byte) (resp : TunnelledResponse) :
  data <> [] -> json_Unmarshal data = Some resp ->
  100 <= StatusCode resp <= 999 ->
  _write_response json_Unmarshal data =
  HttpWritten (StatusCode resp) (resp_Headers resp) (resp_Body resp).
Proof.
  intros Hne Hr Hst. unfold _write_response.
  destruct (Z.eqb_spec (len data) 0) as [E|_].
  - destruct data; [congruence|]. unfold len in E. simpl in E. lia.
  - rewrite Hr. unfold invalid_WriteHeader_code.
    destruct (Z.ltb_spec (StatusCode resp) 100); [lia|].
    destruct (Z.gtb_spec (StatusCode resp) 999); [lia|]. reflexivity.
Qed.

(** A status code that [WriteHeader] refuses: the handler panics there. *)
Lemma write_response_panics (data : list byte) (resp : TunnelledResponse) :
  data <> [] -> json_Unmarshal data = Some resp ->
  ~ 100 <= StatusCode resp <= 999 ->
  _write_response json_Unmarshal data = HttpPanic (StatusCode resp).
Proof.
  intros Hne Hr Hst. unfold _write_response.
  destruct (Z.eqb_spec (len data) 0) as [E|_].
  - destruct data; [congruence|]. unfold len in E. simpl in E. lia.
  - rewrite Hr. unfold invalid_WriteHeader_code.
    destruct (Z.ltb_spec (StatusCode resp) 100); [reflexivity|].
    destruct (Z.gtb_spec (StatusCode resp) 999); [reflexivity|]. lia.
Qed.

(** Bytes that do not deserialise end in a 502 of their own. *)
Lemma write_response_invalid (data : list byte) :
  data <> [] -> json_Unmarshal data = None ->
  _write_response json_Unmarshal data =
  HttpError "invalid response from backend" StatusBadGateway.
Proof.
  intros Hne Hr. unfold _write_response.
  destruct (Z.eqb_spec (len data) 0) as [E|_].
  - destruct data; [congruence|]. unfold len in E. simpl in E. lia.
  - rewrite Hr. reflexivity.
Qed.

(** Terminals of the response collection.  Let [fs] be the frames
    received before the terminal, none a [STREAM_CLOSE], and [data] the
    bytes accumulated from them.  On a [STREAM_CLOSE] frame the collector
    deserialises [data] as a tunnelled response and, when its status code
    has three digits, writes that status code, its headers and its body;
    empty [data] gives 502 "empty response from backend".  When the
    channel is found closed, empty [data] gives 502 "tunnel closed", and
    non-empty [data] is emitted as the response all the same (lenient
    terminal).  A status code outside 100..999 makes the handler panic in
    [WriteHeader] on both terminals. *)
Theorem collect_terminals (fs : list Frame) (close : Frame)
        (rest : list select_outcome) :
  Forall (fun f => Type_ f <> TypeStreamClose) fs ->
  Type_ close = TypeStreamClose ->
  let data := accumulated fs in
  let on_close :=
    _collect_response json_Unmarshal (map RecvFrame fs ++ RecvFrame close :: rest) [] in
  let on_closed :=
    _collect_response json_Unmarshal (map RecvFrame fs ++ RecvClosed :: rest) [] in
  (data = [] ->
   on_close = Some (HttpError "empty response from backend" 502)) /\
  (forall resp, data <> [] -> json_Unmarshal data = Some resp ->
   100 <= StatusCode resp <= 999 ->
   on_close = Some (HttpWritten (StatusCode resp) (resp_Headers resp) (resp_Body resp))) /\
  (data = [] -> on_closed = Some (HttpError "tunnel closed" 502)) /\
  (forall resp, data <> [] -> json_Unmarshal data = Some resp ->
   100 <= StatusCode resp <= 999 ->
   on_closed = Some (HttpWritten (StatusCode resp) (resp_Headers resp) (resp_Body resp))) /\
  (forall resp, data <> [] -> json_Unmarshal data = Some resp ->
   ~ 100 <= StatusCode resp <= 999 ->
   on_close = Some (HttpPanic (StatusCode resp)) /\
   on_closed = Some (HttpPanic (StatusCode resp))).
Proof.
  intros Hfs Hclose data on_close on_closed. subst on_close on_closed.
  rewrite !collect_frames by exact Hfs. cbn [app]. fold data.
  cbn [_collect_response]. rewrite Hclose.
  change (TypeStreamClose =? TypeHTTPResponse) with false.
  change (TypeStreamClose =? TypeBodyChunk) with false.
  change (TypeStreamClose =? TypeStreamClose) with true. cbv iota.
  assert (Hlen : data <> [] -> (len data =? 0) = false).
  { intros Hne. destruct (Z.eqb_spec (len data) 0) as [E|_]; [|reflexivity].
    destruct data; [congruence|]. unfold len in E. simpl in E. lia. }
  split; [|split; [|split; [|split]]].
  - intros ->. reflexivity.
  - intros resp Hne Hr Hst. f_equal. apply write_response_decoded; assumption.
  - intros ->. reflexivity.
  - intros resp Hne Hr Hst. rewrite (Hlen Hne).
    f_equal. apply write_response_decoded; assumption.
  - intros resp Hne Hr Hst. rewrite (Hlen Hne).
    split; f_equal; apply write_response_panics; assumption.
Qed.

(** The timer ends the collection with a 504 whatever was accumulated. *)
Lemma collect_timeout (fs : list Frame) (rest : list select_outcome) :
  Forall (fun f => Type_ f <> TypeStreamClose) fs ->
  _collect_response json_Unmarshal (map RecvFrame fs ++ TimerFired :: rest) [] =
  Some (HttpError "request timed out" StatusGatewayTimeout).
Proof. intros Hfs. rewrite collect_frames by exact Hfs. reflexivity. Qed.

End Collecting.

(** A response and its serialised form, for the examples. *)
Definition ok_bytes : list byte := [x7b; x7d].
Definition ok_response : TunnelledResponse :=
  {| StatusCode := 200; resp_Headers := ∅; resp_Body := [x68; x69] |}.
Definition decode_ok (data : list byte) : option TunnelledResponse :=
  match data with
  | [b1; b2] => if Byte.eqb b1 x7b && Byte.eqb b2 x7d then Some ok_response else None
  | _ => None
  end.

Lemma collect_terminals_witness :
  _collect_response decode_ok
    [RecvFrame (mkFrame TypeHTTPResponse 1 ok_bytes);
     RecvFrame (mkFrame TypeStreamClose 1 [])] [] =
  Some (HttpWritten 200 ∅ [x68; x69]) /\
  _collect_response decode_ok [RecvFrame (mkFrame TypeStreamClose 1 [])] [] =
  Some (HttpError "empty response from backend" 502) /\
  _collect_response decode_ok [RecvClosed] [] =
  Some (HttpError "tunnel closed" 502) /\
  _collect_response decode_ok
    [RecvFrame (mkFrame TypeHTTPResponse 1 ok_bytes); RecvClosed] [] =
  Some (HttpWritten 200 ∅ [x68; x69]).
Proof.
  pose proof (collect_terminals decode_ok [mkFrame TypeHTTPResponse 1 ok_bytes]
                (mkFrame TypeStreamClose 1 []) []) as H1.
  pose proof (collect_terminals decode_ok [] (mkFrame TypeStreamClose 1 []) []) as H0.
  cbv zeta in H0, H1.
  destruct H1 as (_ & Hw & _ & Hl & _).
  { repeat constructor. discriminate. }
  { reflexivity. }
  destruct H0 as (He & _ & Hc & _).
  { constructor. }
  { reflexivity. }
  split; [|split; [|split]].
  - apply (Hw ok_response); [discriminate|reflexivity|simpl; lia].
  - apply He. reflexivity.
  - apply Hc. reflexivity.
  - apply (Hl ok_response); [discriminate|reflexivity|simpl; lia].
Defined.

(** The JSON text [{"status_code":0}], and what [json.Unmarshal] makes of
    it: the status code 0, no headers, no body. *)
Definition status_zero_bytes : list byte :=
  [x7b; x22; x73; x74; x61; x74; x75; x73; x5f; x63; x6f; x64; x65; x22; x3a; x30; x7d].
Definition status_zero_response : TunnelledResponse :=
  {| StatusCode := 0; resp_Headers := ∅; resp_Body := [] |}.
Definition decode_status_zero (data : list byte) : option TunnelledResponse :=
  if (length data =? length status_zero_bytes)%nat
     && forallb (fun p : byte * byte => Byte.eqb p.1 p.2) (combine data status_zero_bytes)
  then Some status_zero_response else None.

(** C9, on the code -- the agent answers with the tunnelled response
    [{"status_code":0}] and a [STREAM_CLOSE] frame (or closes the channel
    instead).  The collector deserialises the bytes and, instead of
    writing status code, headers and body, panics in [WriteHeader], which
    takes three-digit codes only: nothing is written.  Bytes that do not
    deserialise at all are answered 502 "invalid response from backend" by
    the branch next to it. *)
Theorem collect_status_zero_panics :
  _collect_response decode_status_zero
    [RecvFrame (mkFrame TypeHTTPResponse 1 status_zero_bytes);
     RecvFrame (mkFrame TypeStreamClose 1 [])] [] = Some (HttpPanic 0) /\
  _collect_response decode_status_zero
    [RecvFrame (mkFrame TypeHTTPResponse 1 status_zero_bytes); RecvClosed] []
  = Some (HttpPanic 0) /\
  _collect_response decode_status_zero
    [RecvFrame (mkFrame TypeHTTPResponse 1 [x7b]);
     RecvFrame (mkFrame TypeStreamClose 1 [])] []
  = Some (HttpError "invalid response from backend" 502).
Proof. vm_compute. repeat split. Qed.

(** Send failures of the relay request handler, as the code has them.
    When the connection fails the write of frame [k] of the request
    (frames counted from 0, the final [STREAM_CLOSE] being frame [n]): a
    failure of the first frame, sent through [SendRequest], is answered
    with 502 "tunnel error" and leaves the stream unregistered; a failure
    of a continuation frame, sent through [SendFrame], is answered with 502
    "tunnel error"; a failure of the final [STREAM_CLOSE] frame is logged
    only, and the handler goes on to collect the response. *)
Theorem relay_send_failures
        (json_Marshal : TunnelledRequest -> option (list byte))
        (json_Unmarshal : list byte -> option TunnelledResponse)
        (w : World) (r : Request) (ptr : nat) (p' : Pool nat)
        (req : TunnelledRequest) (payload : list byte) (t : Tunnel)
        (outcomes : list select_outcome) (k : nat) :
  Get (pool w) = (Ok ptr, p') ->
  _build_tunnelled_request r = Ok req ->
  json_Marshal req = Some payload ->
  tunnel_heap w !! ptr = Some t ->
  fault_at k (codec t) ->
  let n := length (request_frames w payload) in
  let res := ServeHTTP json_Marshal json_Unmarshal w r outcomes in
  (k = 0%nat ->
   res.1 = Some (HttpError "tunnel error" 502) /\
   exists t', tunnel_heap res.2 !! ptr = Some t' /\
              streams t' !! request_stream w = None) /\
  ((0 < k < n)%nat -> res.1 = Some (HttpError "tunnel error" 502)) /\
  (k = n ->
   res.1 = _collect_response json_Unmarshal outcomes [] /\
   last (log res.2) = Some "failed to send stream close"%string).
Proof.
  intros HGet HBuild HMarshal HTunnel Hfault n res. subst n res.
  split; [|split].
  - intros ->.
    destruct (first_send_fails json_Marshal json_Unmarshal w r ptr p' req payload t
                HGet HBuild HMarshal HTunnel outcomes Hfault) as (w' & -> & Ht').
    split; [reflexivity|exact Ht'].
  - intros Hk.
    destruct (continuation_send_fails json_Marshal json_Unmarshal w r ptr p' req
                payload t HGet HBuild HMarshal HTunnel outcomes k Hk Hfault)
      as (w' & -> & _).
    reflexivity.
  - intros ->.
    destruct (close_send_fails json_Marshal json_Unmarshal w r ptr p' req payload t
                HGet HBuild HMarshal HTunnel outcomes Hfault) as (w' & -> & Hlog & _).
    split; [reflexivity|exact Hlog].
Qed.

(** A relay with one agent connected, whose connection fails the writes
    marked [true] in [faults]. *)
Definition relay_with_agent (faults : list bool) : World :=
  {| pool := {| tunnels := [0%nat]; counter := 0 |};
     tunnel_heap := {[ 0%nat := {| id := "agent-10.0.0.7:51234";
                                   codec := mkConn [] faults false;
                                   streams := ∅;
                                   done := false |} ]};
     chans := mkChans ∅ 0;
     _stream_counter := 0;
     log := [] |}.

Definition get_hello : Request :=
  {| r_Method := "GET"; r_URL := "/hello"; r_Header := ∅; r_Body := None |}.

Definition encode_ok (req : TunnelledRequest) : option (list byte) := Some ok_bytes.

(** The stream registered for stream id [sid] in the agent's tunnel. *)
Definition registered (w : World) (sid : Z) : option nat :=
  tunnel_heap w !! 0%nat ≫= fun t => streams t !! sid.

Lemma relay_send_failures_witness :
  (ServeHTTP encode_ok decode_ok (relay_with_agent [true]) get_hello []).1 =
  Some (HttpError "tunnel error" 502) /\
  (ServeHTTP encode_ok decode_ok (relay_with_agent [false; true]) get_hello
             [TimerFired]).1 =
  _collect_response decode_ok [TimerFired] [].
Proof.
  assert (Hf0 : fault_at 0 (mkConn [] [true] false)).
  { split; [split; [reflexivity|constructor]|reflexivity]. }
  assert (Hf1 : fault_at 1 (mkConn [] [false; true] false)).
  { split; [split; [reflexivity|repeat constructor]|reflexivity]. }
  split.
  - destruct (relay_send_failures encode_ok decode_ok (relay_with_agent [true])
                get_hello 0%nat {| tunnels := [0%nat]; counter := 1 |}
                (mkTunnelledRequest "GET" "/hello" ∅ []) ok_bytes
                (mkTunnel "agent-10.0.0.7:51234" (mkConn [] [true] false) ∅ false)
                [] 0%nat eq_refl eq_refl eq_refl eq_refl Hf0) as (Hfirst & _ & _).
    apply Hfirst. reflexivity.
  - destruct (relay_send_failures encode_ok decode_ok (relay_with_agent [false; true])
                get_hello 0%nat {| tunnels := [0%nat]; counter := 1 |}
                (mkTunnelledRequest "GET" "/hello" ∅ []) ok_bytes
                (mkTunnel "agent-10.0.0.7:51234" (mkConn [] [false; true] false) ∅ false)
                [TimerFired] 1%nat eq_refl eq_refl eq_refl eq_refl Hf1)
      as (_ & _ & Hclose).
    apply Hclose. reflexivity.
Defined.

(** C3, on the code -- the request frame is written and the write of the
    final [STREAM_CLOSE] frame fails: the handler, instead of answering
    502 and unregistering the sink as it does when the first send fails,
    only logs the failure and goes on to wait for the response; with the
    timer firing next it answers 504, and the sink stays registered and
    its channel open. *)
Lemma stream_close_failure_not_502 :
  let res := ServeHTTP encode_ok decode_ok (relay_with_agent [false; true])
                       get_hello [TimerFired] in
  res.1 = Some (HttpError "request timed out" 504) /\
  log res.2 = ["failed to send stream close"%string] /\
  registered res.2 1 = Some 0%nat /\
  heap (chans res.2) !! 0%nat = Some (mkChan [] false).
Proof. vm_compute. repeat split. Qed.

(** C2, on the code -- the request frame and the [STREAM_CLOSE] frame go
    out, nothing arrives on the response channel and the timer fires: the
    handler answers 504 "request timed out" and returns, with the sink
    still registered under the stream id and its channel still open. *)
Theorem timeout_leaves_sink_registered :
  let res := ServeHTTP encode_ok decode_ok (relay_with_agent []) get_hello
                       [TimerFired] in
  res.1 = Some (HttpError "request timed out" 504) /\
  registered res.2 1 = Some 0%nat /\
  heap (chans res.2) !! 0%nat = Some (mkChan [] false).
Proof. vm_compute. repeat split. Qed.

(** The same for every request: whatever data frames arrive before the
    timer, the handler answers 504 and leaves the sink registered and its
    channel open. *)
Lemma timeout_keeps_sink
      (json_Marshal : TunnelledRequest -> option (list byte))
      (json_Unmarshal : list byte -> option TunnelledResponse)
      (w : World) (r : Request) (ptr : nat) (p' : Pool nat)
      (req : TunnelledRequest) (payload : list byte) (t : Tunnel)
      (fs : list Frame) (rest : list select_outcome) :
  Get (pool w) = (Ok ptr, p') ->
  _build_tunnelled_request r = Ok req ->
  json_Marshal req = Some payload ->
  tunnel_heap w !! ptr = Some t ->
  ok_writes (S (length (request_frames w payload))) (codec t) ->
  Forall (fun f => Type_ f <> TypeStreamClose) fs ->
  exists w',
    ServeHTTP json_Marshal json_Unmarshal w r (map RecvFrame fs ++ TimerFired :: rest) =
    (Some (HttpError "request timed out" 504), w') /\
    exists t', tunnel_heap w' !! ptr = Some t' /\
               streams t' !! request_stream w = Some (next_chan (chans w)) /\
               heap (chans w') !! next_chan (chans w) = Some (mkChan [] false).
Proof.
  intros HGet HBuild HMarshal HTunnel Hok Hfs.
  destruct (all_sent json_Marshal json_Unmarshal w r ptr p' req payload t
              HGet HBuild HMarshal HTunnel (map RecvFrame fs ++ TimerFired :: rest) Hok)
    as (w' & E & Ht').
  exists w'. split; [|exact Ht'].
  rewrite E, collect_timeout by exact Hfs. reflexivity.
Qed.

(** The same slip on the continuation path: when the write of a
    continuation frame fails the handler answers 502 and returns with the
    sink still registered and its channel open. *)
Lemma continuation_failure_keeps_sink :
  let payload := repeat x00 (Z.to_nat 70000) in
  let res := ServeHTTP (fun _ => Some payload) decode_ok
                       (relay_with_agent [false; true]) get_hello [] in
  res.1 = Some (HttpError "tunnel error" 502) /\
  registered res.2 1 = Some 0%nat /\
  heap (chans res.2) !! 0%nat = Some (mkChan [] false).
Proof. vm_compute. repeat split. Qed.

End RelayHandlerFacts.

(** ** More on the frame codec *)

Module ProtocolMore.
Import Bytes BytesFacts Protocol ProtocolFacts RelayTunnel Codec.

Lemma mod_mod_pow (x : Z) : (x mod 2 ^ 64) mod 2 ^ 32 = x mod 2 ^ 32.
Proof.
  apply Z.mod_mod_divide. exists (2 ^ 32). reflexivity.
Qed.

Lemma stream_ids_lookup (n : nat) : forall (c : Z) (k : nat),
  (k < n)%nat -> stream_ids n c !! k = Some ((c + Z.of_nat k + 1) mod 2 ^ 32).
Proof.
  induction n as [|n IH]; intros c k Hk; [lia|].
  cbn [stream_ids NextStreamID]. destruct k as [|k].
  - cbn. rewrite mod_mod_pow. f_equal. f_equal. lia.
  - cbn [lookup list_lookup]. rewrite IH by lia. f_equal.
    rewrite <- (mod_mod_pow (c + Z.of_nat (S k) + 1)).
    rewrite <- (mod_mod_pow ((c + 1) mod 2 ^ 64 + Z.of_nat k + 1)).
    f_equal. rewrite <- Z.add_assoc, Zplus_mod_idemp_l. f_equal. lia.
Qed.

(** X1 -- stream ids: each call of [NextStreamID] gives the id after the
    previous one modulo 2^32, and the ids of two calls less than 2^32
    calls apart differ, whatever the value of the 64-bit counter (its
    wrap-around included). *)
Theorem stream_ids_distinct (n : nat) (c : Z) (i j : nat) (a b : Z) :
  stream_ids n c !! i = Some a ->
  stream_ids n c !! j = Some b ->
  (i < j)%nat -> Z.of_nat j - Z.of_nat i < 2 ^ 32 ->
  a <> b /\ (j = S i -> b = (a + 1) mod 2 ^ 32).
Proof.
  intros Hi Hj Hlt Hclose.
  assert (Hjn : (j < n)%nat).
  { apply lookup_lt_Some in Hj.
    assert (L : forall m d, length (stream_ids m d) = m).
    { induction m as [|m IHm]; intros d; [reflexivity|].
      cbn [stream_ids NextStreamID length]. rewrite IHm. reflexivity. }
    rewrite L in Hj. exact Hj. }
  rewrite stream_ids_lookup in Hi, Hj by lia.
  injection Hi as <-. injection Hj as <-. split.
  - intros E.
    assert (Hd : (Z.of_nat j - Z.of_nat i) mod 2 ^ 32 = 0).
    { replace (Z.of_nat j - Z.of_nat i)
        with ((c + Z.of_nat j + 1) - (c + Z.of_nat i + 1)) by lia.
      rewrite Zminus_mod, E, Z.sub_diag. reflexivity. }
    rewrite Z.mod_small in Hd by lia. lia.
  - intros ->. rewrite Zplus_mod_idemp_l. f_equal. lia.
Qed.

Lemma stream_ids_distinct_witness :
  1 <> 2 /\ (1%nat = 1%nat -> 2 = (1 + 1) mod 2 ^ 32).
Proof.
  apply (stream_ids_distinct 3 0 0 1 1 2); [reflexivity|reflexivity|lia|].
  vm_compute. reflexivity.
Defined.

(** The four bytes of a big-endian word written back are the same. *)
Lemma PutUint32_Uint32 (b0 b1 b2 b3 : byte) :
  PutUint32 (Uint32 [b0; b1; b2; b3]) = [b0; b1; b2; b3].
Proof.
  pose proof (Z_of_byte_range b0). pose proof (Z_of_byte_range b1).
  pose proof (Z_of_byte_range b2). pose proof (Z_of_byte_range b3).
  unfold PutUint32. rewrite Uint32_bytes, !Z.shiftr_div_pow2 by lia.
  change (2 ^ 24) with 16777216. change (2 ^ 16) with 65536. change (2 ^ 8) with 256.
  set (v := Z_of_byte b0 * 16777216 + Z_of_byte b1 * 65536 + Z_of_byte b2 * 256
            + Z_of_byte b3).
  assert (E0 : v / 16777216 = Z_of_byte b0).
  { symmetry. apply Z.div_unique with
      (r := Z_of_byte b1 * 65536 + Z_of_byte b2 * 256 + Z_of_byte b3); unfold v; lia. }
  assert (E1 : v / 65536 = Z_of_byte b0 * 256 + Z_of_byte b1).
  { symmetry. apply Z.div_unique with
      (r := Z_of_byte b2 * 256 + Z_of_byte b3); unfold v; lia. }
  assert (E2 : v / 256 = Z_of_byte b0 * 65536 + Z_of_byte b1 * 256 + Z_of_byte b2).
  { symmetry. apply Z.div_unique with (r := Z_of_byte b3); unfold v; lia. }
  assert (M : forall a b, 0 <= b < 256 -> byte_of_Z (a * 256 + b) = byte_of_Z b).
  { intros a b Hb. unfold byte_of_Z.
    rewrite Z.add_comm, Z.mod_add by lia. reflexivity. }
  rewrite E0, E1, E2.
  replace (Z_of_byte b0 * 65536 + Z_of_byte b1 * 256 + Z_of_byte b2)
    with ((Z_of_byte b0 * 256 + Z_of_byte b1) * 256 + Z_of_byte b2) by lia.
  unfold v.
  replace (Z_of_byte b0 * 16777216 + Z_of_byte b1 * 65536 + Z_of_byte b2 * 256
           + Z_of_byte b3)
    with ((Z_of_byte b0 * 65536 + Z_of_byte b1 * 256 + Z_of_byte b2) * 256
          + Z_of_byte b3) by lia.
  rewrite !M by lia. rewrite !byte_of_Z_of_byte. reflexivity.
Qed.

(** X2 -- decoding then encoding: a frame that [UnmarshalFrame] returns
    always has a type below 256, a 32-bit stream id and a payload of at
    most 65,536 bytes, and [MarshalFrame] turns it back into the bytes it
    was read from (the header and the payload, without trailing bytes). *)
Theorem marshal_unmarshal (buf : list byte) (f : Frame) :
  UnmarshalFrame buf = Ok f ->
  0 <= Type_ f < 256 /\ 0 <= StreamID f < 2 ^ 32 /\
  len (Payload f) <= MaxPayloadSize /\
  MarshalFrame f = Ok (take (9 + length (Payload f)) buf).
Proof.
  intros H.
  destruct (Z.lt_ge_cases (len buf) HeaderSize) as [Hlt|Hge].
  { unfold UnmarshalFrame, _decode_header in H.
    apply Z.ltb_lt in Hlt. rewrite Hlt in H. discriminate. }
  destruct (buffer_header buf Hge) as (t&s0&s1&s2&s3&l0&l1&l2&l3&rest&->).
  rewrite unmarshal_cons_cases in H. cbv zeta in H.
  pose proof (Uint32_range l0 l1 l2 l3) as Hr.
  pose proof (PutUint32_Uint32 l0 l1 l2 l3) as Hput.
  pose proof (PutUint32_Uint32 s0 s1 s2 s3) as Hsid.
  pose proof (Uint32_range s0 s1 s2 s3) as Hsr.
  set (n := Uint32 [l0; l1; l2; l3]) in *.
  set (sid := Uint32 [s0; s1; s2; s3]) in *.
  destruct (Z.gtb_spec n MaxPayloadSize) as [|Hmax]; [discriminate|].
  destruct (Z.ltb_spec (len rest) n) as [|Hlen]; [discriminate|].
  injection H as <-. cbn [Type_ StreamID Payload].
  assert (Hpl : length (take (Z.to_nat n) rest) = Z.to_nat n).
  { rewrite length_take. unfold len in Hlen. lia. }
  split; [apply Z_of_byte_range|]. split; [exact Hsr|].
  split; [unfold len; rewrite Hpl; lia|].
  unfold MarshalFrame. cbn [Payload].
  destruct (Z.gtb_spec (len (take (Z.to_nat n) rest)) MaxPayloadSize) as [Hbig|_].
  { unfold len in Hbig. rewrite Hpl in Hbig. lia. }
  f_equal. unfold _encode_header. cbn [Type_ StreamID Payload].
  rewrite byte_of_Z_of_byte, Hsid.
  unfold len. rewrite Hpl, Z2Nat.id by lia.
  unfold MaxPayloadSize in Hmax. rewrite Z.mod_small by lia. rewrite Hput.
  change (9 + Z.to_nat n)%nat with (S (S (S (S (S (S (S (S (S (Z.to_nat n)))))))))).
  reflexivity.
Qed.

Lemma marshal_unmarshal_witness :
  MarshalFrame (mkFrame 1 42 [x41]) =
  Ok (take (9 + 1) [x01; x00; x00; x00; x2a; x00; x00; x00; x01; x41; x42; x43]).
Proof.
  apply (marshal_unmarshal
           [x01; x00; x00; x00; x2a; x00; x00; x00; x01; x41; x42; x43]
           (mkFrame 1 42 [x41])).
  vm_compute. reflexivity.
Defined.

(** X3 -- writing and reading through the codec: when [WriteFrame]
    succeeds it appends exactly one message to the connection, and
    [ReadFrame] on that message, received as a binary message, returns the
    frame written; a message of any other type is refused, whatever its
    data. *)
Theorem write_then_read (c c' : Conn) (f : Frame) :
  0 <= Type_ f < 256 -> 0 <= StreamID f < 2 ^ 32 ->
  WriteFrame c f = (Ok (), c') ->
  (exists data, written c' = written c ++ [data] /\
                ReadFrame (Some (BinaryMessage, data)) = Ok f) /\
  (forall (msgType : Z) (data : list byte),
      msgType <> BinaryMessage ->
      ReadFrame (Some (msgType, data)) = Err (UnexpectedMessageType msgType)).
Proof.
  intros Ht Hs HW. split.
  - unfold WriteFrame in HW. unfold MarshalFrame in HW.
    destruct (Z.gtb_spec (len (Payload f)) MaxPayloadSize) as [|Hmax]; [discriminate|].
    destruct (conn_closed c); [discriminate|].
    exists (_encode_header f ++ Payload f). split.
    + destruct (faults c) as [|[|] fs]; inversion HW; reflexivity.
    + unfold ReadFrame. change (negb (BinaryMessage =? BinaryMessage)) with false.
      cbv iota. rewrite unmarshal_marshal by assumption. reflexivity.
  - intros msgType data Hne. unfold ReadFrame.
    destruct (Z.eqb_spec msgType BinaryMessage); [contradiction|reflexivity].
Qed.

Lemma write_then_read_witness :
  exists data,
    written (WriteFrame (mkConn [] [] false) (mkFrame TypePing 0 [])).2 = [] ++ [data] /\
    ReadFrame (Some (BinaryMessage, data)) = Ok (mkFrame TypePing 0 []).
Proof.
  apply (write_then_read (mkConn [] [] false) _ (mkFrame TypePing 0 []));
    [unfold TypePing; simpl; lia|simpl; lia|reflexivity].
Defined.

End ProtocolMore.

(** ** More on the agent pool *)

Module RelayPoolMore.
Import RelayPool RelayPoolFacts.

Section PoolMore.
Context {T : Type} `{EqDecision T}.

(** What [Get] returns is in the pool, and [Get] leaves the links alone. *)
Lemma Get_ok_member (p : Pool T) :
  tunnels (Get p).2 = tunnels p /\
  forall t, (Get p).1 = Ok t -> t ∈ tunnels p.
Proof.
  unfold Get. destruct (length (tunnels p) =? 0)%nat.
  - split; [reflexivity|discriminate].
  - cbv zeta.
    destruct (tunnels p !! Z.to_nat (((counter p + 1) mod 2 ^ 64)
                                     mod Z.of_nat (length (tunnels p)))) as [t0|] eqn:E.
    + split; [reflexivity|]. intros t [= <-].
      eapply list_elem_of_lookup_2. exact E.
    + split; [reflexivity|discriminate].
Qed.

(** On a pool that is not empty [Get] returns a link. *)
Lemma Get_nonempty_ok (p : Pool T) :
  tunnels p <> [] -> exists t, (Get p).1 = Ok t.
Proof.
  intros Hne. unfold Get.
  destruct (tunnels p) as [|t0 l] eqn:El; [congruence|].
  change (length (t0 :: l) =? 0)%nat with false. cbv iota zeta.
  destruct ((t0 :: l) !! Z.to_nat (((counter p + 1) mod 2 ^ 64)
                                   mod Z.of_nat (length (t0 :: l)))) as [t|] eqn:E;
    [eauto|].
  apply lookup_ge_None in E.
  assert (0 <= ((counter p + 1) mod 2 ^ 64) mod Z.of_nat (length (t0 :: l))
          < Z.of_nat (length (t0 :: l))).
  { apply Z.mod_pos_bound. cbn [length]. lia. }
  lia.
Qed.

(** [Get] called over and over returns links of the pool only. *)
Lemma GetN_members (n : nat) : forall (p : Pool T) (t : T),
  Ok t ∈ (GetN n p).1 -> t ∈ tunnels p.
Proof.
  induction n as [|n IH]; intros p t; cbn [GetN]; [intros H; inversion H|].
  destruct (Get_ok_member p) as [Htun Hmem].
  destruct (Get p) as [r p1]. cbn [fst snd] in Htun, Hmem.
  specialize (IH p1 t). destruct (GetN n p1) as [rs p2]. cbn [fst] in *.
  rewrite elem_of_cons. intros [<-|Hin]; [apply Hmem; reflexivity|].
  rewrite <- Htun. apply IH. exact Hin.
Qed.

(** X4 -- [Get] is safe: on a pool that is not empty it returns one of the
    links of the pool, whatever the value of the rotation counter (the
    index it computes is never out of range), leaves the links as they
    are and keeps the counter a 64-bit value. *)
Theorem Get_returns_member (p : Pool T) :
  tunnels p <> [] ->
  exists t, (Get p).1 = Ok t /\ t ∈ tunnels p /\
            tunnels (Get p).2 = tunnels p /\
            0 <= counter (Get p).2 < 2 ^ 64.
Proof.
  intros Hne. unfold Get.
  destruct (tunnels p) as [|t0 l] eqn:El; [congruence|].
  change (length (t0 :: l) =? 0)%nat with false. cbv iota zeta.
  set (c := (counter p + 1) mod 2 ^ 64).
  assert (Hc : 0 <= c < 2 ^ 64) by (apply Z.mod_pos_bound; lia).
  assert (Hidx : 0 <= c mod Z.of_nat (length (t0 :: l)) < Z.of_nat (length (t0 :: l))).
  { apply Z.mod_pos_bound. cbn [length]. lia. }
  destruct ((t0 :: l) !! Z.to_nat (c mod Z.of_nat (length (t0 :: l)))) as [t|] eqn:E.
  - exists t. cbn [fst snd tunnels counter]. repeat split; try lia.
    eapply list_elem_of_lookup_2. exact E.
  - apply lookup_ge_None in E. lia.
Qed.

Lemma remove_first_absent (t : T) (l : list T) : t ∉ l -> remove_first t l = l.
Proof.
  induction l as [|x l IH]; intros Hn; [reflexivity|]. cbn [remove_first].
  destruct (decide (x = t)) as [->|_]; [contradiction Hn; left|].
  rewrite IH; [reflexivity|]. intros Hin. apply Hn. right. exact Hin.
Qed.

Lemma remove_first_length (t : T) (l : list T) :
  t ∈ l -> S (length (remove_first t l)) = length l.
Proof.
  induction l as [|x l IH]; intros Hin; [inversion Hin|]. cbn [remove_first].
  destruct (decide (x = t)) as [->|Hne]; [reflexivity|].
  apply elem_of_cons in Hin as [->|Hin]; [congruence|].
  cbn [length]. rewrite IH by exact Hin. reflexivity.
Qed.

Lemma remove_first_other (t t' : T) (l : list T) :
  t' <> t -> (t' ∈ remove_first t l <-> t' ∈ l).
Proof.
  intros Hne. induction l as [|x l IH]; [reflexivity|]. cbn [remove_first].
  destruct (decide (x = t)) as [->|Hx].
  - rewrite elem_of_cons. split; [auto|intros [?|?]; [congruence|assumption]].
  - rewrite !elem_of_cons, IH. reflexivity.
Qed.

Lemma remove_first_NoDup (t : T) (l : list T) :
  NoDup l -> (t ∉ remove_first t l) /\ NoDup (remove_first t l).
Proof.
  induction l as [|x l IH]; intros Hnd; [split; [apply not_elem_of_nil|constructor]|].
  apply NoDup_cons in Hnd as [Hx Hnd]. cbn [remove_first].
  destruct (decide (x = t)) as [->|Hne]; [split; assumption|].
  destruct (IH Hnd) as [Hnot Hnd']. split.
  - rewrite elem_of_cons. intros [?|?]; [congruence|contradiction].
  - apply NoDup_cons. split; [|exact Hnd'].
    intros Hin. apply Hx. apply (remove_first_other t x l); [exact Hne|exact Hin].
Qed.

(** X5 -- [Remove]: removing a link that is not in the pool changes
    nothing; removing one that is makes the pool one link smaller and
    keeps every other link; in a pool of distinct links the removed link
    is gone, so a second [Remove] changes nothing and [Get] does not
    return it any more.  The counter is never touched. *)
Theorem Remove_spec (p : Pool T) (t : T) :
  (t ∉ tunnels p -> Remove p t = p) /\
  (t ∈ tunnels p -> Size (Remove p t) = Size p - 1) /\
  (forall t', t' <> t -> (t' ∈ tunnels (Remove p t) <-> t' ∈ tunnels p)) /\
  counter (Remove p t) = counter p /\
  (NoDup (tunnels p) ->
   (t ∉ tunnels (Remove p t)) /\
   Remove (Remove p t) t = Remove p t /\
   (Get (Remove p t)).1 <> Ok t).
Proof.
  split; [|split; [|split; [|split]]].
  - intros Hn. unfold Remove. rewrite remove_first_absent by exact Hn.
    destruct p; reflexivity.
  - intros Hin. unfold Size, Remove. cbn [tunnels].
    rewrite <- (remove_first_length t (tunnels p) Hin). lia.
  - intros t' Hne. apply remove_first_other. exact Hne.
  - reflexivity.
  - intros Hnd. destruct (remove_first_NoDup t (tunnels p) Hnd) as [Hnot _].
    split; [exact Hnot|]. split.
    + unfold Remove at 1. cbn [tunnels counter].
      rewrite remove_first_absent by exact Hnot. reflexivity.
    + intros E. apply Hnot. apply (Get_ok_member (Remove p t)). exact E.
Qed.

(** X6 -- [Add] and [Remove]: [Add] puts the link at the end of the pool,
    which is one link larger; removing a link just added, when it was not
    in the pool before, gives the pool back as it was. *)
Theorem Add_Remove (p : Pool T) (t : T) :
  Size (Add p t) = Size p + 1 /\
  last (tunnels (Add p t)) = Some t /\
  (forall i t', tunnels p !! i = Some t' -> tunnels (Add p t) !! i = Some t') /\
  (t ∉ tunnels p -> Remove (Add p t) t = p).
Proof.
  split; [|split; [|split]].
  - unfold Size, Add. cbn [tunnels]. rewrite length_app. cbn [length]. lia.
  - unfold Add. cbn [tunnels]. apply last_snoc.
  - intros i t' Hi. unfold Add. cbn [tunnels]. apply lookup_app_l_Some. exact Hi.
  - intros Hn. unfold Remove, Add. cbn [tunnels counter].
    assert (G : forall l : list T, t ∉ l -> remove_first t (l ++ [t]) = l).
    { induction l as [|x l IH]; intros Hl.
      - cbn. destruct (decide (t = t)); [reflexivity|congruence].
      - cbn [app remove_first].
        destruct (decide (x = t)) as [->|_]; [contradiction Hl; left|].
        rewrite IH; [reflexivity|]. intros Hin. apply Hl. right. exact Hin. }
    rewrite G by exact Hn. destruct p; reflexivity.
Qed.

End PoolMore.

Lemma Get_returns_member_witness :
  exists t, (Get (@mkPool nat [10; 11; 12]%nat (2 ^ 64 - 1))).1 = Ok t /\
            t ∈ [10; 11; 12]%nat /\
            tunnels (Get (@mkPool nat [10; 11; 12]%nat (2 ^ 64 - 1))).2
            = [10; 11; 12]%nat /\
            0 <= counter (Get (@mkPool nat [10; 11; 12]%nat (2 ^ 64 - 1))).2 < 2 ^ 64.
Proof.
  apply (Get_returns_member (@mkPool nat [10; 11; 12]%nat (2 ^ 64 - 1))). discriminate.
Defined.

Lemma Remove_spec_witness :
  Size (Remove (@mkPool nat [10; 11; 12]%nat 5) 11%nat) = 3 - 1 /\
  Remove (@mkPool nat [10; 11; 12]%nat 5) 13%nat = @mkPool nat [10; 11; 12]%nat 5 /\
  (Get (Remove (@mkPool nat [10; 11; 12]%nat 5) 11%nat)).1 <> Ok 11%nat.
Proof.
  destruct (Remove_spec (@mkPool nat [10; 11; 12]%nat 5) 11%nat)
    as (_ & Hsize & _ & _ & Hnd).
  destruct (Remove_spec (@mkPool nat [10; 11; 12]%nat 5) 13%nat) as (Habs & _).
  split; [|split].
  - apply Hsize. apply (bool_decide_unpack _). vm_compute. reflexivity.
  - apply Habs. apply (bool_decide_unpack _). vm_compute. reflexivity.
  - apply Hnd. apply (bool_decide_unpack _). vm_compute. reflexivity.
Defined.

Lemma Add_Remove_witness :
  Remove (Add (@mkPool nat [10; 11]%nat 5) 12%nat) 12%nat = @mkPool nat [10; 11]%nat 5.
Proof.
  apply (Add_Remove (@mkPool nat [10; 11]%nat 5) 12%nat).
  apply (bool_decide_unpack _). vm_compute. reflexivity.
Defined.

End RelayPoolMore.

(** ** More on the relay tunnel: the stream registry *)

Module RelayTunnelMore.
Import Protocol ProtocolFacts RelayTunnel RelayTunnelFacts.

Definition close_of (c : Chan) : Chan := mkChan (queue c) true.

(** The channels after every channel of the registry [m] has been closed. *)
Lemma close_all (cs : Chans) (m : gmap Z nat) :
  let cs' := map_fold (fun _ ch acc => close_chan ch acc) cs m in
  next_chan cs' = next_chan cs /\
  forall k : nat,
    (heap cs' !! k = close_of <$> heap cs !! k \/ heap cs' !! k = heap cs !! k) /\
    ((exists sid, m !! sid = Some k) -> heap cs' !! k = close_of <$> heap cs !! k) /\
    ((forall sid, m !! sid <> Some k) -> heap cs' !! k = heap cs !! k).
Proof.
  cbv zeta.
  apply (map_fold_weak_ind
           (fun acc m =>
              next_chan acc = next_chan cs /\
              forall k : nat,
                (heap acc !! k = close_of <$> heap cs !! k \/ heap acc !! k = heap cs !! k) /\
                ((exists sid, m !! sid = Some k) -> heap acc !! k = close_of <$> heap cs !! k) /\
                ((forall sid, m !! sid <> Some k) -> heap acc !! k = heap cs !! k))).
  - split; [reflexivity|]. intros k. split; [right; reflexivity|]. split.
    + intros [sid Hs]. rewrite lookup_empty in Hs. discriminate.
    + reflexivity.
  - intros i x m' acc Hi [Hn IH]. split; [exact Hn|]. intros k.
    unfold close_chan. cbn [heap].
    destruct (decide (k = x)) as [->|Hk].
    + assert (E : alter (fun c => mkChan (queue c) true) x (heap acc) !! x
                  = close_of <$> heap cs !! x).
      { rewrite lookup_alter_eq. destruct (IH x) as ([E|E] & _ & _); rewrite E.
        - destruct (heap cs !! x); reflexivity.
        - reflexivity. }
      split; [left; exact E|]. split; [intros _; exact E|].
      intros Hno. exfalso. apply (Hno i). apply lookup_insert_eq.
    + rewrite lookup_alter_ne by congruence.
      destruct (IH k) as (Hor & Hin & Hout). split; [exact Hor|]. split.
      * intros [sid Hs]. apply Hin. exists sid.
        destruct (decide (i = sid)) as [->|Hne].
        -- rewrite lookup_insert_eq in Hs. congruence.
        -- rewrite lookup_insert_ne in Hs by exact Hne. exact Hs.
      * intros Hno. apply Hout. intros sid Hs. apply (Hno sid).
        destruct (decide (i = sid)) as [->|Hne]; [congruence|].
        rewrite lookup_insert_ne by exact Hne. exact Hs.
Qed.

(** X7 -- [Close]: closing a tunnel that is not yet done sets [done],
    closes the connection, empties the registry and closes every channel
    that was registered, keeping what they have queued; channels that were
    not registered are left alone and nothing is written.  A second
    [Close] changes nothing. *)
Theorem Close_spec (t : Tunnel) (cs : Chans) :
  (done t = false ->
   done (Close t cs).1 = true /\
   streams (Close t cs).1 = ∅ /\
   conn_closed (codec (Close t cs).1) = true /\
   written (codec (Close t cs).1) = written (codec t) /\
   (forall sid ch c,
       streams t !! sid = Some ch -> heap cs !! ch = Some c ->
       heap (Close t cs).2 !! ch = Some (mkChan (queue c) true)) /\
   (forall k, (forall sid, streams t !! sid <> Some k) ->
              heap (Close t cs).2 !! k = heap cs !! k)) /\
  Close (Close t cs).1 (Close t cs).2 = Close t cs.
Proof.
  split.
  - intros Hd. unfold Close. rewrite Hd. cbn [fst snd done streams codec conn_closed written].
    destruct (close_all cs (streams t)) as [_ Hall]. cbv zeta in Hall.
    repeat split.
    + intros sid ch c Hs Hc. destruct (Hall ch) as (_ & Hin & _).
      rewrite Hin by eauto. rewrite Hc. reflexivity.
    + intros k Hno. destruct (Hall k) as (_ & _ & Hout). apply Hout. exact Hno.
  - unfold Close. destruct (done t) eqn:Hd; cbn [fst snd]; [rewrite Hd|]; reflexivity.
Qed.

Lemma Close_spec_witness :
  heap (Close (mkTunnel "a" (mkConn [] [] false) {[ 7 := 0%nat ]} false)
              (mkChans {[ 0%nat := mkChan [mkFrame 2 7 []] false ]} 1)).2 !! 0%nat
  = Some (mkChan [mkFrame 2 7 []] true).
Proof.
  destruct (Close_spec (mkTunnel "a" (mkConn [] [] false) {[ 7 := 0%nat ]} false)
              (mkChans {[ 0%nat := mkChan [mkFrame 2 7 []] false ]} 1))
    as [Hclose _].
  destruct (Hclose eq_refl) as (_ & _ & _ & _ & Hreg & _).
  apply (Hreg 7 0%nat (mkChan [mkFrame 2 7 []] false)); reflexivity.
Defined.

(** What the tunnel code keeps true of a tunnel and the channels:
    every registered stream has a channel of its own, which exists and is
    open; channels are allocated below [next_chan]; a tunnel that is done
    has an empty registry and a closed connection. *)
Record registry_ok (t : Tunnel) (cs : Chans) : Prop := mkRegistryOk {
  reg_open : forall sid ch, streams t !! sid = Some ch ->
                            exists c, heap cs !! ch = Some c /\ closed c = false;
  reg_below : forall k c, heap cs !! k = Some c -> (k < next_chan cs)%nat;
  reg_inj : forall sid1 sid2 ch,
      streams t !! sid1 = Some ch -> streams t !! sid2 = Some ch -> sid1 = sid2;
  reg_done : done t = true -> streams t = ∅ /\ conn_closed (codec t) = true
}.

Lemma registry_ok_set_codec (t : Tunnel) (cs : Chans) (c : Conn) :
  registry_ok t cs -> (done t = true -> conn_closed c = true) ->
  registry_ok (set_codec t c) cs.
Proof.
  intros [Ho Hb Hi Hd] Hc. split; cbn [streams done codec set_codec]; try assumption.
  intros H. split; [apply Hd; exact H|apply Hc; exact H].
Qed.

(** A write leaves a closed connection closed. *)
Lemma WriteFrame_closed (c c' : Conn) (f : Frame) (r : result send_error unit) :
  WriteFrame c f = (r, c') -> conn_closed c = true ->
  conn_closed c' = true /\ r <> Ok ().
Proof.
  unfold WriteFrame. intros H Hc. destruct (MarshalFrame f) as [data|e].
  - rewrite Hc in H. injection H as <- <-. split; [exact Hc|discriminate].
  - injection H as <- <-. split; [exact Hc|discriminate].
Qed.

Lemma registry_ok_remove (t : Tunnel) (cs : Chans) (sid : Z) :
  registry_ok t cs ->
  registry_ok (_remove_stream t cs sid).1 (_remove_stream t cs sid).2.
Proof.
  intros [Ho Hb Hi Hd]. unfold _remove_stream.
  destruct (streams t !! sid) as [ch|] eqn:E; cbn [fst snd]; [|split; assumption].
  split; cbn [streams set_streams done codec close_chan heap next_chan].
  - intros sid' ch' Hs.
    destruct (decide (sid = sid')) as [->|Hne]; [rewrite lookup_delete_eq in Hs; discriminate|].
    rewrite lookup_delete_ne in Hs by exact Hne.
    assert (ch' <> ch) by (intros ->; apply Hne; eapply Hi; eassumption).
    rewrite lookup_alter_ne by congruence. eapply Ho. exact Hs.
  - intros k c Hk. destruct (decide (ch = k)) as [->|Hne].
    + rewrite lookup_alter_eq in Hk. destruct (heap cs !! k) eqn:Ek; [|discriminate].
      eapply Hb. exact Ek.
    + rewrite lookup_alter_ne in Hk by exact Hne. eapply Hb. exact Hk.
  - intros s1 s2 c H1 H2.
    destruct (decide (sid = s1)) as [->|N1]; [rewrite lookup_delete_eq in H1; discriminate|].
    destruct (decide (sid = s2)) as [->|N2]; [rewrite lookup_delete_eq in H2; discriminate|].
    rewrite lookup_delete_ne in H1, H2 by assumption. eapply Hi; eassumption.
  - intros H. destruct (Hd H) as [Hs Hc]. split; [|exact Hc].
    rewrite Hs. apply delete_empty.
Qed.

Lemma registry_ok_SendRequest (t : Tunnel) (cs : Chans) (f : Frame) :
  registry_ok t cs ->
  registry_ok (SendRequest t cs f).1.2 (SendRequest t cs f).2.
Proof.
  intros Hok. unfold SendRequest, make_chan.
  set (ch := next_chan cs).
  set (cs1 := {| heap := <[ch := mkChan [] false]> (heap cs); next_chan := S ch |}).
  set (t1 := set_streams t (<[StreamID f := ch]> (streams t))).
  assert (Hfresh : heap cs !! ch = None).
  { destruct (heap cs !! ch) as [c|] eqn:E; [|reflexivity].
    apply (reg_below _ _ Hok) in E. unfold ch in E. lia. }
  assert (Hreg : forall c,
             (forall sid ch', streams (set_codec t1 c) !! sid = Some ch' ->
                              exists c0, heap cs1 !! ch' = Some c0 /\ closed c0 = false) /\
             (forall k c0, heap cs1 !! k = Some c0 -> (k < next_chan cs1)%nat) /\
             (forall sid1 sid2 ch', streams (set_codec t1 c) !! sid1 = Some ch' ->
                                    streams (set_codec t1 c) !! sid2 = Some ch' ->
                                    sid1 = sid2)).
  { intros c. unfold t1, cs1. cbn [streams set_codec set_streams heap next_chan].
    split; [|split].
    - intros sid ch' Hs. destruct (decide (StreamID f = sid)) as [<-|Hne].
      + rewrite lookup_insert_eq in Hs. injection Hs as <-.
        rewrite lookup_insert_eq. eauto.
      + rewrite lookup_insert_ne in Hs by exact Hne.
        destruct (reg_open _ _ Hok _ _ Hs) as (c0 & Hc0 & Hopen).
        assert (ch' <> ch) by (intros ->; congruence).
        rewrite lookup_insert_ne by congruence. eauto.
    - intros k c0 Hk. destruct (decide (ch = k)) as [<-|Hne]; [lia|].
      rewrite lookup_insert_ne in Hk by exact Hne.
      apply (reg_below _ _ Hok) in Hk. fold ch in Hk. lia.
    - intros s1 s2 ch' H1 H2.
      assert (Hold : forall s, s <> StreamID f ->
                               <[StreamID f := ch]> (streams t) !! s = Some ch' -> ch' <> ch).
      { intros s Hs Hl. rewrite lookup_insert_ne in Hl by congruence.
        destruct (reg_open _ _ Hok _ _ Hl) as (c0 & Hc0 & _). intros ->. congruence. }
      destruct (decide (s1 = StreamID f)) as [->|N1];
        destruct (decide (s2 = StreamID f)) as [->|N2]; [reflexivity| | |].
      + rewrite lookup_insert_eq in H1. injection H1 as <-.
        exfalso. apply (Hold s2 N2 H2). reflexivity.
      + rewrite lookup_insert_eq in H2. injection H2 as <-.
        exfalso. apply (Hold s1 N1 H1). reflexivity.
      + rewrite lookup_insert_ne in H1, H2 by congruence.
        eapply (reg_inj _ _ Hok); eassumption. }
  destruct (WriteFrame (codec t1) f) as [[u|e] c] eqn:EW.
  - cbn [fst snd]. destruct (Hreg c) as (H1 & H2 & H3).
    split; try assumption. unfold t1. cbn [done set_codec set_streams]. intros Hd.
    destruct (reg_done _ _ Hok Hd) as [_ Hc].
    destruct (WriteFrame_closed _ _ _ _ EW Hc) as [_ Hne]. destruct u. congruence.
  - assert (Hok2 : registry_ok (set_codec t1 c) cs1 \/ done t = true).
    { destruct (done t) eqn:Hd; [right; reflexivity|left].
      destruct (Hreg c) as (H1 & H2 & H3). split; try assumption.
      unfold t1. cbn [done set_codec set_streams]. congruence. }
    destruct (_remove_stream (set_codec t1 c) cs1 (StreamID f)) as [t2 cs2] eqn:ER.
    cbn [fst snd].
    destruct Hok2 as [Hok2|Hd].
    + pose proof (registry_ok_remove _ _ (StreamID f) Hok2) as H. rewrite ER in H. exact H.
    + destruct (reg_done _ _ Hok Hd) as [Hs Hc].
      destruct (WriteFrame_closed _ _ _ _ EW Hc) as [Hc' _].
      unfold _remove_stream, t1 in ER. cbn [streams set_codec set_streams] in ER.
      rewrite lookup_insert_eq in ER. injection ER as <- <-.
      destruct (Hreg c) as (H1 & H2 & H3).
      unfold cs1.
      split; cbn [streams set_streams set_codec done codec close_chan heap next_chan].
      * intros sid ch' Hl. rewrite Hs, delete_insert_eq, delete_empty, lookup_empty in Hl.
        discriminate.
      * intros k c0 Hk. destruct (decide (ch = k)) as [<-|Hne]; [lia|].
        rewrite lookup_alter_ne, lookup_insert_ne in Hk by exact Hne.
        apply (reg_below _ _ Hok) in Hk. fold ch in Hk. lia.
      * intros s1 s2 ch' Hl. rewrite Hs, delete_insert_eq, delete_empty, lookup_empty in Hl.
        discriminate.
      * intros _. split; [|exact Hc'].
        rewrite Hs, delete_insert_eq, delete_empty. reflexivity.
Qed.


Lemma registry_ok_SendFrame (t : Tunnel) (cs : Chans) (f : Frame) :
  registry_ok t cs -> registry_ok (SendFrame t f).2 cs.
Proof.
  intros Hok. unfold SendFrame.
  destruct (WriteFrame (codec t) f) as [r c] eqn:EW. cbn [snd].
  apply registry_ok_set_codec; [exact Hok|].
  intros Hd. destruct (reg_done _ _ Hok Hd) as [_ Hc].
  apply (WriteFrame_closed _ _ _ _ EW Hc).
Qed.

Lemma registry_ok_Close (t : Tunnel) (cs : Chans) :
  registry_ok t cs -> registry_ok (Close t cs).1 (Close t cs).2.
Proof.
  intros Hok. unfold Close. destruct (done t) eqn:Hd; [exact Hok|]. cbn [fst snd].
  destruct (close_all cs (streams t)) as [Hn Hall]. cbv zeta in Hn, Hall.
  split; cbn [streams done codec conn_closed].
  - intros sid ch Hs. rewrite lookup_empty in Hs. discriminate.
  - intros k c Hk. rewrite Hn. destruct (Hall k) as ([E|E] & _ & _); rewrite E in Hk.
    + destruct (heap cs !! k) as [c0|] eqn:Ek; [|discriminate].
      eapply (reg_below _ _ Hok). exact Ek.
    + eapply (reg_below _ _ Hok). exact Hk.
  - intros s1 s2 ch Hs. rewrite lookup_empty in Hs. discriminate.
  - auto.
Qed.

Lemma registry_ok_enqueue (t : Tunnel) (cs : Chans) (ch : nat) (f : Frame) :
  registry_ok t cs -> registry_ok t (enqueue ch f cs).
Proof.
  intros [Ho Hb Hi Hd]. split; try assumption; unfold enqueue; cbn [heap next_chan].
  - intros sid ch' Hs. destruct (Ho _ _ Hs) as (c & Hc & Hopen).
    destruct (decide (ch = ch')) as [->|Hne].
    + rewrite lookup_alter_eq, Hc. cbn. eauto.
    + rewrite lookup_alter_ne by exact Hne. eauto.
  - intros k c Hk. destruct (decide (ch = k)) as [->|Hne].
    + rewrite lookup_alter_eq in Hk. destruct (heap cs !! k) eqn:Ek; [|discriminate].
      eapply Hb. exact Ek.
    + rewrite lookup_alter_ne in Hk by exact Hne. eapply Hb. exact Hk.
Qed.

Lemma registry_ok_dispatch (t : Tunnel) (cs : Chans) (frame : Frame) :
  registry_ok t cs ->
  registry_ok (_read_loop_dispatch t cs frame).1.1.2
              (_read_loop_dispatch t cs frame).1.2.
Proof.
  intros Hok. unfold _read_loop_dispatch.
  destruct (Type_ frame =? TypePong); [exact Hok|].
  destruct ((Type_ frame =? TypeHTTPResponse) || (Type_ frame =? TypeBodyChunk)
            || (Type_ frame =? TypeStreamClose)); [|exact Hok].
  destruct (streams t !! StreamID frame) as [ch|]; [|exact Hok].
  destruct (done t) eqn:Hd.
  - pose proof (registry_ok_Close t cs Hok) as H.
    destruct (Close t cs) as [t' cs']. exact H.
  - destruct (is_full ch cs); [exact Hok|].
    pose proof (registry_ok_enqueue t cs ch frame Hok) as He.
    destruct (Type_ frame =? TypeStreamClose); [|exact He].
    pose proof (registry_ok_remove t (enqueue ch frame cs) (StreamID frame) He) as H.
    destruct (_remove_stream t (enqueue ch frame cs) (StreamID frame)) as [t2 cs2].
    exact H.
Qed.

(** X8 -- the stream registry invariant.  Every registered stream has a
    channel of its own that exists and is open, and a tunnel that is done
    has an empty registry and a closed connection.  This is kept by
    [SendRequest], [SendFrame], [_remove_stream], [Close], every turn of
    [_read_loop] and every tick of [_ping_loop]. *)
Theorem registry_invariant (t : Tunnel) (cs : Chans) (f : Frame) (sid : Z) :
  registry_ok t cs ->
  registry_ok (SendRequest t cs f).1.2 (SendRequest t cs f).2 /\
  registry_ok (SendFrame t f).2 cs /\
  registry_ok (_remove_stream t cs sid).1 (_remove_stream t cs sid).2 /\
  registry_ok (Close t cs).1 (Close t cs).2 /\
  registry_ok (_read_loop_dispatch t cs f).1.1.2 (_read_loop_dispatch t cs f).1.2 /\
  registry_ok (_read_loop_error t cs).1.1.2 (_read_loop_error t cs).1.2 /\
  registry_ok (_ping_loop_tick t cs).1.1.2 (_ping_loop_tick t cs).1.2.
Proof.
  intros Hok.
  split; [apply registry_ok_SendRequest; exact Hok|].
  split; [apply registry_ok_SendFrame; exact Hok|].
  split; [apply registry_ok_remove; exact Hok|].
  split; [apply registry_ok_Close; exact Hok|].
  split; [apply registry_ok_dispatch; exact Hok|].
  split.
  - unfold _read_loop_error. pose proof (registry_ok_Close t cs Hok) as H.
    destruct (Close t cs) as [t' cs']. exact H.
  - unfold _ping_loop_tick.
    destruct (WriteFrame (codec t) (mkFrame TypePing 0 [])) as [[u|e] c] eqn:EW.
    + cbn [fst snd]. apply registry_ok_set_codec; [exact Hok|].
      intros Hd. destruct (reg_done _ _ Hok Hd) as [_ Hc].
      apply (WriteFrame_closed _ _ _ _ EW Hc).
    + assert (Hok' : registry_ok (set_codec t c) cs).
      { apply registry_ok_set_codec; [exact Hok|].
        intros Hd. destruct (reg_done _ _ Hok Hd) as [_ Hc].
        apply (WriteFrame_closed _ _ _ _ EW Hc). }
      pose proof (registry_ok_Close _ cs Hok') as H.
      destruct (Close (set_codec t c) cs) as [t' cs']. exact H.
Qed.

(** A tunnel as [NewTunnel] makes it has nothing registered. *)
Lemma registry_ok_new (tunnelID : string) (c : Conn) (cs : Chans) :
  (forall k ch, heap cs !! k = Some ch -> (k < next_chan cs)%nat) ->
  registry_ok (mkTunnel tunnelID c ∅ false) cs.
Proof.
  intros Hb. split; cbn [streams done]; [| exact Hb | |discriminate].
  - intros sid ch Hs. rewrite lookup_empty in Hs. discriminate.
  - intros s1 s2 ch Hs. rewrite lookup_empty in Hs. discriminate.
Qed.

Lemma registry_invariant_witness :
  registry_ok
    (SendRequest (mkTunnel "a" (mkConn [] [] false) ∅ false) (mkChans ∅ 0)
                 (mkFrame TypeHTTPRequest 1 [])).1.2
    (SendRequest (mkTunnel "a" (mkConn [] [] false) ∅ false) (mkChans ∅ 0)
                 (mkFrame TypeHTTPRequest 1 [])).2.
Proof.
  apply (registry_invariant (mkTunnel "a" (mkConn [] [] false) ∅ false) (mkChans ∅ 0)
           (mkFrame TypeHTTPRequest 1 []) 1).
  apply registry_ok_new. intros k ch Hk. cbn [heap] in Hk.
  rewrite lookup_empty in Hk. discriminate.
Defined.

End RelayTunnelMore.

(** ** More on the relay tunnel: the loops *)

Module RelayLoopsMore.
Import Protocol ProtocolFacts RelayTunnel RelayTunnelFacts RelayTunnelMore.
Import RelayHandlerFacts.





(** X10 -- the relay's read loop never writes: whatever frame it reads,
    and also when the read fails, the messages written to the connection
    are the same after the turn as before. *)
Theorem read_loop_never_writes (t : Tunnel) (cs : Chans) (frame : Frame) :
  written (codec (_read_loop_dispatch t cs frame).1.1.2) = written (codec t) /\
  written (codec (_read_loop_error t cs).1.1.2) = written (codec t).
Proof.
  assert (HC : forall t0 cs0, written (codec (Close t0 cs0).1) = written (codec t0)).
  { intros t0 cs0. unfold Close. destruct (done t0); reflexivity. }
  split.
  - unfold _read_loop_dispatch.
    destruct (Type_ frame =? TypePong); [reflexivity|].
    destruct ((Type_ frame =? TypeHTTPResponse) || (Type_ frame =? TypeBodyChunk)
              || (Type_ frame =? TypeStreamClose)); [|reflexivity].
    destruct (streams t !! StreamID frame) as [ch|] eqn:Hs; [|reflexivity].
    destruct (done t) eqn:Hd.
    + specialize (HC t cs). destruct (Close t cs) as [t' cs']. exact HC.
    + destruct (is_full ch cs); [reflexivity|].
      destruct (Type_ frame =? TypeStreamClose); [|reflexivity].
      unfold _remove_stream. rewrite Hs. reflexivity.
  - unfold _read_loop_error. specialize (HC t cs).
    destruct (Close t cs) as [t' cs']. exact HC.
Qed.

(** X11 -- one tick of the relay's ping loop: when the connection takes
    the write, exactly one message goes out, the 9-byte [PING] frame on
    stream 0 with no payload, and the registry and the channels are left
    as they are; when the write fails, the loop returns with the tunnel
    closed: done, the registry empty, and nothing written. *)
Theorem ping_tick (t : Tunnel) (cs : Chans) :
  (ok_writes 1 (codec t) ->
   exists t',
     _ping_loop_tick t cs = (Continue, t', cs, []) /\
     written (codec t') =
     written (codec t) ++ [[x05; x00; x00; x00; x00; x00; x00; x00; x00]] /\
     streams t' = streams t /\ done t' = done t) /\
  (fault_at 0 (codec t) -> done t = false ->
   exists t' cs',
     _ping_loop_tick t cs = (Return, t', cs', [log_ping_failed]) /\
     done t' = true /\ streams t' = ∅ /\
     written (codec t') = written (codec t)).
Proof.
  assert (Hsmall : small (mkFrame TypePing 0 [])).
  { unfold small, len, MaxPayloadSize. simpl. lia. }
  split.
  - intros [Hopen Hf]. unfold _ping_loop_tick, WriteFrame.
    change (MarshalFrame (mkFrame TypePing 0 []))
      with (@Ok codec_error _ [x05; x00; x00; x00; x00; x00; x00; x00; x00]).
    cbv iota. rewrite Hopen. destruct (faults (codec t)) as [|[|] fs].
    + eexists. split; [reflexivity|]. cbn. auto.
    + cbn [take] in Hf. apply Forall_cons in Hf as [Hb _]. discriminate.
    + eexists. split; [reflexivity|]. cbn. auto.
  - intros Hfault Hd. unfold _ping_loop_tick.
    destruct (fault_now _ _ Hsmall Hfault) as (c' & EW & _). rewrite EW.
    assert (Hw : written c' = written (codec t)) by (eapply WriteFrame_err_written; exact EW).
    unfold Close. cbn [done set_codec]. rewrite Hd.
    eexists. eexists. split; [reflexivity|]. cbn. auto.
Qed.

Lemma ping_tick_witness :
  exists t',
    _ping_loop_tick (mkTunnel "a" (mkConn [] [] false) ∅ false) (mkChans ∅ 0) =
    (Continue, t', mkChans ∅ 0, []) /\
    written (codec t') = [] ++ [[x05; x00; x00; x00; x00; x00; x00; x00; x00]] /\
    streams t' = ∅ /\ done t' = false.
Proof.
  destruct (ping_tick (mkTunnel "a" (mkConn [] [] false) ∅ false) (mkChans ∅ 0))
    as [Hok _].
  apply Hok. split; [reflexivity|constructor].
Defined.

(** X12 -- closed is closed: on a tunnel that has been closed every send
    fails and writes nothing; [SendRequest] leaves the registry empty and
    the channel it made closed. *)
Theorem send_after_Close (t : Tunnel) (cs : Chans) (f : Frame) :
  done t = false ->
  let t' := (Close t cs).1 in
  let cs' := (Close t cs).2 in
  (exists e, (SendFrame t' f).1 = Err e) /\
  written (codec (SendFrame t' f).2) = written (codec t) /\
  (exists e, (SendRequest t' cs' f).1.1 = Err e) /\
  streams (SendRequest t' cs' f).1.2 = ∅ /\
  written (codec (SendRequest t' cs' f).1.2) = written (codec t) /\
  heap (SendRequest t' cs' f).2 !! next_chan cs' = Some (mkChan [] true).
Proof.
  intros Hd t' cs'. subst t' cs'. unfold Close. rewrite Hd. cbn [fst snd].
  set (tc := {| id := id t;
                codec := {| written := written (codec t); faults := faults (codec t);
                            conn_closed := true |};
                streams := ∅; done := true |}).
  set (csc := map_fold (fun _ ch acc => close_chan ch acc) cs (streams t)).
  assert (HW : forall c, conn_closed c = true ->
                         exists e, WriteFrame c f = (Err e, c)).
  { intros c Hc. unfold WriteFrame. destruct (MarshalFrame f); rewrite ?Hc; eauto. }
  destruct (HW (codec tc) eq_refl) as (e & EW).
  repeat split.
  - exists e. unfold SendFrame. rewrite EW. reflexivity.
  - unfold SendFrame. rewrite EW. reflexivity.
  - exists e. unfold SendRequest, make_chan. cbn [codec set_streams]. rewrite EW.
    unfold _remove_stream. cbn [streams set_codec set_streams].
    rewrite lookup_insert_eq. reflexivity.
  - unfold SendRequest, make_chan. cbn [codec set_streams]. rewrite EW.
    unfold _remove_stream. cbn [streams set_codec set_streams].
    rewrite lookup_insert_eq. cbn [fst snd streams set_streams].
    unfold tc. cbn [streams]. rewrite delete_insert_eq. apply delete_empty.
  - unfold SendRequest, make_chan. cbn [codec set_streams]. rewrite EW.
    unfold _remove_stream. cbn [streams set_codec set_streams].
    rewrite lookup_insert_eq. reflexivity.
  - unfold SendRequest, make_chan. cbn [codec set_streams]. rewrite EW.
    unfold _remove_stream. cbn [streams set_codec set_streams].
    rewrite lookup_insert_eq. cbn [fst snd close_chan heap].
    rewrite lookup_alter_eq, lookup_insert_eq. reflexivity.
Qed.

Lemma send_after_Close_witness :
  exists e,
    (SendFrame (Close (mkTunnel "a" (mkConn [] [] false) ∅ false) (mkChans ∅ 0)).1
               (mkFrame TypePing 0 [])).1 = Err e.
Proof.
  apply (send_after_Close (mkTunnel "a" (mkConn [] [] false) ∅ false) (mkChans ∅ 0)
           (mkFrame TypePing 0 []) eq_refl).
Defined.

End RelayLoopsMore.

(** ** More on the relay request handler *)

Module RelayHandlerMore.
Import Protocol ProtocolFacts RelayPool RelayTunnel RelayTunnelFacts RelayHandler.
Import FragmentationFacts RelayHandlerFacts.

(** The binary message of a frame. *)
Definition message (f : Frame) : list byte := _encode_header f ++ Payload f.

Lemma WriteFrame_written (c : Conn) (f : Frame) (k : nat) :
  small f -> ok_writes (S k) c ->
  exists c', WriteFrame c f = (Ok (), c') /\ conn_closed c' = false /\
             faults c' = drop 1 (faults c) /\
             written c' = written c ++ [message f].
Proof.
  intros Hs [Hopen Hf]. unfold WriteFrame, MarshalFrame.
  destruct (Z.gtb_spec (len (Payload f)) MaxPayloadSize); [unfold small in Hs; lia|].
  rewrite Hopen. destruct (faults c) as [|[|] fs] eqn:E.
  - eexists. split; [reflexivity|]. auto.
  - cbn [take] in Hf. apply Forall_cons in Hf as [Hb _]. discriminate.
  - eexists. split; [reflexivity|]. auto.
Qed.

Lemma send_rest_written (cs : Chans) (rch : option nat) (frames : list Frame) :
  forall (i m : nat) (t : Tunnel),
    Forall small frames -> ok_writes (length frames + m) (codec t) ->
    exists t',
      _send_frames (S i) frames t cs rch = (Ok rch, t', cs) /\
      streams t' = streams t /\ done t' = done t /\
      ok_writes m (codec t') /\
      written (codec t') = written (codec t) ++ map message frames.
Proof.
  induction frames as [|f frames IH]; intros i m t Hs Hok.
  - exists t. cbn. rewrite app_nil_r. auto.
  - apply Forall_cons in Hs as [Hf Hs]. cbn [length Nat.add] in Hok.
    destruct (WriteFrame_written _ f _ Hf Hok) as (c' & EW & Hopen' & Hd & Hw).
    cbn [_send_frames]. unfold SendFrame. rewrite EW.
    destruct (IH (S i) m (set_codec t c')) as (t' & E & Hst & Hdn & Hok' & Hw').
    + exact Hs.
    + cbn [codec set_codec]. eapply ok_writes_drop; eassumption.
    + exists t'. rewrite E. cbn [codec set_codec streams done] in *.
      repeat split; try assumption; try apply Hok'.
      rewrite Hw', Hw, <- app_assoc. reflexivity.
Qed.

Section Serving.
Variable json_Marshal : TunnelledRequest -> option (list byte).
Variable json_Unmarshal : list byte -> option TunnelledResponse.

(** X13 -- errors before anything is sent.  With no agent in the pool the
    handler answers 502 "no backend agents connected"; when the request
    body cannot be read or the request cannot be serialised it answers 500
    "internal error".  In all three cases no stream id is drawn, no tunnel
    and no channel is touched; with no agent the rotation counter is not
    advanced either. *)
Theorem ServeHTTP_early_errors (w : World) (r : Request)
        (outcomes : list select_outcome) :
  let res := ServeHTTP json_Marshal json_Unmarshal w r outcomes in
  (tunnels (pool w) = [] ->
   res.1 = Some (HttpError "no backend agents connected" 502) /\
   pool res.2 = pool w) /\
  (tunnels (pool w) <> [] ->
   _build_tunnelled_request r = Err () \/
   (exists req, _build_tunnelled_request r = Ok req /\ json_Marshal req = None) ->
   res.1 = Some (HttpError "internal error" 500)) /\
  (tunnels (pool w) = [] \/
   _build_tunnelled_request r = Err () \/
   (exists req, _build_tunnelled_request r = Ok req /\ json_Marshal req = None) ->
   tunnel_heap res.2 = tunnel_heap w /\ chans res.2 = chans w /\
   _stream_counter res.2 = _stream_counter w).
Proof.
  cbv zeta. unfold ServeHTTP. split; [|split].
  - intros Hempty. unfold Get. rewrite Hempty. cbn. destruct (pool w); auto.
  - intros Hne Herr.
    destruct (RelayPoolMore.Get_nonempty_ok (pool w) Hne) as (ptr & E).
    destruct (Get (pool w)) as [[ptr'|e] p']; [|discriminate].
    destruct Herr as [Hb|(req & Hb & Hm)].
    + rewrite Hb. reflexivity.
    + rewrite Hb, Hm. reflexivity.
  - intros [Hempty|Herr].
    + unfold Get. rewrite Hempty. cbn. auto.
    + destruct (Get (pool w)) as [[ptr'|e] p']; [|cbn; auto].
      destruct Herr as [Hb|(req & Hb & Hm)].
      * rewrite Hb. cbn. auto.
      * rewrite Hb, Hm. cbn. auto.
Qed.

Variables (w : World) (r : Request) (ptr : nat) (p' : Pool nat).
Variables (req : TunnelledRequest) (payload : list byte) (t : Tunnel).

Hypothesis HGet : Get (pool w) = (Ok ptr, p').
Hypothesis HBuild : _build_tunnelled_request r = Ok req.
Hypothesis HMarshal : json_Marshal req = Some payload.
Hypothesis HTunnel : tunnel_heap w !! ptr = Some t.

(** What a request puts on the wire when every write is taken. *)
Lemma request_on_wire (outcomes : list select_outcome) :
  ok_writes (S (length (request_frames w payload))) (codec t) ->
  exists w' t',
    ServeHTTP json_Marshal json_Unmarshal w r outcomes =
    (_collect_response json_Unmarshal outcomes [], w') /\
    tunnel_heap w' !! ptr = Some t' /\
    written (codec t') =
    written (codec t) ++ map message (request_frames w payload)
                      ++ [message (close_frame w)] /\
    pool w' = p' /\
    _stream_counter w' = (_stream_counter w + 1) mod 2 ^ 64 /\
    log w' = log w.
Proof.
  intros Hok.
  rewrite (ServeHTTP_send json_Marshal json_Unmarshal w r ptr p' req payload t
             HGet HBuild HMarshal HTunnel).
  destruct (request_frames_shape w payload) as (f0 & rest & Efr & Hsid & Hs0 & Hs).
  rewrite Efr in *. cbn [length] in Hok.
  destruct (WriteFrame_written (codec t) f0 _ Hs0 Hok) as (c1 & EW & Hopen1 & Hd1 & Hw1).
  cbn [_send_frames]. unfold SendRequest, make_chan. cbn [codec set_streams]. rewrite EW.
  set (t1 := set_codec (set_streams t (<[StreamID f0 := next_chan (chans w)]> (streams t))) c1).
  assert (Hok1 : ok_writes (length rest + 1) (codec t1)).
  { rewrite Nat.add_1_r. unfold t1. cbn [codec set_codec].
    eapply ok_writes_drop; eassumption. }
  destruct (send_rest_written
              {| heap := <[next_chan (chans w) := mkChan [] false]> (heap (chans w));
                 next_chan := S (next_chan (chans w)) |}
              (Some (next_chan (chans w))) rest 0 1 t1 Hs Hok1)
    as (t2 & E2 & Hst2 & Hdn2 & Hok2 & Hw2).
  rewrite E2. cbv zeta.
  destruct (WriteFrame_written (codec t2) (close_frame w) 0 (small_close_frame w) Hok2)
    as (c3 & EW3 & _ & _ & Hw3).
  unfold SendFrame. rewrite EW3.
  eexists. exists (set_codec t2 c3). split; [reflexivity|].
  cbn [with_tunnel with_stream_counter with_pool tunnel_heap pool _stream_counter log
       codec set_codec].
  split; [apply lookup_insert_eq|]. split; [|auto].
  rewrite Hw3, Hw2. unfold t1. cbn [codec set_codec]. rewrite Hw1.
  cbn [map]. rewrite <- !app_assoc. reflexivity.
Qed.

End Serving.

(** X14 -- what a request puts on the wire.  When a tunnel is selected,
    the request serialises and the connection takes every write, the
    handler writes to that tunnel's connection exactly the messages of the
    request frames, in order, followed by the message of a [STREAM_CLOSE]
    frame of the same stream id; the payloads of the request frames
    concatenated are the serialised request; the stream counter is
    advanced by one and nothing is logged. *)
Theorem request_wire
        (json_Marshal : TunnelledRequest -> option (list byte))
        (json_Unmarshal : list byte -> option TunnelledResponse)
        (w : World) (r : Request) (ptr : nat) (p' : Pool nat)
        (req : TunnelledRequest) (payload : list byte) (t : Tunnel)
        (outcomes : list select_outcome) :
  Get (pool w) = (Ok ptr, p') ->
  _build_tunnelled_request r = Ok req ->
  json_Marshal req = Some payload ->
  tunnel_heap w !! ptr = Some t ->
  ok_writes (S (length (request_frames w payload))) (codec t) ->
  let res := ServeHTTP json_Marshal json_Unmarshal w r outcomes in
  exists t',
    tunnel_heap res.2 !! ptr = Some t' /\
    written (codec t') =
    written (codec t) ++ map message (request_frames w payload)
                      ++ [message (mkFrame TypeStreamClose (request_stream w) [])] /\
    concat (map Payload (request_frames w payload)) = payload /\
    _stream_counter res.2 = (_stream_counter w + 1) mod 2 ^ 64 /\
    log res.2 = log w.
Proof.
  intros HGet HBuild HMarshal HTunnel Hok res. subst res.
  destruct (request_on_wire json_Marshal json_Unmarshal w r ptr p' req payload t
              HGet HBuild HMarshal HTunnel outcomes Hok)
    as (w' & t' & -> & Ht & Hw & _ & Hc & Hl).
  exists t'. cbn [snd]. repeat split; try assumption.
  apply (frag_concat _ _ _ _
           (chunk_payload_fragmentation (request_stream w) TypeHTTPRequest payload)).
Qed.

Lemma request_wire_witness :
  exists t',
    tunnel_heap (ServeHTTP encode_ok decode_ok (relay_with_agent []) get_hello
                           [TimerFired]).2 !! 0%nat = Some t' /\
    written (codec t') =
    [] ++ map message (request_frames (relay_with_agent []) ok_bytes)
       ++ [message (mkFrame TypeStreamClose (request_stream (relay_with_agent [])) [])] /\
    concat (map Payload (request_frames (relay_with_agent []) ok_bytes)) = ok_bytes /\
    _stream_counter (ServeHTTP encode_ok decode_ok (relay_with_agent []) get_hello
                               [TimerFired]).2 = (0 + 1) mod 2 ^ 64 /\
    log (ServeHTTP encode_ok decode_ok (relay_with_agent []) get_hello
                   [TimerFired]).2 = [].
Proof.
  apply (request_wire encode_ok decode_ok (relay_with_agent []) get_hello 0%nat
           {| tunnels := [0%nat]; counter := 1 |}
           (mkTunnelledRequest "GET" "/hello" ∅ []) ok_bytes
           (mkTunnel "agent-10.0.0.7:51234" (mkConn [] [] false) ∅ false)
           [TimerFired] eq_refl eq_refl eq_refl eq_refl).
  split; [reflexivity|]. cbn [codec faults]. rewrite take_nil. constructor.
Defined.

Lemma ServeHTTP_early_errors_witness :
  (ServeHTTP encode_ok decode_ok
             (mkWorld {| tunnels := []; counter := 4 |} ∅ (mkChans ∅ 0) 9 [])
             get_hello []).1 = Some (HttpError "no backend agents connected" 502).
Proof.
  destruct (ServeHTTP_early_errors encode_ok decode_ok
              (mkWorld {| tunnels := []; counter := 4 |} ∅ (mkChans ∅ 0) 9 [])
              get_hello []) as (Hempty & _ & _).
  apply Hempty. reflexivity.
Defined.

(** X15 -- headers and body of the tunnelled request: a request whose body
    cannot be read is refused; otherwise the method and the URL are
    copied, a missing body becomes the empty body, and each header is
    forwarded with its first value only, a header without values not at
    all. *)
Theorem build_tunnelled_request_spec (r : Request) :
  (forall e, r_Body r = Some (Err e) -> _build_tunnelled_request r = Err e) /\
  (forall req, _build_tunnelled_request r = Ok req ->
     Method req = r_Method r /\ URL req = r_URL r /\
     (r_Body r = None -> Body req = []) /\
     (forall b, r_Body r = Some (Ok b) -> Body req = b) /\
     (forall k, r_Header r !! k = None -> Headers req !! k = None) /\
     (forall k v vs, r_Header r !! k = Some (v :: vs) -> Headers req !! k = Some v) /\
     (forall k, r_Header r !! k = Some [] -> Headers req !! k = None)).
Proof.
  unfold _build_tunnelled_request. split.
  - intros e ->. reflexivity.
  - intros req H.
    assert (E : req = {| Method := r_Method r; URL := r_URL r;
                         Headers := omap head (r_Header r);
                         Body := match r_Body r with Some (Ok b) => b | _ => [] end |}).
    { destruct (r_Body r) as [[b|e]|]; [|discriminate|]; injection H as <-; reflexivity. }
    subst req. cbn [Method URL Headers Body]. repeat split.
    + intros ->. reflexivity.
    + intros b ->. reflexivity.
    + intros k Hk. rewrite lookup_omap, Hk. reflexivity.
    + intros k v vs Hk. rewrite lookup_omap, Hk. reflexivity.
    + intros k Hk. rewrite lookup_omap, Hk. reflexivity.
Qed.

Lemma build_tunnelled_request_spec_witness :
  exists req,
    _build_tunnelled_request
      (mkRequest "GET" "/x" {[ "Accept"%string := ["a"%string; "b"%string] ]} None)
    = Ok req /\
    Headers req !! "Accept"%string = Some "a"%string.
Proof.
  eexists. split; [reflexivity|].
  destruct (build_tunnelled_request_spec
              (mkRequest "GET" "/x" {[ "Accept"%string := ["a"%string; "b"%string] ]} None))
    as [_ Hreq].
  destruct (Hreq _ eq_refl) as (_ & _ & _ & _ & _ & Hfirst & _).
  apply (Hfirst "Accept"%string "a"%string ["b"%string]). reflexivity.
Defined.

End RelayHandlerMore.

(** ** The agent side: reassembly and answering *)

Module AgentMore.
Import Protocol ProtocolFacts RelayTunnel RelayTunnelFacts RelayHandler.
Import FragmentationFacts RelayHandlerFacts RelayHandlerMore AgentTunnel AgentLoop.

(** A frame that carries request data of stream [sid]. *)
Definition request_frame (sid : Z) (f : Frame) : Prop :=
  StreamID f = sid /\ (Type_ f = TypeHTTPRequest \/ Type_ f = TypeBodyChunk).

Lemma dispatch_request_frame (s : LoopState) (sid : Z) (f : Frame) :
  request_frame sid f ->
  _read_loop_dispatch s f =
  (Next, mkLoopState (codec s)
           (<[sid := default [] (streams s !! sid) ++ Payload f]> (streams s))).
Proof.
  intros [<- Hty]. unfold _read_loop_dispatch.
  destruct Hty as [-> | ->]; reflexivity.
Qed.

Lemma read_loop_request_frames (sid : Z) (frames : list Frame) :
  forall (s : LoopState) (rest : list Frame),
    Forall (request_frame sid) frames -> frames <> [] ->
    _read_loop s (frames ++ rest) =
    let '(steps, s') :=
      _read_loop
        (mkLoopState (codec s)
           (<[sid := default [] (streams s !! sid) ++ concat (map Payload frames)]>
              (streams s))) rest in
    (replicate (length frames) Next ++ steps, s').
Proof.
  induction frames as [|f frames IH]; intros s rest Hall Hne; [congruence|].
  apply Forall_cons in Hall as [Hf Hall].
  cbn [app _read_loop]. rewrite (dispatch_request_frame s sid f Hf).
  destruct frames as [|g frames].
  - cbn [app map concat length replicate]. rewrite app_nil_r.
    destruct (_read_loop _ rest) as [steps s']. reflexivity.
  - rewrite (IH _ rest Hall ltac:(discriminate)).
    cbn [codec streams]. rewrite lookup_insert_eq. cbn [default].
    rewrite insert_insert_eq.
    change (concat (map Payload (f :: g :: frames)))
      with (Payload f ++ concat (map Payload (g :: frames))).
    rewrite app_assoc.
    destruct (_read_loop _ rest) as [steps s']. reflexivity.
Qed.

(** X16 -- the request path end to end: the agent's read loop, reading
    the frames into which the relay chunks a payload, followed by the
    [STREAM_CLOSE] frame of the stream, takes one quiet turn per frame and
    then hands over to [_handle_request] exactly the payload, preceded by
    whatever was buffered for that stream id before; the buffer of the
    stream is gone afterwards and nothing is written. *)
Theorem agent_reassembles (s : LoopState) (sid : Z) (payload : list byte) :
  _read_loop s (_chunk_payload sid TypeHTTPRequest payload
                ++ [mkFrame TypeStreamClose sid []]) =
  (replicate (length (_chunk_payload sid TypeHTTPRequest payload)) Next
   ++ [Spawn sid (default [] (streams s !! sid) ++ payload)],
   mkLoopState (codec s) (delete sid (streams s))).
Proof.
  destruct (chunk_payload_fragmentation sid TypeHTTPRequest payload)
    as [Hne Hsz Hfirst Hrest Hst Hcat].
  assert (Hall : Forall (request_frame sid) (_chunk_payload sid TypeHTTPRequest payload)).
  { destruct (_chunk_payload sid TypeHTTPRequest payload) as [|f0 fs]; [constructor|].
    cbn [head tail fmap option_fmap option_map] in Hfirst, Hrest.
    apply Forall_cons in Hst as [Hs0 Hst]. constructor.
    - split; [exact Hs0|left; congruence].
    - rewrite Forall_forall in *. intros g Hg. split; [apply Hst; exact Hg|].
      right. apply Hrest. exact Hg. }
  rewrite (read_loop_request_frames sid _ s _ Hall Hne), Hcat.
  cbn [_read_loop]. unfold _read_loop_dispatch at 1.
  cbn [Type_ StreamID codec streams].
  change (TypeStreamClose =? TypePing) with false.
  change ((TypeStreamClose =? TypeHTTPRequest) || (TypeStreamClose =? TypeBodyChunk))
    with false.
  change (TypeStreamClose =? TypeStreamClose) with true. cbv iota.
  rewrite lookup_insert_eq, delete_insert_eq. reflexivity.
Qed.

Lemma data_frames_accumulate (frames : list Frame) :
  Forall (fun f => Type_ f = TypeHTTPResponse \/ Type_ f = TypeBodyChunk) frames ->
  Forall (fun f => Type_ f <> TypeStreamClose) frames /\
  accumulated frames = concat (map Payload frames).
Proof.
  induction frames as [|f frames IH]; intros Hall.
  - split; [constructor|reflexivity].
  - apply Forall_cons in Hall as [Hf Hall]. destruct (IH Hall) as [Hn Hacc]. split.
    + constructor; [|exact Hn]. destruct Hf as [-> | ->]; discriminate.
    + unfold accumulated in *. cbn [List.filter].
      assert (is_data_frame f = true) as ->.
      { unfold is_data_frame. destruct Hf as [-> | ->]; reflexivity. }
      cbn [map concat]. rewrite Hacc. reflexivity.
Qed.

(** X17 -- the response path end to end: the relay's collector, receiving
    the frames into which the agent frames a response, followed by a
    [STREAM_CLOSE] frame, writes the response those bytes deserialise to;
    whatever comes after is not looked at. *)
Theorem relay_reassembles (json_Unmarshal : list byte -> option TunnelledResponse)
        (sid : Z) (data : list byte) (rest : list select_outcome) :
  _collect_response json_Unmarshal
    (map RecvFrame (_response_frames sid data)
     ++ RecvFrame (mkFrame TypeStreamClose sid []) :: rest) [] =
  Some (_write_response json_Unmarshal data).
Proof.
  rewrite response_frames_chunk_payload.
  destruct (chunk_payload_fragmentation sid TypeHTTPResponse data)
    as [Hne Hsz Hfirst Hrest Hst Hcat].
  assert (Hall : Forall (fun f => Type_ f = TypeHTTPResponse \/ Type_ f = TypeBodyChunk)
                        (_chunk_payload sid TypeHTTPResponse data)).
  { destruct (_chunk_payload sid TypeHTTPResponse data) as [|f0 fs]; [constructor|].
    cbn [head tail fmap option_fmap option_map] in Hfirst, Hrest.
    constructor; [left; congruence|].
    eapply Forall_impl; [exact Hrest|]. intros g Hg. right. exact Hg. }
  destruct (data_frames_accumulate _ Hall) as [Hn Hacc].
  rewrite collect_frames by exact Hn. rewrite Hacc, Hcat. reflexivity.
Qed.

Lemma write_frames_ok (frames : list Frame) : forall (c : Conn) (m : nat),
  Forall small frames -> ok_writes (length frames + m) c ->
  exists c', write_frames c frames = (Ok (), c') /\ ok_writes m c' /\
             written c' = written c ++ map message frames.
Proof.
  induction frames as [|f frames IH]; intros c m Hs Hok.
  - exists c. cbn. rewrite app_nil_r. auto.
  - apply Forall_cons in Hs as [Hf Hs]. cbn [length Nat.add] in Hok.
    destruct (WriteFrame_written c f _ Hf Hok) as (c' & EW & Hopen & Hd & Hw).
    cbn [write_frames]. unfold AgentTunnel.WriteFrame. rewrite EW.
    destruct (IH c' m Hs) as (c'' & E & Hok' & Hw').
    { eapply ok_writes_drop; eassumption. }
    exists c''. rewrite E. repeat split; try apply Hok'.
    rewrite Hw', Hw, <- app_assoc. reflexivity.
Qed.

Lemma write_frames_fault (frames : list Frame) : forall (c : Conn) (k : nat),
  Forall small frames -> (k < length frames)%nat -> fault_at k c ->
  exists e c', write_frames c frames = (Err e, c') /\
               written c' = written c ++ map message (take k frames).
Proof.
  induction frames as [|f frames IH]; intros c k Hs Hk Hfault; [cbn in Hk; lia|].
  apply Forall_cons in Hs as [Hf Hs]. cbn [write_frames].
  unfold AgentTunnel.WriteFrame. destruct k as [|k].
  - destruct (fault_now c f Hf Hfault) as (c' & EW & _). rewrite EW.
    exists WriteFailed, c'. split; [reflexivity|].
    rewrite (WriteFrame_err_written _ _ _ _ EW). cbn. rewrite app_nil_r. reflexivity.
  - destruct (WriteFrame_written c f _ Hf (proj1 Hfault)) as (c' & EW & Hopen & Hd & Hw).
    rewrite EW.
    destruct (IH c' k Hs) as (e & c'' & E & Hw').
    { cbn [length] in Hk. lia. }
    { eapply fault_later; eassumption. }
    exists e, c''. rewrite E. split; [reflexivity|].
    rewrite Hw', Hw, <- app_assoc. reflexivity.
Qed.

Lemma response_frames_small (sid : Z) (data : list byte) :
  Forall small (_response_frames sid data).
Proof.
  rewrite response_frames_chunk_payload.
  destruct (chunk_payload_fragmentation sid TypeHTTPResponse data) as [_ Hsz _ _ _ _].
  eapply Forall_impl; [exact Hsz|]. intros f Hf. exact Hf.
Qed.

(** X18 -- answering a request.  [_handle_request] answers with the data
    that [HandleRequest] returned or, when that failed, with the
    serialised 502 response "backend error: ..." (and a log line).  When
    the connection takes every write, it writes the messages of the
    response frames in order and then the [STREAM_CLOSE] of the stream.
    When the write of response frame [k] fails, the frames before it are
    all that is written: no further frame and no [STREAM_CLOSE] follow, and
    the failure is logged. *)
Theorem handle_request_writes
        (json_Marshal : TunnelledResponse -> option (list byte))
        (c : Conn) (sid : Z) (handled : result string (list byte)) :
  let data := match handled with
              | Ok d => d
              | Err e => _error_response json_Marshal 502 ("backend error: " ++ e)%string
              end in
  let log0 := match handled with
              | Ok _ => []
              | Err _ => ["failed to handle request"%string]
              end in
  let frames := _response_frames sid data in
  let res := _handle_request json_Marshal c sid handled in
  (ok_writes (S (length frames)) c ->
   written res.1 = written c ++ map message frames
                             ++ [message (mkFrame TypeStreamClose sid [])] /\
   res.2 = log0) /\
  (forall k, (k < length frames)%nat -> fault_at k c ->
   written res.1 = written c ++ map message (take k frames) /\
   res.2 = log0 ++ ["failed to send response frame"%string]).
Proof.
  cbv zeta. unfold _handle_request.
  set (data := match handled with
               | Ok d => d
               | Err e => _error_response json_Marshal 502 ("backend error: " ++ e)%string
               end).
  set (log0 := match handled with
               | Ok _ => []
               | Err _ => ["failed to handle request"%string]
               end).
  assert (E : (match handled with
               | Ok d => (d, [])
               | Err e => (_error_response json_Marshal 502 ("backend error: " ++ e)%string,
                           ["failed to handle request"%string])
               end) = (data, log0)) by (destruct handled; reflexivity).
  rewrite E. clear E.
  pose proof (response_frames_small sid data) as Hs. split.
  - intros Hok.
    destruct (write_frames_ok _ c 1 Hs) as (c' & EW & Hok' & Hw).
    { rewrite Nat.add_1_r. exact Hok. }
    rewrite EW.
    assert (Hsc : small (mkFrame TypeStreamClose sid [])).
    { unfold small, len, MaxPayloadSize. simpl. lia. }
    destruct (WriteFrame_written c' _ 0 Hsc Hok') as (c'' & EW' & _ & _ & Hw').
    unfold AgentTunnel.WriteFrame. rewrite EW'. cbn [fst snd]. split; [|reflexivity].
    rewrite Hw', Hw, <- app_assoc. reflexivity.
  - intros k Hk Hfault.
    destruct (write_frames_fault _ c k Hs Hk Hfault) as (e & c' & EW & Hw).
    rewrite EW. cbn [fst snd]. split; [exact Hw|reflexivity].
Qed.

Lemma handle_request_writes_witness :
  written (_handle_request (fun _ => None) (mkConn [] [] false) 7 (Ok [x7b; x7d])).1 =
  [] ++ map message (_response_frames 7 [x7b; x7d])
     ++ [message (mkFrame TypeStreamClose 7 [])].
Proof.
  apply (handle_request_writes (fun _ => None) (mkConn [] [] false) 7 (Ok [x7b; x7d])).
  split; [reflexivity|]. cbn [faults]. rewrite take_nil. constructor.
Defined.

End AgentMore.

(** ** The agent's supervisor: reconnection and proxy checks *)

Module AgentSupervisorMore.
Import RelayAuth RelayAuthFacts AgentSupervisor.

(** The delay after one more disconnection. *)
Definition next_delay (Max delay : Z) : Z := Z.min (delay * 2) Max.

(** The delay announced at the [k]-th disconnection, counted from 0. *)
Definition backoff (Max R : Z) (k : nat) : Z :=
  if (k =? 0)%nat then R else Z.min (R * 2 ^ Z.of_nat k) Max.

Lemma next_delay_bounds (Max d : Z) :
  0 <= d -> 0 <= Max < 2 ^ 62 -> 0 <= next_delay Max d < 2 ^ 62.
Proof. unfold next_delay. lia. Qed.

Lemma iter_next_delay (Max R : Z) (k : nat) :
  0 <= R -> 0 <= Max -> Nat.iter k (next_delay Max) R = backoff Max R k.
Proof.
  intros HR HM. induction k as [|k IH]; [reflexivity|].
  rewrite Nat.iter_succ, IH. unfold backoff, next_delay.
  change (S k =? 0)%nat with false. cbv iota.
  replace (Z.of_nat (S k)) with (Z.of_nat k + 1) by lia.
  rewrite Z.pow_add_r, Z.pow_1_r by lia.
  destruct (Nat.eqb_spec k 0) as [->|Hk].
  - change (2 ^ Z.of_nat 0) with 1. f_equal; lia.
  - assert (1 <= 2 ^ Z.of_nat k) by (apply Z.lt_pred_le, Z.pow_pos_nonneg; lia).
    destruct (Z.min_spec (R * 2 ^ Z.of_nat k) Max) as [[Hlt ->]|[Hle ->]].
    + f_equal; lia.
    + rewrite Z.min_r by lia. symmetry. apply Z.min_r. nia.
Qed.

Lemma reconnect_loop_step (Max d : Z) (rest : list attempt) :
  0 <= d < 2 ^ 62 ->
  _reconnect_loop Max d (Disconnected :: rest) =
  (d :: (_reconnect_loop Max (next_delay Max d) rest).1,
   (_reconnect_loop Max (next_delay Max d) rest).2).
Proof.
  intros Hd. cbn [_reconnect_loop]. rewrite int64_small by lia.
  assert ((if d * 2 >? Max then Max else d * 2) = next_delay Max d) as ->.
  { unfold next_delay. destruct (Z.gtb_spec (d * 2) Max); lia. }
  destruct (_reconnect_loop Max (next_delay Max d) rest). reflexivity.
Qed.

Lemma reconnect_loop_prefix (Max : Z) (n : nat) : forall (d : Z) (rest : list attempt),
  0 <= d < 2 ^ 62 -> 0 <= Max < 2 ^ 62 ->
  _reconnect_loop Max d (replicate n Disconnected ++ rest) =
  (map (fun k => Nat.iter k (next_delay Max) d) (seq 0 n)
   ++ (_reconnect_loop Max (Nat.iter n (next_delay Max) d) rest).1,
   (_reconnect_loop Max (Nat.iter n (next_delay Max) d) rest).2).
Proof.
  induction n as [|n IH]; intros d rest Hd HM.
  - cbn. destruct (_reconnect_loop Max d rest). reflexivity.
  - cbn [replicate app]. rewrite reconnect_loop_step by exact Hd.
    rewrite IH by (try apply next_delay_bounds; lia).
    cbn [fst snd seq map]. rewrite <- seq_shift, map_map, <- Nat.iter_succ_r.
    assert (map (fun k => Nat.iter k (next_delay Max) (next_delay Max d)) (seq 0 n)
            = map (fun k => Nat.iter (S k) (next_delay Max) d) (seq 0 n)) as ->.
    { apply map_ext. intros k. rewrite Nat.iter_succ_r. reflexivity. }
    reflexivity.
Qed.

(** X19 -- exponential back-off.  With a reconnect delay [R] and a
    maximum [Max] below 2^62 nanoseconds (146 years), the delay announced
    at the first disconnection is [R] itself, also when [R] is above the
    maximum, and at the [k]-th one after it [min (R * 2^k) Max]: the delay
    is never reset.  The loop does not return by itself; cancelled during
    a wait it has announced that wait's delay, cancelled while the tunnel
    runs it announces none. *)
Theorem reconnect_backoff (Max R : Z) (n : nat) (rest : list attempt) :
  0 <= R < 2 ^ 62 -> 0 <= Max < 2 ^ 62 ->
  _reconnect_loop Max R (replicate n Disconnected) =
    (map (backoff Max R) (seq 0 n), false) /\
  _reconnect_loop Max R (replicate n Disconnected ++ CancelledWaiting :: rest) =
    (map (backoff Max R) (seq 0 (S n)), true) /\
  _reconnect_loop Max R (replicate n Disconnected ++ CancelledRunning :: rest) =
    (map (backoff Max R) (seq 0 n), true).
Proof.
  intros HR HM.
  assert (Hmap : forall m, map (fun k => Nat.iter k (next_delay Max) R) (seq 0 m)
                           = map (backoff Max R) (seq 0 m)).
  { intros m. apply map_ext. intros k. apply iter_next_delay; lia. }
  split; [|split].
  - rewrite <- (app_nil_r (replicate n Disconnected)).
    rewrite reconnect_loop_prefix by assumption. cbn [_reconnect_loop fst snd].
    rewrite app_nil_r, Hmap. reflexivity.
  - rewrite reconnect_loop_prefix by assumption. cbn [_reconnect_loop fst snd].
    rewrite seq_S, map_app, Hmap. cbn [map Nat.add].
    rewrite iter_next_delay by lia. reflexivity.
  - rewrite reconnect_loop_prefix by assumption. cbn [_reconnect_loop fst snd].
    rewrite app_nil_r, Hmap. reflexivity.
Qed.

(** The defaults of [LoadConfig]: 2 s, at most 60 s. *)
Lemma reconnect_backoff_witness :
  _reconnect_loop (60 * Second) (2 * Second) (replicate 8 Disconnected) =
  (map (fun s => s * Second) [2; 4; 8; 16; 32; 60; 60; 60], false).
Proof.
  destruct (reconnect_backoff (60 * Second) (2 * Second) 8 [])
    as (H & _); [unfold Second; lia | unfold Second; lia |].
  rewrite H. reflexivity.
Defined.




End AgentSupervisorMore.

(** ** More on tokens *)

Module RelayAuthMore.
Import Bytes GoStrings GoStringsFacts RelayAuth RelayAuthFacts.

Lemma round_length (v : list Z) (kw : Z * Z) :
  length v = 8%nat -> length (Sha256.round v kw) = 8%nat.
Proof.
  destruct v as [|a [|b [|c [|d [|e [|f [|g [|h [|i v]]]]]]]]]; try discriminate.
  reflexivity.
Qed.

Lemma rounds_length (kws : list (Z * Z)) : forall v : list Z,
  length v = 8%nat -> length (fold_left Sha256.round kws v) = 8%nat.
Proof.
  induction kws as [|kw kws IH]; intros v Hv; [exact Hv|].
  cbn [fold_left]. apply IH, round_length, Hv.
Qed.

Lemma block_length (h : list Z) (b : list byte) :
  length h = 8%nat -> length (Sha256.block h b) = 8%nat.
Proof.
  intros Hh. unfold Sha256.block. cbv zeta.
  rewrite length_map, length_combine, rounds_length, Hh by exact Hh. reflexivity.
Qed.

Lemma blocks_length (bs : list (list byte)) : forall h : list Z,
  length h = 8%nat -> length (fold_left Sha256.block bs h) = 8%nat.
Proof.
  induction bs as [|b bs IH]; intros h Hh; [exact Hh|].
  cbn [fold_left]. apply IH, block_length, Hh.
Qed.

Lemma words_length (h : list Z) :
  length (concat (map PutUint32 h)) = (4 * length h)%nat.
Proof.
  induction h as [|x h IH]; [reflexivity|].
  cbn [map concat]. rewrite length_app, IH. cbn [length PutUint32]. lia.
Qed.

(** A SHA-256 digest has 32 bytes. *)
Lemma Sum256_length (msg : list byte) : length (Sha256.Sum256 msg) = 32%nat.
Proof.
  unfold Sha256.Sum256. cbv zeta. rewrite words_length, blocks_length; reflexivity.
Qed.

Lemma EncodeToString_length (src : list byte) :
  String.length (EncodeToString src) = (2 * length src)%nat.
Proof.
  induction src as [|b src IH]; [reflexivity|].
  cbn [EncodeToString String.length length]. rewrite IH. lia.
Qed.

(** The characters [0]..[9] and [a]..[f]. *)
Definition is_hex_digit (c : ascii) : bool :=
  ((48 <=? code c) && (code c <=? 57)) || ((97 <=? code c) && (code c <=? 102)).

Fixpoint all_chars (p : ascii -> bool) (s : string) : bool :=
  match s with
  | EmptyString => true
  | String c rest => p c && all_chars p rest
  end.

Lemma hex_digits_hex (b : byte) :
  is_hex_digit (hex_digit (Z.shiftr (Z_of_byte b) 4)) = true /\
  is_hex_digit (hex_digit (Z.land (Z_of_byte b) 15)) = true.
Proof. destruct b; split; vm_compute; reflexivity. Qed.

Lemma EncodeToString_hex (src : list byte) :
  all_chars is_hex_digit (EncodeToString src) = true.
Proof.
  induction src as [|b src IH]; [reflexivity|].
  destruct (hex_digits_hex b) as [H1 H2].
  cbn [EncodeToString all_chars]. rewrite H1, H2, IH. reflexivity.
Qed.

Lemma format_digits_all (fuel : nat) : forall (u : Z) (acc : string),
  0 <= u -> all_chars is_digit acc = true ->
  all_chars is_digit (format_digits fuel u acc) = true.
Proof.
  induction fuel as [|fuel IH]; intros u acc Hu Hacc; [exact Hacc|].
  rewrite format_digits_S.
  assert (Hd : 0 <= u mod 10 < 10) by (apply Z.mod_pos_bound; lia).
  destruct (char_of_digit (u mod 10) Hd) as [Hdig _].
  assert (Hacc' : all_chars is_digit (String (char_of (48 + u mod 10)) acc) = true).
  { cbn [all_chars]. rewrite Hdig, Hacc. reflexivity. }
  destruct (u <? 10); [exact Hacc'|].
  apply IH; [apply Z.div_pos; lia|exact Hacc'].
Qed.

(** [FormatInt] writes decimal digits, after a minus sign for a negative
    number. *)
Lemma FormatInt_digits (i : Z) :
  exists digits, digits <> EmptyString /\ all_chars is_digit digits = true /\
                 FormatInt i = ((if (i <? 0)%Z then "-" else "") ++ digits)%string.
Proof.
  unfold FormatInt. destruct (Z.ltb_spec i 0) as [Hneg|Hpos].
  - exists (FormatUint (- i)). split; [|split; [|reflexivity]].
    + destruct (FormatUint_head (- i) ltac:(lia)) as (c & rest & -> & _). discriminate.
    + apply format_digits_all; [lia|reflexivity].
  - exists (FormatUint i). split; [|split; [|reflexivity]].
    + destruct (FormatUint_head i Hpos) as (c & rest & -> & _). discriminate.
    + apply format_digits_all; [lia|reflexivity].
Qed.

Lemma count_colons_append (s1 s2 : string) :
  count_colons (s1 ++ s2) = (count_colons s1 + count_colons s2)%nat.
Proof.
  induction s1 as [|c s1 IH]; [reflexivity|].
  rewrite append_cons. cbn [count_colons]. rewrite IH. lia.
Qed.

Lemma GenerateToken_not_empty (now : Z) (secret : string) :
  String.eqb (GenerateToken now secret) "" = false.
Proof.
  destruct (String.eqb_spec (GenerateToken now secret) "") as [E|_]; [|reflexivity].
  apply (f_equal count_colons) in E. unfold GenerateToken in E. cbv zeta in E.
  rewrite !count_colons_append in E. cbn in E. lia.
Qed.

(** The check of a generated token, with the age in nanoseconds. *)
Lemma generated_token_check (now0 now : Z) (secret : string) :
  - 2 ^ 63 <= now0 < 2 ^ 63 -> Z.abs (now - now0) <= 9223372036 ->
  ValidateToken now secret (GenerateToken now0 secret) =
  if Z.abs (now - now0) * Second >? _token_validity
  then Err (TokenExpired (Z.abs (now - now0) * Second)) else Ok ().
Proof.
  intros Hnow0 Hage. unfold GenerateToken. cbv zeta.
  rewrite ValidateToken_parts by apply compute_hmac_no_colon.
  rewrite ParseInt_FormatInt by exact Hnow0. cbv zeta.
  rewrite age_exact by exact Hage.
  unfold hmac_Equal. rewrite String.eqb_refl. reflexivity.
Qed.

(** X21 -- the window of a token.  A token generated at [now0] validates
    under the same secret at [now] exactly when the two times are at most
    300 seconds apart, whichever is the later one (a token from the
    future is as good as one from the past, and 300 s itself is still
    accepted); further apart it fails as expired with the exact age, in
    nanoseconds.  The age must fit 64 bits: at most 9,223,372,036 s. *)
Theorem token_window (now0 now : Z) (secret : string) :
  - 2 ^ 63 <= now0 < 2 ^ 63 -> Z.abs (now - now0) <= 9223372036 ->
  ValidateToken now secret (GenerateToken now0 secret) =
  if Z.abs (now - now0) <=? 300 then Ok ()
  else Err (TokenExpired (Z.abs (now - now0) * Second)).
Proof.
  intros Hnow0 Hage. rewrite generated_token_check by assumption.
  unfold _token_validity, Second.
  destruct (Z.gtb_spec (Z.abs (now - now0) * 1000000000) (5 * 60 * 1000000000)),
           (Z.leb_spec (Z.abs (now - now0)) 300); try reflexivity; lia.
Qed.

Lemma token_window_witness :
  ValidateToken 1700000300 "secret" (GenerateToken 1700000000 "secret") = Ok () /\
  ValidateToken 1699999700 "secret" (GenerateToken 1700000000 "secret") = Ok () /\
  ValidateToken 1700000301 "secret" (GenerateToken 1700000000 "secret") =
  Err (TokenExpired (301 * Second)).
Proof.
  split; [|split].
  - apply (token_window 1700000000 1700000300 "secret"); lia.
  - apply (token_window 1700000000 1699999700 "secret"); lia.
  - apply (token_window 1700000000 1700000301 "secret"); lia.
Defined.

(** X22 -- the format of a token.  For every secret and every time, a
    generated token is 64 hexadecimal digits, one colon and the decimal
    time: the HMAC text has 64 characters, each of them one of [0]..[9]
    and [a]..[f]; the token contains exactly one colon, and cutting it at
    the colon gives back the HMAC text and the time text, which is made of
    decimal digits after an optional minus sign and which [ValidateToken]
    parses back to the time. *)
Theorem token_format (now : Z) (secret : string) :
  - 2 ^ 63 <= now < 2 ^ 63 ->
  let mac := _compute_hmac secret (FormatInt now) in
  String.length mac = 64%nat /\
  all_chars is_hex_digit mac = true /\
  count_colons (GenerateToken now secret) = 1%nat /\
  SplitN_colon_2 (GenerateToken now secret) = [mac; FormatInt now] /\
  (exists digits, digits <> EmptyString /\ all_chars is_digit digits = true /\
                  FormatInt now = ((if (now <? 0)%Z then "-" else "") ++ digits)%string) /\
  ParseInt (FormatInt now) = Ok now.
Proof.
  intros Hnow. cbv zeta. pose proof (ParseInt_FormatInt now Hnow) as HP.
  split; [|split; [|split; [|split; [|split]]]].
  - unfold _compute_hmac, Hmac.Sum. cbv zeta.
    rewrite EncodeToString_length, Sum256_length. reflexivity.
  - apply EncodeToString_hex.
  - unfold GenerateToken. cbv zeta.
    rewrite !count_colons_append, compute_hmac_no_colon,
            (ParseInt_no_colon _ _ HP). reflexivity.
  - unfold GenerateToken, SplitN_colon_2. cbv zeta.
    change (":" ++ FormatInt now)%string with (String colon (FormatInt now)).
    rewrite cut_colon_append by apply compute_hmac_no_colon. reflexivity.
  - apply FormatInt_digits.
  - exact HP.
Qed.

Lemma token_format_witness :
  all_chars is_hex_digit (_compute_hmac "secret" (FormatInt (-1))) = true /\
  count_colons (GenerateToken (-1) "secret") = 1%nat /\
  SplitN_colon_2 (GenerateToken (-1) "secret")
  = [_compute_hmac "secret" (FormatInt (-1)); FormatInt (-1)].
Proof.
  destruct (token_format (-1) "secret") as (_ & Hhex & Hcolon & Hsplit & _); [lia|].
  split; [exact Hhex|]. split; [exact Hcolon|exact Hsplit].
Defined.

End RelayAuthMore.

(** ** The relay as a whole: admission, eviction and the pool invariant *)

Module RelayServerMore.
Import Protocol RelayPool RelayPoolMore RelayTunnel RelayHandler RelayHandlerFacts.
Import RelayAuth RelayAuthMore RelayServer.

(** Every link of the pool is a tunnel that exists, and no tunnel is in
    the pool twice. *)
Record server_ok (w : World) : Prop := mkServerOk {
  pool_alloc : forall p, p ∈ tunnels (pool w) -> is_Some (tunnel_heap w !! p);
  pool_nodup : NoDup (tunnels (pool w))
}.

Lemma new_ptr_above (m : gmap nat Tunnel) :
  forall k, is_Some (m !! k) -> (k < new_ptr m)%nat.
Proof.
  unfold new_ptr.
  apply (map_fold_weak_ind
           (fun acc m => forall k, is_Some (m !! k) -> (k < acc)%nat)).
  - intros k [t Hk]. rewrite lookup_empty in Hk. discriminate.
  - intros i x m' acc _ IH k Hk. destruct (decide (i = k)) as [->|Hne]; [lia|].
    rewrite lookup_insert_ne in Hk by exact Hne. specialize (IH k Hk). lia.
Qed.

Lemma new_ptr_fresh (m : gmap nat Tunnel) : m !! new_ptr m = None.
Proof.
  destruct (m !! new_ptr m) as [t|] eqn:E; [|reflexivity].
  pose proof (new_ptr_above m (new_ptr m) (mk_is_Some _ _ E)). lia.
Qed.

Lemma server_ok_fresh (w : World) :
  server_ok w -> new_ptr (tunnel_heap w) ∉ tunnels (pool w).
Proof.
  intros [Ha _] Hin. destruct (Ha _ Hin) as [t Ht].
  rewrite new_ptr_fresh in Ht. discriminate.
Qed.

Lemma server_ok_same (w w' : World) :
  tunnels (pool w') = tunnels (pool w) ->
  (forall p, is_Some (tunnel_heap w !! p) -> is_Some (tunnel_heap w' !! p)) ->
  server_ok w -> server_ok w'.
Proof.
  intros Hp Hh [Ha Hn]. split; rewrite Hp; [|exact Hn].
  intros p Hin. apply Hh, Ha, Hin.
Qed.

(** The pool and the tunnels are those of a state known to be in order. *)
Ltac same_server H :=
  cbn [snd]; refine (server_ok_same _ _ _ _ H); [reflexivity|intros ? Hsome; exact Hsome].

Lemma server_ok_NewServer : server_ok NewServer.
Proof.
  split; cbn [NewServer pool tunnels NewPool]; [|constructor].
  intros p Hin. inversion Hin.
Qed.

Lemma server_ok_handle_tunnel (secret : string) (now : Z) (w : World)
      (r : UpgradeRequest) (upgrade : option Conn) :
  server_ok w -> server_ok (_handle_tunnel secret now w r upgrade).2.
Proof.
  intros Hok. unfold _handle_tunnel. cbv zeta.
  destruct (ValidateToken now secret _) as [u|e]; [|same_server Hok].
  destruct upgrade as [conn|]; [|same_server Hok].
  pose proof (server_ok_fresh w Hok) as Hfresh. destruct Hok as [Ha Hn].
  split; cbn [snd pool tunnel_heap Add tunnels].
  - intros p Hin. apply elem_of_app in Hin as [Hin|Hin].
    + apply lookup_insert_is_Some. destruct (decide (new_ptr (tunnel_heap w) = p));
        [left; assumption|right; split; [assumption|apply Ha, Hin]].
    + apply list_elem_of_singleton in Hin as ->.
      rewrite lookup_insert_eq. eauto.
  - apply NoDup_app. split; [exact Hn|]. split; [|apply NoDup_singleton].
    intros p Hin Hp. apply list_elem_of_singleton in Hp as ->. contradiction.
Qed.

Lemma server_ok_close_tunnel (w : World) (ptr : nat) :
  server_ok w -> server_ok (close_tunnel w ptr).
Proof.
  intros Hok. unfold close_tunnel.
  destruct (tunnel_heap w !! ptr) as [t|] eqn:E; [|exact Hok].
  destruct (Close t (chans w)) as [t' cs'].
  apply (server_ok_same w); [reflexivity| |exact Hok].
  intros p Hp. cbn [tunnel_heap]. apply lookup_insert_is_Some.
  destruct (decide (ptr = p)); [left; assumption|right; split; assumption].
Qed.

Lemma server_ok_pool_watcher (w w' : World) (ptr : nat) :
  server_ok w -> pool_watcher w ptr = Some w' -> server_ok w'.
Proof.
  intros [Ha Hn]. unfold pool_watcher.
  destruct (tunnel_heap w !! ptr) as [t|]; [|discriminate].
  destruct (done t); [|discriminate]. intros [= <-].
  split; cbn [pool tunnel_heap Remove tunnels].
  - intros p Hin. apply Ha.
    destruct (decide (p = ptr)) as [->|Hne].
    + destruct (remove_first_NoDup ptr _ Hn) as [Hnot _]. contradiction.
    + apply (remove_first_other ptr p); assumption.
  - apply remove_first_NoDup. exact Hn.
Qed.

Section Serving.
Variable json_Marshal : TunnelledRequest -> option (list byte).
Variable json_Unmarshal : list byte -> option TunnelledResponse.

Lemma server_ok_with_tunnel (w : World) (ptr : nat) (t : Tunnel) (cs : Chans) :
  server_ok w -> server_ok (with_tunnel w ptr t cs).
Proof.
  apply server_ok_same; [reflexivity|].
  intros p Hp. cbn [with_tunnel tunnel_heap]. apply lookup_insert_is_Some.
  destruct (decide (ptr = p)); [left; assumption|right; split; assumption].
Qed.

Lemma server_ok_ServeHTTP (w : World) (r : Request) (outcomes : list select_outcome) :
  server_ok w -> server_ok (ServeHTTP json_Marshal json_Unmarshal w r outcomes).2.
Proof.
  intros Hok. unfold ServeHTTP.
  destruct (Get_ok_member (pool w)) as [Htun _].
  destruct (Get (pool w)) as [[ptr|e] p]; cbn [snd] in Htun.
  2:{ cbn [snd]. eapply server_ok_same; [| |exact Hok]; [exact Htun|auto]. }
  assert (Hok1 : server_ok (with_pool w p)).
  { eapply server_ok_same; [| |exact Hok]; [exact Htun|auto]. }
  destruct (_build_tunnelled_request r) as [req|]; [|same_server Hok1].
  destruct (json_Marshal req) as [payload|]; [|same_server Hok1].
  destruct (NextStreamID (_stream_counter (with_pool w p))) as [streamID c].
  assert (Hok2 : server_ok (with_stream_counter (with_pool w p) c))
    by same_server Hok1.
  destruct (tunnel_heap (with_stream_counter (with_pool w p) c) !! ptr) as [t|];
    [|exact Hok2].
  destruct (_send_frames 0 _ t _ None) as [[[ch|e] t'] cs'].
  - destruct (SendFrame t' _) as [[u|e] t''].
    + cbn [snd]. apply server_ok_with_tunnel. exact Hok2.
    + same_server (server_ok_with_tunnel _ ptr t'' cs' Hok2).
  - same_server (server_ok_with_tunnel _ ptr t' cs' Hok2).
Qed.

(** What the handler may have done to the response writer when it
    returns: an error of its own (500, 502 or 504), a response written
    with a three-digit status code, or, for a status code that the agent's
    bytes deserialise to and that has not three digits, the panic of
    [WriteHeader]. *)
Definition answer_ok (resp : http_response) : Prop :=
  match resp with
  | HttpError _ code => code = 500 \/ code = 502 \/ code = 504
  | HttpWritten status _ _ => 100 <= status <= 999
  | HttpPanic status =>
      ~ 100 <= status <= 999 /\
      exists data r, json_Unmarshal data = Some r /\ StatusCode r = status
  end.

Lemma write_response_answer (data : list byte) :
  answer_ok (_write_response json_Unmarshal data).
Proof.
  unfold _write_response. destruct (len data =? 0); [right; left; reflexivity|].
  destruct (json_Unmarshal data) as [resp|] eqn:E; [|right; left; reflexivity].
  unfold invalid_WriteHeader_code.
  destruct (Z.ltb_spec (StatusCode resp) 100) as [Hlo|Hlo]; cbn [orb answer_ok].
  - split; [lia|eauto].
  - destruct (Z.gtb_spec (StatusCode resp) 999) as [Hhi|Hhi]; cbn [answer_ok].
    + split; [lia|eauto].
    + lia.
Qed.

Lemma collect_answers (outcomes : list select_outcome) :
  TimerFired ∈ outcomes \/ RecvClosed ∈ outcomes ->
  forall data, exists resp,
    _collect_response json_Unmarshal outcomes data = Some resp /\ answer_ok resp.
Proof.
  induction outcomes as [|o outcomes IH]; intros Hin data.
  - destruct Hin as [H|H]; inversion H.
  - assert (Hrest : o = TimerFired \/ o = RecvClosed
                    \/ (TimerFired ∈ outcomes \/ RecvClosed ∈ outcomes)).
    { destruct Hin as [H|H]; apply elem_of_cons in H as [H|H]; auto. }
    destruct o as [frame| |]; cbn [_collect_response].
    + destruct Hrest as [H|[H|H]]; try discriminate.
      destruct (Type_ frame =? TypeHTTPResponse); [apply IH; exact H|].
      destruct (Type_ frame =? TypeBodyChunk); [apply IH; exact H|].
      destruct (Type_ frame =? TypeStreamClose); [|apply IH; exact H].
      eexists. split; [reflexivity|apply write_response_answer].
    + destruct (len data =? 0); eexists; (split; [reflexivity|]).
      * right; left; reflexivity.
      * apply write_response_answer.
    + eexists. split; [reflexivity|]. right; right; reflexivity.
Qed.

(** X23 -- every request ends.  In a relay whose pool holds only tunnels
    that exist, once every write to the agent has returned and the timer
    fires or the response channel is closed, [ServeHTTP] returns, whatever
    the agent has sent until then, whether a tunnel is there or not and
    whether the sends succeed or not.  It has
    then answered with an error of its own (500, 502 or 504) or with the
    agent's response under a three-digit status code; the one exception
    is a response of the agent whose status code has not three digits, on
    which [WriteHeader] panics and nothing is written.  The relay is left
    with its pool in order. *)
Theorem ServeHTTP_answers (w : World) (r : Request) (outcomes : list select_outcome) :
  server_ok w ->
  TimerFired ∈ outcomes \/ RecvClosed ∈ outcomes ->
  (exists resp,
      (ServeHTTP json_Marshal json_Unmarshal w r outcomes).1 = Some resp /\
      answer_ok resp /\
      ((forall data r, json_Unmarshal data = Some r -> 100 <= StatusCode r <= 999) ->
       forall status, resp <> HttpPanic status)) /\
  server_ok (ServeHTTP json_Marshal json_Unmarshal w r outcomes).2.
Proof.
  intros Hok Hin. split; [|apply server_ok_ServeHTTP; exact Hok].
  assert (Hno : forall resp, answer_ok resp ->
            (forall data r, json_Unmarshal data = Some r -> 100 <= StatusCode r <= 999) ->
            forall status, resp <> HttpPanic status).
  { intros resp Hresp Hvalid status ->. destruct Hresp as (Hbad & data & r0 & Hr & Hs).
    specialize (Hvalid data r0 Hr). lia. }
  assert (Herr : forall msg code, code = 500 \/ code = 502 ->
            exists resp, Some (HttpError msg code) = Some resp /\ answer_ok resp /\
              ((forall data r, json_Unmarshal data = Some r -> 100 <= StatusCode r <= 999) ->
               forall status, resp <> HttpPanic status)).
  { intros msg code Hc. eexists. split; [reflexivity|]. split.
    - cbn [answer_ok]. lia.
    - intros _ status. discriminate. }
  unfold ServeHTTP.
  destruct (Get_ok_member (pool w)) as [Htun Hmem].
  destruct (Get (pool w)) as [[ptr|e] p]; cbn [fst snd] in Htun, Hmem;
    [|cbn [fst]; apply Herr; right; reflexivity].
  destruct (_build_tunnelled_request r) as [req|];
    [|cbn [fst]; apply Herr; left; reflexivity].
  destruct (json_Marshal req) as [payload|];
    [|cbn [fst]; apply Herr; left; reflexivity].
  destruct (NextStreamID (_stream_counter (with_pool w p))) as [streamID c].
  destruct (pool_alloc w Hok ptr (Hmem ptr eq_refl)) as [t Ht].
  cbn [with_stream_counter with_pool tunnel_heap chans]. rewrite Ht.
  destruct (_send_frames 0 _ t _ None) as [[[ch|e] t'] cs'];
    [|cbn [fst]; apply Herr; right; reflexivity].
  destruct (SendFrame t' _) as [sent t'']. cbn [fst].
  destruct (collect_answers outcomes Hin []) as (resp & E & Hresp).
  exists resp. split; [exact E|]. split; [exact Hresp|apply Hno; exact Hresp].
Qed.

End Serving.

Lemma server_ok_relay_with_agent (faults : list bool) :
  server_ok (relay_with_agent faults).
Proof.
  split; cbn [relay_with_agent pool tunnels tunnel_heap].
  - intros p Hp. apply list_elem_of_singleton in Hp as ->.
    rewrite lookup_singleton_eq. eauto.
  - apply NoDup_singleton.
Qed.

(** One agent is connected and takes the request, and its response frame
    arrives; then the timer fires, or the channel is closed. *)
Lemma ServeHTTP_answers_witness :
  (ServeHTTP encode_ok decode_ok (relay_with_agent []) get_hello
     [RecvFrame (mkFrame TypeHTTPResponse 1 ok_bytes); TimerFired]).1
  = Some (HttpError "request timed out" 504) /\
  (ServeHTTP encode_ok decode_ok (relay_with_agent []) get_hello
     [RecvFrame (mkFrame TypeHTTPResponse 1 ok_bytes); RecvClosed]).1
  = Some (HttpWritten 200 ∅ [x68; x69]) /\
  answer_ok decode_ok (HttpWritten 200 ∅ [x68; x69]).
Proof.
  destruct (ServeHTTP_answers encode_ok decode_ok (relay_with_agent []) get_hello
              [RecvFrame (mkFrame TypeHTTPResponse 1 ok_bytes); TimerFired])
    as ((resp1 & E1 & _) & _).
  { exact (server_ok_relay_with_agent []). }
  { left. apply elem_of_cons. right. apply list_elem_of_singleton. reflexivity. }
  destruct (ServeHTTP_answers encode_ok decode_ok (relay_with_agent []) get_hello
              [RecvFrame (mkFrame TypeHTTPResponse 1 ok_bytes); RecvClosed])
    as ((resp2 & E2 & Hresp2 & _) & _).
  { exact (server_ok_relay_with_agent []). }
  { right. apply elem_of_cons. right. apply list_elem_of_singleton. reflexivity. }
  assert (H1 : resp1 = HttpError "request timed out" 504).
  { vm_compute in E1. injection E1 as <-. reflexivity. }
  assert (H2 : resp2 = HttpWritten 200 ∅ [x68; x69]).
  { vm_compute in E2. injection E2 as <-. reflexivity. }
  subst resp1 resp2. split; [exact E1|]. split; [exact E2|exact Hresp2].
Defined.

(** X24 -- the pool invariant.  The pool of [NewServer] is made of
    distinct tunnels that all exist (it is empty), and every operation of
    the relay keeps it so: admitting an agent ([_handle_tunnel]), serving
    a request ([ServeHTTP]), closing a tunnel and the removal by the
    pool's watcher.  [Get] therefore never hands [ServeHTTP] a tunnel that
    is not there. *)
Theorem server_invariant (w : World) :
  server_ok w ->
  (forall secret now r upgrade,
      server_ok (_handle_tunnel secret now w r upgrade).2) /\
  (forall jm ju r outcomes, server_ok (ServeHTTP jm ju w r outcomes).2) /\
  (forall ptr, server_ok (close_tunnel w ptr)) /\
  (forall ptr w', pool_watcher w ptr = Some w' -> server_ok w') /\
  (forall ptr, (Get (pool w)).1 = Ok ptr -> is_Some (tunnel_heap w !! ptr)).
Proof.
  intros Hok.
  split; [intros; apply server_ok_handle_tunnel; exact Hok|].
  split; [intros; apply server_ok_ServeHTTP; exact Hok|].
  split; [intros; apply server_ok_close_tunnel; exact Hok|].
  split; [intros ptr w'; apply server_ok_pool_watcher; exact Hok|].
  intros ptr E. apply (pool_alloc w Hok). apply (Get_ok_member (pool w)). exact E.
Qed.

Lemma server_invariant_witness :
  server_ok NewServer /\
  server_ok (_handle_tunnel "secret" 1700000060 NewServer
               (mkUpgradeRequest (GenerateToken 1700000000 "secret") "" "10.0.0.7:4242")
               (Some (mkConn [] [] false))).2.
Proof.
  split; [exact server_ok_NewServer|].
  destruct (server_invariant NewServer server_ok_NewServer) as (H & _). apply H.
Defined.

(** X25 -- the tunnel endpoint.  An agent that presents, as [token]
    query parameter, a token generated with the relay's secret at most
    300 s away from the relay's clock, and whose upgrade succeeds, is
    admitted: a tunnel named after its remote address is made at a fresh
    address and put at the end of the pool, every other tunnel being left
    as it is.  A request with no token at all, or with a query token that
    does not validate (a valid [X-Auth-Token] header does not help then),
    is answered 401 before any upgrade is tried; pool and tunnels stay
    as they are. *)
Theorem tunnel_endpoint (secret : string) (now : Z) (w : World) (r : UpgradeRequest) :
  (forall now0 conn,
      - 2 ^ 63 <= now0 < 2 ^ 63 -> Z.abs (now - now0) <= 300 ->
      query_token r = GenerateToken now0 secret -> server_ok w ->
      exists ptr w',
        _handle_tunnel secret now w r (Some conn) = (AgentConnected ptr, w') /\
        tunnel_heap w !! ptr = None /\
        tunnels (pool w') = tunnels (pool w) ++ [ptr] /\
        NoDup (tunnels (pool w')) /\
        tunnel_heap w' = <[ptr := NewTunnel ("agent-" ++ RemoteAddr r) conn]>
                           (tunnel_heap w)) /\
  (forall upgrade e,
      (query_token r = "" /\ header_token r = "" /\ e = MalformedToken) \/
      (query_token r <> "" /\ ValidateToken now secret (query_token r) = Err e) ->
      exists w',
        _handle_tunnel secret now w r upgrade = (Unauthorised e, w') /\
        pool w' = pool w /\ tunnel_heap w' = tunnel_heap w /\ chans w' = chans w).
Proof.
  split.
  - intros now0 conn Hnow0 Hage Htok Hok.
    pose proof (server_ok_handle_tunnel secret now w r (Some conn) Hok) as Hok'.
    unfold _handle_tunnel in *. cbv zeta in *.
    rewrite Htok, GenerateToken_not_empty in *.
    rewrite generated_token_check in * by lia.
    assert ((Z.abs (now - now0) * Second >? _token_validity) = false) as E.
    { unfold _token_validity, Second. lia. }
    rewrite E in *. eexists _, _. split; [reflexivity|].
    cbn [pool tunnel_heap Add tunnels]. split; [apply new_ptr_fresh|].
    split; [reflexivity|]. split; [apply (pool_nodup _ Hok')|reflexivity].
  - intros upgrade e Hcase. unfold _handle_tunnel. cbv zeta.
    destruct Hcase as [(Hq & Hh & ->)|(Hq & Hv)].
    + rewrite Hq, Hh. cbn. eexists. repeat split.
    + destruct (String.eqb_spec (query_token r) "") as [E|_]; [contradiction|].
      rewrite Hv. eexists. repeat split.
Qed.

Lemma tunnel_endpoint_witness :
  (exists ptr w',
      _handle_tunnel "secret" 1700000060 NewServer
        (mkUpgradeRequest (GenerateToken 1700000000 "secret") "" "10.0.0.7:4242")
        (Some (mkConn [] [] false)) = (AgentConnected ptr, w') /\
      tunnels (pool w') = [] ++ [ptr]) /\
  (exists w',
      _handle_tunnel "secret" 1700000060 NewServer
        (mkUpgradeRequest "" "" "10.0.0.7:4242") (Some (mkConn [] [] false))
      = (Unauthorised MalformedToken, w') /\ pool w' = pool NewServer).
Proof.
  split.
  - destruct (tunnel_endpoint "secret" 1700000060 NewServer
                (mkUpgradeRequest (GenerateToken 1700000000 "secret") ""
                   "10.0.0.7:4242")) as [Hadmit _].
    destruct (Hadmit 1700000000 (mkConn [] [] false)) as (ptr & w' & E & _ & Hp & _).
    + lia.
    + simpl. lia.
    + reflexivity.
    + exact server_ok_NewServer.
    + exists ptr, w'. split; [exact E|exact Hp].
  - destruct (tunnel_endpoint "secret" 1700000060 NewServer
                (mkUpgradeRequest "" "" "10.0.0.7:4242")) as [_ Hreject].
    destruct (Hreject (Some (mkConn [] [] false)) MalformedToken) as (w' & E & Hp & _).
    + left. repeat split.
    + exists w'. split; [exact E|exact Hp].
Defined.

(** X26 -- eviction.  The pool's watcher of a tunnel does nothing while
    the tunnel is not done.  Once [Close] has run on a tunnel, the watcher
    takes it out of the pool: the tunnel is done,
    it is in the pool no more, every other tunnel is in the pool as
    before, and no later [Get] returns it. *)
Theorem tunnel_eviction (w : World) (ptr : nat) (t : Tunnel) :
  server_ok w -> tunnel_heap w !! ptr = Some t ->
  (done t = false -> pool_watcher w ptr = None) /\
  exists w' t',
    pool_watcher (close_tunnel w ptr) ptr = Some w' /\
    tunnel_heap w' !! ptr = Some t' /\ done t' = true /\
    (ptr ∉ tunnels (pool w')) /\
    (forall q, q <> ptr -> (q ∈ tunnels (pool w') <-> q ∈ tunnels (pool w))) /\
    (forall n, Ok ptr ∉ (GetN n (pool w')).1) /\
    server_ok w'.
Proof.
  intros Hok Ht. split.
  - intros Hd. unfold pool_watcher. rewrite Ht, Hd. reflexivity.
  - pose proof (server_ok_close_tunnel w ptr Hok) as Hok1.
    assert (Hc : exists t', tunnel_heap (close_tunnel w ptr) !! ptr = Some t'
                            /\ done t' = true
                            /\ pool (close_tunnel w ptr) = pool w).
    { unfold close_tunnel. rewrite Ht. unfold Close.
      destruct (done t) eqn:Hd; eexists; cbn [tunnel_heap pool];
        rewrite lookup_insert_eq; repeat split; exact Hd. }
    destruct Hc as (t' & Ht' & Hd' & Hp').
    destruct (pool_watcher (close_tunnel w ptr) ptr) as [w'|] eqn:EW.
    2:{ unfold pool_watcher in EW. rewrite Ht', Hd' in EW. discriminate. }
    pose proof (server_ok_pool_watcher _ _ _ Hok1 EW) as Hok'.
    assert (Hw' : tunnels (pool w') = remove_first ptr (tunnels (pool w))
                  /\ tunnel_heap w' = tunnel_heap (close_tunnel w ptr)).
    { unfold pool_watcher in EW. rewrite Ht', Hd' in EW. injection EW as <-.
      cbn [pool tunnel_heap Remove tunnels]. rewrite Hp'. split; reflexivity. }
    destruct Hw' as [Hpool Hheap].
    destruct (remove_first_NoDup ptr _ (pool_nodup _ Hok)) as [Hnot _].
    exists w', t'. rewrite Hheap, Hpool.
    split; [reflexivity|]. split; [exact Ht'|]. split; [exact Hd'|].
    split; [exact Hnot|]. split.
    + intros q Hq. apply remove_first_other. exact Hq.
    + split; [|exact Hok']. intros n Hin. apply GetN_members in Hin.
      rewrite Hpool in Hin. contradiction.
Qed.

Lemma tunnel_eviction_witness :
  exists w' t',
    pool_watcher
      (close_tunnel
         (mkWorld (@mkPool nat [0; 1]%nat 0)
                  {[ 0%nat := NewTunnel "agent-a" (mkConn [] [] false);
                     1%nat := NewTunnel "agent-b" (mkConn [] [] false) ]}
                  (mkChans ∅ 0) 0 []) 0) 0 = Some w' /\
    tunnel_heap w' !! 0%nat = Some t' /\ done t' = true /\
    tunnels (pool w') = [1%nat].
Proof.
  destruct (tunnel_eviction
              (mkWorld (@mkPool nat [0; 1]%nat 0)
                       {[ 0%nat := NewTunnel "agent-a" (mkConn [] [] false);
                          1%nat := NewTunnel "agent-b" (mkConn [] [] false) ]}
                       (mkChans ∅ 0) 0 []) 0%nat
              (NewTunnel "agent-a" (mkConn [] [] false)))
    as (_ & w' & t' & E & Ht' & Hd' & _).
  - split; cbn [pool tunnels tunnel_heap].
    + intros p Hp. apply elem_of_cons in Hp as [->|Hp]; [eexists; reflexivity|].
      apply list_elem_of_singleton in Hp as ->. eexists. reflexivity.
    + apply (bool_decide_unpack _). vm_compute. reflexivity.
  - reflexivity.
  - exists w', t'. split; [exact E|]. split; [exact Ht'|]. split; [exact Hd'|].
    vm_compute in E. injection E as <-. reflexivity.
Defined.

End RelayServerMore.

